(** * Bulk access-control provisioning: the permission migrator

    A shallow embedding of [permissionMigrator] (package [accesscontrol],
    in [src/pkg/services/ngalert/models/notifications.go], second document):
    [batch], [generateNewRoleUID], [findRole], [createRoles],
    [createRolesMySQL], [bulkCreateRoles] and [bulkAssignRoles].

    Go values are modelled as follows.
    - [int] and [int64] are 64-bit two's complement integers: a [Z] together
      with the wrap-around [wrap64] applied where the code adds.
    - A [string] is a byte sequence: Rocq's [string].
    - A function returning [error] (or [(T, error)]) and able to panic is a
      state transformer returning a [result].
    - The xorm session, [util.GenerateShortUID] and [time.Now] are the
      environment; they live in the [World] record (section Storage).

    The notification settings of package [models] (first document of the
    same file) follow the migrator: [NormalizedGroupBy], [Validate],
    [ToLabels], [Equals], [IsAllDefault], [NewDefaultNotificationSettings]
    and [Fingerprint]. *)

From Stdlib Require Import ZArith Lia List String Ascii Bool Permutation Sorted.
From stdpp Require Import base numbers list strings gmap sorting.

Open Scope Z_scope.

(** ** Machine integers *)

Module GoInt.

Definition min_int : Z := - 2 ^ 63.
Definition max_int : Z := 2 ^ 63 - 1.

(** Two's complement wrap-around of a 64-bit signed integer. *)
Definition wrap64 (z : Z) : Z := (z + 2 ^ 63) mod 2 ^ 64 - 2 ^ 63.

Definition in_range (z : Z) : Prop := min_int <= z <= max_int.

(** [len(s)] of a slice. *)
Definition len {A} (l : list A) : Z := Z.of_nat (length l).

End GoInt.
Export GoInt.

(** ** Errors and results *)

(** The [error] values that occur in the migrator.
    - [ErrUnknownRole name] is [&ErrUnknownRole{name}]: a dedicated error type
      carrying the role name.
    - [NumError fn num kind] is [*strconv.NumError] as [strconv.ParseInt]
      builds it.
    - [errorString msg] is what [fmt.Errorf] without a wrapping verb (and
      [errors.New]) returns: an error that is nothing but its text, equal in
      kind to every other such error.
    - [StorageError code] stands for any other error a storage driver
      reports. *)
Inductive NumErrKind := ErrSyntax | ErrRange.

Inductive error : Type :=
| ErrUnknownRole (name : string)
| NumError (fn num : string) (kind : NumErrKind)
| errorString (msg : string)
| StorageError (code : Z).

(** Whether an error belongs to a dedicated error type of its own, so that a
    caller can recognise the condition by its type.  An [errorString] has no
    such type. *)
Definition has_own_type (e : error) : bool :=
  match e with
  | errorString _ => false
  | _ => true
  end.

(** Outcome of a call: normal return with a nil error, return of a non-nil
    error, a run-time panic, or (a device of the model only) the loop budget
    [fuel] running out before the call returned. *)
Inductive result (A : Type) : Type :=
| Ok (a : A)
| Err (e : error)
| Panic
| OutOfFuel.
Arguments Ok {A} a.
Arguments Err {A} e.
Arguments Panic {A}.
Arguments OutOfFuel {A}.

(** Computations over a state [S]. *)
Definition M (S A : Type) : Type := S -> S * result A.

#[global] Instance M_ret {S} : MRet (M S) := fun A a s => (s, Ok a).

#[global] Instance M_bind {S} : MBind (M S) := fun A B k m s =>
  match m s with
  | (s', Ok a) => k a s'
  | (s', Err e) => (s', Err e)
  | (s', Panic) => (s', Panic)
  | (s', OutOfFuel) => (s', OutOfFuel)
  end.

Definition fail {S A} (e : error) : M S A := fun s => (s, Err e).
Definition panic {S A} : M S A := fun s => (s, Panic).

(** ** batch *)

Section Batch.
Context {S : Type}.

(** [func batch(count, batchSize int, eachFn func(start, end int) error) error].
    The loop [for i := 0; i < count; { ... i = end }] from the index [i];
    [fuel] bounds the number of iterations of the model. *)
Fixpoint batch_from (fuel : nat) (count batchSize : Z)
         (eachFn : Z -> Z -> M S unit) (i : Z) : M S unit :=
  fun s =>
    if i <? count then
      match fuel with
      | O => (s, OutOfFuel)
      | Datatypes.S fuel' =>
          let end_ := wrap64 (i + batchSize) in
          let end_ := if end_ >? count then count else end_ in
          match eachFn i end_ s with
          | (s', Ok _) => batch_from fuel' count batchSize eachFn end_ s'
          | (s', r) => (s', r)
          end
      end
    else (s, Ok tt).

Definition batch (fuel : nat) (count batchSize : Z)
           (eachFn : Z -> Z -> M S unit) : M S unit :=
  batch_from fuel count batchSize eachFn 0.

(** Reference semantics of the Batcher contract: the per-window function
    applied to a given list of windows in order, stopping at the first
    result that is not a normal return. *)
Fixpoint run_windows (eachFn : Z -> Z -> M S unit)
         (ws : list (Z * Z)) : M S unit :=
  fun s =>
    match ws with
    | [] => (s, Ok tt)
    | (a, b) :: ws' =>
        match eachFn a b s with
        | (s', Ok _) => run_windows eachFn ws' s'
        | (s', r) => (s', r)
        end
    end.
End Batch.

(** [tiles bs lo hi ws]: the windows [ws] are non-empty half-open intervals of
    size at most [bs], the first starts at [lo], each starts where the previous
    one ends, and the last ends at [hi]: they cover [lo, hi) exactly once in
    ascending order. *)
Fixpoint tiles (bs lo hi : Z) (ws : list (Z * Z)) : Prop :=
  match ws with
  | [] => lo = hi
  | (a, b) :: ws' => a = lo /\ a < b /\ b - a <= bs /\ b <= hi /\ tiles bs b hi ws'
  end.

(** The windows the loop visits from index [i] (no wrap-around), by the same
    recursion as [batch_from]. *)
Fixpoint windows_from (fuel : nat) (count batchSize i : Z) : list (Z * Z) :=
  match fuel with
  | O => []
  | Datatypes.S fuel' =>
      if i <? count then
        let end_ := Z.min (i + batchSize) count in
        (i, end_) :: windows_from fuel' count batchSize end_
      else []
  end.

(** No window start [i] (a multiple of [batchSize] below [count]) has a sum
    [i + batchSize] beyond the largest int. *)
Definition no_wrap (count batchSize : Z) : Prop :=
  forall q, 0 <= q -> q * batchSize < count -> q * batchSize + batchSize <= max_int.

(** A per-window function that records its window in the state and rejects a
    window whose end lies before its start. *)
Definition probe : Z -> Z -> M (list (Z * Z)) unit :=
  fun a b log =>
    (log ++ [(a, b)], if b <? a then Err (errorString "bad window") else Ok tt).

(** ** Library functions the migrator calls

    [strings.HasPrefix], [strings.Split] (for a one-byte separator, the only
    use in the source), [strings.Title] and [strconv.ParseInt] (base 10,
    64 bits), following the Go standard library. *)

Module strings.

(** [strings.HasPrefix(s, prefix)]. *)
Fixpoint HasPrefix (s prefix : string) : bool :=
  match prefix, s with
  | EmptyString, _ => true
  | String _ _, EmptyString => false
  | String p prefix', String c s' => Ascii.eqb c p && HasPrefix s' prefix'
  end.

(** [strings.Split(s, sep)] for a separator [sep] of one byte: the
    substrings between the separators; always at least one element. *)
Fixpoint Split (s : string) (sep : ascii) : list string :=
  match s with
  | EmptyString => [EmptyString]
  | String c s' =>
      if Ascii.eqb c sep then EmptyString :: Split s' sep
      else match Split s' sep with
           | seg :: segs => String c seg :: segs
           | [] => [String c EmptyString]
           end
  end.

Definition is_lower (c : ascii) : bool :=
  let n := N_of_ascii c in ((97 <=? n) && (n <=? 122))%N.
Definition is_upper (c : ascii) : bool :=
  let n := N_of_ascii c in ((65 <=? n) && (n <=? 90))%N.
Definition is_digit (c : ascii) : bool :=
  let n := N_of_ascii c in ((48 <=? n) && (n <=? 57))%N.

(** [isSeparator]: ASCII letters, digits and the underscore are no
    separators, every other ASCII byte is.  Bytes above 0x7F (parts of
    multi-byte runes, which Go classifies by Unicode tables) are taken as
    no separators. *)
Definition isSeparator (c : ascii) : bool :=
  let n := N_of_ascii c in
  if (n <=? 127)%N
  then negb (is_lower c || is_upper c || is_digit c || (n =? 95)%N)
  else false.

(** [unicode.ToTitle] on a byte: a lower-case ASCII letter becomes upper
    case, everything else is kept. *)
Definition ToTitle (c : ascii) : ascii :=
  if is_lower c then ascii_of_N (N_of_ascii c - 32) else c.

Fixpoint Title_from (prev : ascii) (s : string) : string :=
  match s with
  | EmptyString => EmptyString
  | String c s' =>
      String (if isSeparator prev then ToTitle c else c) (Title_from c s')
  end.

(** [strings.Title(s)]: the letters that begin words mapped to title case;
    [prev] starts as a space. *)
Definition Title (s : string) : string := Title_from " "%char s.

End strings.

Module strconv.

Definition maxUint64 : Z := 2 ^ 64 - 1.

(** The digit loop of [strconv.ParseUint(s, 10, 64)] from the accumulator
    [n]: a byte that is no decimal digit is a syntax error, an accumulator
    that cannot take another digit is a range error. *)
Fixpoint ParseUint_digits (s : string) (n : Z) : Z + NumErrKind :=
  match s with
  | EmptyString => inl n
  | String c s' =>
      if strings.is_digit c then
        let d := Z.of_N (N_of_ascii c) - 48 in
        if n >=? maxUint64 / 10 + 1 then inr ErrRange
        else
          let n1 := n * 10 + d in
          if n1 >? maxUint64 then inr ErrRange
          else ParseUint_digits s' n1
      else inr ErrSyntax
  end.

Definition ParseUint (s : string) : Z + NumErrKind :=
  match s with
  | EmptyString => inr ErrSyntax
  | _ => ParseUint_digits s 0
  end.

(** [strconv.ParseInt(s, 10, 64)]: an optional sign, then [ParseUint]; the
    magnitude must fit a 64-bit signed integer.  The error is a [NumError]
    naming the function and the whole input [s]. *)
Definition ParseInt (s : string) : Z + error :=
  match s with
  | EmptyString => inr (NumError "ParseInt" s ErrSyntax)
  | String c s' =>
      let neg := Ascii.eqb c "-"%char in
      let digits := if Ascii.eqb c "+"%char || neg then s' else s in
      match ParseUint digits with
      | inr ErrSyntax => inr (NumError "ParseInt" s ErrSyntax)
      | inr ErrRange => inr (NumError "ParseInt" s ErrRange)
      | inl un =>
          let cutoff := 2 ^ 63 in
          if negb neg && (un >=? cutoff) then inr (NumError "ParseInt" s ErrRange)
          else if neg && (un >? cutoff) then inr (NumError "ParseInt" s ErrRange)
          else inl (if neg then - un else un)
      end
  end.

End strconv.

(** ** Data model

    The structs of package [accesscontrol] with the fields the migrator reads
    or writes.  A [time.Time] is an instant, a [Z]. *)

Module Role.
Record t : Type := mk {
  ID : Z; OrgID : Z; Version : Z; UID : string; Name : string;
  Updated : Z; Created : Z
}.
(** The zero value [accesscontrol.Role{}]. *)
Definition zero : t := mk 0 0 0 "" "" 0 0.
Definition set_ID (id : Z) (r : t) : t :=
  mk id (OrgID r) (Version r) (UID r) (Name r) (Updated r) (Created r).
(** [r.UID = uid; r.Created = ts; r.Updated = ts]. *)
Definition stamp (uid : string) (ts : Z) (r : t) : t :=
  mk (ID r) (OrgID r) (Version r) uid (Name r) ts ts.
(** The pair by which a role is looked up before it has a UID. *)
Definition key (r : t) : Z * string := (OrgID r, Name r).
End Role.

Module UserRole.
Record t : Type := mk { OrgID : Z; RoleID : Z; UserID : Z; Created : Z }.
End UserRole.

Module TeamRole.
Record t : Type := mk { OrgID : Z; RoleID : Z; TeamID : Z; Created : Z }.
End TeamRole.

Module BuiltinRole.
Record t : Type := mk {
  OrgID : Z; RoleID : Z; Role : string; Created : Z; Updated : Z
}.
End BuiltinRole.

(** ** Storage, identifiers and time: the environment

    The statements the migrator issues through its [*xorm.Session], read off
    the query builders and the SQL text in the source. *)
Inductive Stmt : Type :=
| SelectRoleByUID (orgID : Z) (uid : string)
    (* Where("org_id=? AND uid=?", orgID, uid).Get(&accesscontrol.Role{}) *)
| SelectRoleByName (orgID : Z) (name : string)
    (* Table("role").Where("org_id = ? AND name = ?", orgID, name).Get(&role) *)
| InsertRolesReturning (args : list (Z * string * string * Z * Z))
    (* INSERT INTO role (org_id, uid, name, version, created, updated)
       VALUES (?, ?, ?, 1, ?, ?),... RETURNING id, org_id, name *)
| InsertRoles (roles : list Role.t)
    (* Table("role").Insert(&roles) *)
| SelectRolesByUIDs (args : list (Z * string))
    (* Table("role").Where("(org_id = ? AND uid = ?) OR ...", args...).Find *)
| InsertUserRoles (rows : list UserRole.t)
    (* Table("user_role").InsertMulti(rows) *)
| InsertTeamRoles (rows : list TeamRole.t)
    (* Table("team_role").InsertMulti(rows) *)
| InsertBuiltinRoles (rows : list BuiltinRole.t).
    (* Table("builtin_role").InsertMulti(rows) *)

(** The state the migrator runs in.
    - The four tables, rows in insertion order; [next_id] is the next
      auto-increment id of table [role].
    - [statements]: every statement issued so far, oldest first.
    - [fault n]: the error, if any, with which the statement issued after [n]
      earlier ones fails; a failing statement changes no table.
    - [uid_source], [uid_drawn]: the candidates [util.GenerateShortUID]
      returns, and how many were drawn.
    - [clock]: the instant the next [time.Now()] returns; it advances with
      every reading. *)
Record World : Type := mkWorld {
  role_tbl : list Role.t;
  user_role_tbl : list UserRole.t;
  team_role_tbl : list TeamRole.t;
  builtin_role_tbl : list BuiltinRole.t;
  next_id : Z;
  statements : list Stmt;
  fault : nat -> option error;
  uid_source : nat -> string;
  uid_drawn : nat;
  clock : Z
}.

Definition log_stmt (st : Stmt) (w : World) : World :=
  mkWorld (role_tbl w) (user_role_tbl w) (team_role_tbl w) (builtin_role_tbl w)
          (next_id w) (statements w ++ [st]) (fault w)
          (uid_source w) (uid_drawn w) (clock w).

Definition add_roles (rows : list Role.t) (w : World) : World :=
  mkWorld (role_tbl w ++ rows) (user_role_tbl w) (team_role_tbl w)
          (builtin_role_tbl w) (next_id w + len rows) (statements w) (fault w)
          (uid_source w) (uid_drawn w) (clock w).

Definition add_user_roles (rows : list UserRole.t) (w : World) : World :=
  mkWorld (role_tbl w) (user_role_tbl w ++ rows) (team_role_tbl w)
          (builtin_role_tbl w) (next_id w) (statements w) (fault w)
          (uid_source w) (uid_drawn w) (clock w).

Definition add_team_roles (rows : list TeamRole.t) (w : World) : World :=
  mkWorld (role_tbl w) (user_role_tbl w) (team_role_tbl w ++ rows)
          (builtin_role_tbl w) (next_id w) (statements w) (fault w)
          (uid_source w) (uid_drawn w) (clock w).

Definition add_builtin_roles (rows : list BuiltinRole.t) (w : World) : World :=
  mkWorld (role_tbl w) (user_role_tbl w) (team_role_tbl w)
          (builtin_role_tbl w ++ rows) (next_id w) (statements w) (fault w)
          (uid_source w) (uid_drawn w) (clock w).

(** Issue the statement [st]: it is logged, and it either fails with the
    error the environment has for it or runs [run]. *)
Definition exec {A} (st : Stmt) (run : World -> World * A) : M World A :=
  fun w =>
    match fault w (length (statements w)) with
    | Some e => (log_stmt st w, Err e)
    | None => let '(w', a) := run (log_stmt st w) in (w', Ok a)
    end.

(** Rows as the table stores them: ids assigned in sequence from [next]. *)
Fixpoint with_ids (next : Z) (rows : list Role.t) : list Role.t :=
  match rows with
  | [] => []
  | r :: rows' => Role.set_ID next r :: with_ids (next + 1) rows'
  end.

Module sess.

(** [Where("org_id=? AND uid=?", orgID, uid).Get(&accesscontrol.Role{})]:
    whether table [role] has such a row. *)
Definition role_uid_exists (orgID : Z) (uid : string) : M World bool :=
  exec (SelectRoleByUID orgID uid) (fun w =>
    (w, existsb (fun r => (Role.OrgID r =? orgID) && String.eqb (Role.UID r) uid)
                (role_tbl w))).

(** [Table("role").Where("org_id = ? AND name = ?", orgID, name).Get(&role)]:
    [role] is filled from the first matching row and stays the zero value
    when there is none. *)
Definition get_role_by_name (orgID : Z) (name : string) : M World (bool * Role.t) :=
  exec (SelectRoleByName orgID name) (fun w =>
    (w, match List.find (fun r => (Role.OrgID r =? orgID) && String.eqb (Role.Name r) name)
                        (role_tbl w) with
        | Some r => (true, r)
        | None => (false, Role.zero)
        end)).

(** The row an argument group [(org_id, uid, name, created, updated)] of
    the combined insert stores; the version is the literal 1 of the SQL. *)
Definition row_of_args (a : Z * string * string * Z * Z) : Role.t :=
  let '(orgID, uid, name, created, updated) := a in
  Role.mk 0 orgID 1 uid name updated created.

(** [RETURNING id, org_id, name] scanned into a [Role]: the other fields
    keep their zero values. *)
Definition returned (r : Role.t) : Role.t :=
  Role.mk (Role.ID r) (Role.OrgID r) 0 "" (Role.Name r) 0 0.

(** [SQL("INSERT INTO role (...) VALUES ... RETURNING id, org_id, name",
    args...).Find(&createdRoles)].  Without value groups the statement is
    ill-formed and the database rejects it. *)
Definition insert_roles_returning (args : list (Z * string * string * Z * Z))
  : M World (list Role.t) :=
  match args with
  | [] => fun w => (log_stmt (InsertRolesReturning args) w, Err (StorageError 0))
  | _ => exec (InsertRolesReturning args) (fun w =>
           let rows := with_ids (next_id w) (map row_of_args args) in
           (add_roles rows w, map returned rows))
  end.

(** [Table("role").Insert(&roles)]: one row per element, the id assigned by
    the database.  xorm rejects an empty slice. *)
Definition insert_roles (roles : list Role.t) : M World unit :=
  match roles with
  | [] => fun w => (log_stmt (InsertRoles roles) w, Err (StorageError 0))
  | _ => exec (InsertRoles roles) (fun w =>
           (add_roles (with_ids (next_id w) roles) w, tt))
  end.

(** [Table("role").Where("(org_id = ? AND uid = ?) OR ...", args...)
    .Find(&createdRoles)]: the rows matching one of the argument pairs. *)
Definition find_roles_by_uids (args : list (Z * string)) : M World (list Role.t) :=
  exec (SelectRolesByUIDs args) (fun w =>
    (w, List.filter (fun r =>
          existsb (fun a => (Role.OrgID r =? a.1) && String.eqb (Role.UID r) a.2) args)
          (role_tbl w))).

(** [Table("user_role").InsertMulti(rows)] and its two siblings. *)
Definition insert_user_roles (rows : list UserRole.t) : M World unit :=
  exec (InsertUserRoles rows) (fun w => (add_user_roles rows w, tt)).
Definition insert_team_roles (rows : list TeamRole.t) : M World unit :=
  exec (InsertTeamRoles rows) (fun w => (add_team_roles rows w, tt)).
Definition insert_builtin_roles (rows : list BuiltinRole.t) : M World unit :=
  exec (InsertBuiltinRoles rows) (fun w => (add_builtin_roles rows w, tt)).

End sess.

(** The world after one more candidate was drawn, and after one more reading
    of the clock. *)
Definition draw (w : World) : World :=
  mkWorld (role_tbl w) (user_role_tbl w) (team_role_tbl w) (builtin_role_tbl w)
          (next_id w) (statements w) (fault w)
          (uid_source w) (Datatypes.S (uid_drawn w)) (clock w).

Definition tick (w : World) : World :=
  mkWorld (role_tbl w) (user_role_tbl w) (team_role_tbl w) (builtin_role_tbl w)
          (next_id w) (statements w) (fault w)
          (uid_source w) (uid_drawn w) (clock w + 1).

Module util.
(** [util.GenerateShortUID()]: the next candidate of the environment. *)
Definition GenerateShortUID : M World string := fun w =>
  (draw w, Ok (uid_source w (uid_drawn w))).
End util.

Module time.
(** [time.Now()]. *)
Definition Now : M World Z := fun w => (tick w, Ok (clock w)).
End time.

(** The slice expression [l[start:end]]; out of range it panics ([None]).
    The slices of the migrator are sliced within their length. *)
Definition slice {A} (l : list A) (start end_ : Z) : option (list A) :=
  if (0 <=? start) && (start <=? end_) && (end_ <=? len l)
  then Some (take (Z.to_nat (end_ - start)) (drop (Z.to_nat start) l))
  else None.

(** ** The permission migrator *)

(** [var batchSize = 500]. *)
Definition batchSize : Z := 500.

(** [migrator.MySQL], the driver name of the MySQL dialect. *)
Definition migrator_MySQL : string := "mysql".

(** [generateNewRoleUID(sess, orgID)]: the loop [for i := 0; i < 3; i++] with
    [attempts] iterations left. *)
Fixpoint generateNewRoleUID_loop (attempts : nat) (orgID : Z) : M World string :=
  match attempts with
  | O => fail (errorString "failed to generate uid")
  | Datatypes.S attempts' =>
      uid ← util.GenerateShortUID;
      exists_ ← sess.role_uid_exists orgID uid;
      if exists_ : bool then generateNewRoleUID_loop attempts' orgID
      else mret uid
  end.

Definition generateNewRoleUID (orgID : Z) : M World string :=
  generateNewRoleUID_loop 3 orgID.

(** [findRole(orgID, name)]: the found flag of [Get] is dropped; the role
    and the error are returned. *)
Definition findRole (orgID : Z) (name : string) : M World Role.t :=
  '(_, role) ← sess.get_role_by_name orgID name;
  mret role.

(** The loop of [createRoles] over [roles], appending to [args]. *)
Fixpoint createRoles_args (ts : Z) (roles : list Role.t)
         (args : list (Z * string * string * Z * Z))
  : M World (list (Z * string * string * Z * Z)) :=
  match roles with
  | [] => mret args
  | r :: roles' =>
      uid ← generateNewRoleUID (Role.OrgID r);
      createRoles_args ts roles' (args ++ [(Role.OrgID r, uid, Role.Name r, ts, ts)])
  end.

(** [createRoles(roles, start, end)]: insert and fetch at once. *)
Definition createRoles (roles : list Role.t) (start end_ : Z) : M World (list Role.t) :=
  ts ← time.Now;
  args ← createRoles_args ts roles [];
  sess.insert_roles_returning args.

(** The loop of [createRolesMySQL]: the roles seen so far, updated in place,
    are [done]; [args] collects the [(org_id, uid)] pairs of the lookup. *)
Fixpoint createRolesMySQL_stamp (ts : Z) (roles done : list Role.t)
         (args : list (Z * string)) : M World (list Role.t * list (Z * string)) :=
  match roles with
  | [] => mret (done, args)
  | r :: roles' =>
      uid ← generateNewRoleUID (Role.OrgID r);
      createRolesMySQL_stamp ts roles' (done ++ [Role.stamp uid ts r])
                             (args ++ [(Role.OrgID r, uid)])
  end.

(** [createRolesMySQL(roles, start, end)]: insert the roles, then fetch them.
    The elements of [roles] are pointers to distinct [Role] objects; their
    update in place shows here in the rows that are inserted. *)
Definition createRolesMySQL (roles : list Role.t) (start end_ : Z) : M World (list Role.t) :=
  ts ← time.Now;
  '(roles', args) ← createRolesMySQL_stamp ts roles [] [];
  sess.insert_roles roles';;
  sess.find_roles_by_uids args.

(** The closure [bulkCreateRoles] hands to [batch]: create the roles
    [allRoles[start:end]] and append what was created to the captured variable
    [allCreatedRoles], the second component of the state. *)
Definition create_window
           (createRoles_ : list Role.t -> Z -> Z -> M World (list Role.t))
           (allRoles : list Role.t) : Z -> Z -> M (World * list Role.t) unit :=
  fun start end_ '(w, allCreatedRoles) =>
    match slice allRoles start end_ with
    | None => ((w, allCreatedRoles), Panic)
    | Some roles =>
        match createRoles_ roles start end_ w with
        | (w', Ok createdRoles) => ((w', allCreatedRoles ++ createdRoles), Ok tt)
        | (w', Err e) => ((w', allCreatedRoles), Err e)
        | (w', Panic) => ((w', allCreatedRoles), Panic)
        | (w', OutOfFuel) => ((w', allCreatedRoles), OutOfFuel)
        end
    end.

(** [bulkCreateRoles(allRoles)] on a session whose dialect has the driver
    name [driver].  [allCreatedRoles] is returned also beside an error. *)
Definition bulkCreateRoles (driver : string) (allRoles : list Role.t)
  : World -> (World * list Role.t) * result unit :=
  fun w =>
    if len allRoles =? 0 then ((w, []), Ok tt)
    else
      let createRoles_ :=
        if String.eqb driver migrator_MySQL then createRolesMySQL else createRoles in
      batch (length allRoles) (len allRoles) batchSize
            (create_window createRoles_ allRoles) (w, []).

(** The three slices [bulkAssignRoles] fills. *)
Record Buckets : Type := mkBuckets {
  userRoleAssignments : list UserRole.t;
  teamRoleAssignments : list TeamRole.t;
  builtInRoleAssignments : list BuiltinRole.t
}.

(** The Role Index [map[int64]map[string]*accesscontrol.Role]; the roles it
    points to are non-nil. *)
Abbreviation RolesMap := (gmap Z (gmap string Role.t)).

(** The body of the inner loop of [bulkAssignRoles] for one [name] of the
    organisation [orgID]. *)
Definition assign_name (rolesMap : RolesMap) (ts : Z) (orgID : Z) (name : string)
           (b : Buckets) : result Buckets :=
  match rolesMap !! orgID ≫= (.!! name) with
  | None => Err (ErrUnknownRole name)
  | Some role =>
      if strings.HasPrefix name "managed:users" then
        match strings.Split name ":" !! 2%nat with
        | None => Panic
        | Some seg =>
            match strconv.ParseInt seg with
            | inr err => Err err
            | inl userID =>
                Ok (mkBuckets
                      (userRoleAssignments b ++
                         [UserRole.mk (Role.OrgID role) (Role.ID role) userID ts])
                      (teamRoleAssignments b) (builtInRoleAssignments b))
            end
        end
      else if strings.HasPrefix name "managed:teams" then
        match strings.Split name ":" !! 2%nat with
        | None => Panic
        | Some seg =>
            match strconv.ParseInt seg with
            | inr err => Err err
            | inl teamID =>
                Ok (mkBuckets
                      (userRoleAssignments b)
                      (teamRoleAssignments b ++
                         [TeamRole.mk (Role.OrgID role) (Role.ID role) teamID ts])
                      (builtInRoleAssignments b))
            end
        end
      else if strings.HasPrefix name "managed:builtins" then
        match strings.Split name ":" !! 2%nat with
        | None => Panic
        | Some seg =>
            let builtIn := strings.Title seg in
            Ok (mkBuckets
                  (userRoleAssignments b) (teamRoleAssignments b)
                  (builtInRoleAssignments b ++
                     [BuiltinRole.mk (Role.OrgID role) (Role.ID role) builtIn ts ts]))
        end
      else Ok b
  end.

(** [for name := range roleNames]. *)
Fixpoint assign_names (rolesMap : RolesMap) (ts : Z) (orgID : Z)
         (roleNames : list string) (b : Buckets) : result Buckets :=
  match roleNames with
  | [] => Ok b
  | name :: roleNames' =>
      match assign_name rolesMap ts orgID name b with
      | Ok b' => assign_names rolesMap ts orgID roleNames' b'
      | r => r
      end
  end.

(** [for orgID, roleNames := range assignments].  Go visits a map in an
    unspecified order: [assignments] lists the organisations, and each set of
    names, in the order in which this execution visits them. *)
Fixpoint assign_orgs (rolesMap : RolesMap) (ts : Z)
         (assignments : list (Z * list string)) (b : Buckets) : result Buckets :=
  match assignments with
  | [] => Ok b
  | (orgID, roleNames) :: assignments' =>
      match assign_names rolesMap ts orgID roleNames b with
      | Ok b' => assign_orgs rolesMap ts assignments' b'
      | r => r
      end
  end.

(** The closure handed to [batch] for one bucket: insert [rows[start:end]]. *)
Definition insert_window {A} (insert : list A -> M World unit) (rows : list A)
  : Z -> Z -> M World unit :=
  fun start end_ =>
    match slice rows start end_ with
    | None => panic
    | Some window => insert window
    end.

(** [bulkAssignRoles(rolesMap, assignments)]. *)
Definition bulkAssignRoles (rolesMap : RolesMap) (assignments : list (Z * list string))
  : M World unit :=
  if len assignments =? 0 then mret tt
  else
    ts ← time.Now;
    match assign_orgs rolesMap ts assignments (mkBuckets [] [] []) with
    | Err e => fail e
    | Panic => panic
    | OutOfFuel => fun w => (w, OutOfFuel)
    | Ok b =>
        let users := userRoleAssignments b in
        let teams := teamRoleAssignments b in
        let builtins := builtInRoleAssignments b in
        batch (length users) (len users) batchSize
              (insert_window sess.insert_user_roles users);;
        batch (length teams) (len teams) batchSize
              (insert_window sess.insert_team_roles teams);;
        batch (length builtins) (len builtins) batchSize
              (insert_window sess.insert_builtin_roles builtins)
    end.

(** ** Vocabulary of the statements below *)

(** Whether table [role] holds a row of organisation [orgID] with the UID
    [uid]: what the existence check of [generateNewRoleUID] reads. *)
Definition in_use (w : World) (orgID : Z) (uid : string) : bool :=
  existsb (fun r => (Role.OrgID r =? orgID) && String.eqb (Role.UID r) uid)
          (role_tbl w).

(** The [i]-th candidate [util.GenerateShortUID] returns from [w] on. *)
Definition candidate (w : World) (i : nat) : string :=
  uid_source w (uid_drawn w + i)%nat.

(** The error, if any, of the [i]-th statement issued from [w] on. *)
Definition fault_at (w : World) (i : nat) : option error :=
  fault w (length (statements w) + i)%nat.

(** The first [k] existence checks of [generateNewRoleUID orgID] from [w]. *)
Definition uid_checks (w : World) (orgID : Z) (k : nat) : list Stmt :=
  map (fun i => SelectRoleByUID orgID (candidate w i)) (seq 0 k).

(** Two worlds with the same rows in all four tables. *)
Definition same_tables (w w' : World) : Prop :=
  role_tbl w' = role_tbl w /\ user_role_tbl w' = user_role_tbl w /\
  team_role_tbl w' = team_role_tbl w /\ builtin_role_tbl w' = builtin_role_tbl w /\
  next_id w' = next_id w.

(** Worlds for the examples: no faults unless stated, candidates "a", "b",
    "c", "d", then "z". *)
Definition letters (n : nat) : string :=
  nth n ["a"; "b"; "c"; "d"]%string "z"%string.

Definition world0 : World :=
  mkWorld [] [] [] [] 1 [] (fun _ => None) letters 0 1000.

(** Organisation 1 already has roles with the UIDs "a", "b" and "c". *)
Definition world_abc : World :=
  mkWorld [Role.mk 1 1 1 "a" "r1" 10 10; Role.mk 2 1 1 "b" "r2" 10 10;
           Role.mk 3 1 1 "c" "r3" 10 10]
          [] [] [] 4 [] (fun _ => None) letters 0 1000.

(** The first statement fails with an error of the text that
    [generateNewRoleUID] uses itself. *)
Definition world_faulty : World :=
  mkWorld [] [] [] [] 1 []
          (fun n => match n with
                    | O => Some (errorString "failed to generate uid")
                    | _ => None
                    end)
          letters 0 1000.

(** [w'] comes from [w] by reading only: statements were issued and
    candidates drawn, but no table, fault, candidate or clock changed. *)
Definition reads_only (w w' : World) : Prop :=
  same_tables w w' /\ fault w' = fault w /\ uid_source w' = uid_source w /\
  clock w' = clock w /\ (uid_drawn w <= uid_drawn w')%nat /\
  (length (statements w) <= length (statements w'))%nat.

(** Strictly increasing candidate indices within [lo, hi). *)
Definition idx_range (lo hi : nat) (idxs : list nat) : Prop :=
  StronglySorted lt idxs /\ Forall (fun i => (lo <= i < hi)%nat) idxs.

(** The pair that identifies a stored role once it has a UID. *)
Definition uid_key (r : Role.t) : Z * string := (Role.OrgID r, Role.UID r).

(** The UIDs one batch generates, role by role: the part the loops of
    [createRoles] and [createRolesMySQL] have in common. *)
Fixpoint batch_uids (roles : list Role.t) : M World (list string) :=
  match roles with
  | [] => mret []
  | r :: roles' =>
      uid ← generateNewRoleUID (Role.OrgID r);
      uids ← batch_uids roles';
      mret (uid :: uids)
  end.

(** The same outcome at another result type, for an outcome that is no
    normal return. *)
Definition carry {A B} (r : result A) (b : B) : result B :=
  match r with
  | Ok _ => Ok b
  | Err e => Err e
  | Panic => Panic
  | OutOfFuel => OutOfFuel
  end.

(** The row (before its id is assigned) that a strategy stores for the
    specification [r] with the UID [uid] and the timestamp [ts]: the two-step
    strategy ([mysql = true]) inserts the role as it was handed in, updated in
    place; the combining strategy lists the columns of its [INSERT]. *)
Definition stored_row (mysql : bool) (ts : Z) (r : Role.t) (uid : string) : Role.t :=
  if mysql then Role.stamp uid ts r
  else Role.mk 0 (Role.OrgID r) 1 uid (Role.Name r) ts ts.

(** The environment apart from table [role], the statements and the clock
    is kept; candidates are only consumed and the clock only advances. *)
Definition env_kept (w w' : World) : Prop :=
  fault w' = fault w /\ uid_source w' = uid_source w /\
  (uid_drawn w <= uid_drawn w')%nat /\ clock w <= clock w' /\
  user_role_tbl w' = user_role_tbl w /\ team_role_tbl w' = team_role_tbl w /\
  builtin_role_tbl w' = builtin_role_tbl w.

(** A successful batch of one strategy from [w] to [w'], for the
    specifications [roles], storing [rows] and returning [created]: every
    role got a candidate of the generator (those of [idxs], in increasing
    order) that table [role] did not hold for its organisation; the rows
    carry the timestamp read at the start; the two-step strategy returns the
    rows, the combining strategy their columns id, org_id and name. *)
Definition batch_created (mysql : bool) (w w' : World)
           (roles rows created : list Role.t) : Prop :=
  exists (uids : list string) (idxs : list nat),
    uids = map (uid_source w) idxs /\
    length uids = length roles /\
    idx_range (uid_drawn w) (uid_drawn w') idxs /\
    Forall2 (fun r uid => in_use w (Role.OrgID r) uid = false) roles uids /\
    rows = with_ids (next_id w) (zip_with (stored_row mysql (clock w)) roles uids) /\
    role_tbl w' = role_tbl w ++ rows /\
    next_id w' = next_id w + len rows /\
    created = (if mysql then rows else map sess.returned rows).

(** The strategy [bulkCreateRoles] selects. *)
Definition strategy (mysql : bool)
  : list Role.t -> Z -> Z -> M World (list Role.t) :=
  if mysql then createRolesMySQL else createRoles.

(** What a run of batches of one strategy has achieved between [w0] and [w]
    for the specifications [roles]: the rows [rows] were appended to table
    [role], one per specification and in their order, each with the
    organisation and name of its specification, a timestamp for both
    [Created] and [Updated], and as UID a candidate of the generator (those
    of [idxs], strictly increasing) that table [role] of [w0] did not hold
    for the organisation; [created] is what was returned. *)
Definition bulk_created (mysql : bool) (w0 w : World)
           (roles rows created : list Role.t) : Prop :=
  env_kept w0 w /\
  role_tbl w = role_tbl w0 ++ rows /\
  next_id w = next_id w0 + len rows /\
  map Role.key rows = map Role.key roles /\
  created = (if mysql then rows else map sess.returned rows) /\
  Forall (fun x => Role.Created x = Role.Updated x) rows /\
  Forall (fun x => in_use w0 (Role.OrgID x) (Role.UID x) = false) rows /\
  exists idxs,
    map Role.UID rows = map (uid_source w0) idxs /\
    idx_range (uid_drawn w0) (uid_drawn w) idxs.

(** Two role specifications as a caller hands them in: organisation and
    name set, everything else zero. *)
Definition spec_user1 : Role.t := Role.mk 0 1 0 "" "managed:users:1:permissions" 0 0.
Definition spec_team2 : Role.t := Role.mk 0 1 0 "" "managed:teams:2:permissions" 0 0.

(** *** Vocabulary for [bulkAssignRoles] *)

Definition no_buckets : Buckets := mkBuckets [] [] [].

(** The (organisation, name) pairs in the order in which the two nested
    loops visit them. *)
Definition visits (assignments : list (Z * list string)) : list (Z * string) :=
  flat_map (fun '(orgID, roleNames) => map (pair orgID) roleNames) assignments.

(** The loop body over a sequence of visits, stopping at the first visit
    that does not return normally. *)
Fixpoint assign_visits (rolesMap : RolesMap) (ts : Z) (vs : list (Z * string))
         (b : Buckets) : result Buckets :=
  match vs with
  | [] => Ok b
  | (orgID, name) :: vs' =>
      match assign_name rolesMap ts orgID name b with
      | Ok b' => assign_visits rolesMap ts vs' b'
      | r => r
      end
  end.

(** A list cut into consecutive chunks of [n] elements, the last one
    possibly shorter: the batches of the Batcher contract. *)
Fixpoint chunks_fuel {A} (fuel n : nat) (l : list A) : list (list A) :=
  match fuel, l with
  | O, _ | _, [] => []
  | Datatypes.S fuel', _ => take n l :: chunks_fuel fuel' n (drop n l)
  end.

Definition chunks {A} (n : nat) (l : list A) : list (list A) :=
  chunks_fuel (length l) n l.

(** Actions run one after the other, stopping at the first that does not
    return normally. *)
Fixpoint run_all (actions : list (M World unit)) : M World unit :=
  match actions with
  | [] => mret tt
  | a :: actions' => a;; run_all actions'
  end.

(** The bulk inserts [bulkAssignRoles] has to issue for the buckets [b], in
    order: user bindings, team bindings, built-in bindings, each bucket in
    chunks of [batchSize]; first as actions, then as the statements. *)
Definition plan (b : Buckets) : list (M World unit) :=
  map sess.insert_user_roles (chunks (Z.to_nat batchSize) (userRoleAssignments b)) ++
  map sess.insert_team_roles (chunks (Z.to_nat batchSize) (teamRoleAssignments b)) ++
  map sess.insert_builtin_roles (chunks (Z.to_nat batchSize) (builtInRoleAssignments b)).

Definition plan_stmts (b : Buckets) : list Stmt :=
  map InsertUserRoles (chunks (Z.to_nat batchSize) (userRoleAssignments b)) ++
  map InsertTeamRoles (chunks (Z.to_nat batchSize) (teamRoleAssignments b)) ++
  map InsertBuiltinRoles (chunks (Z.to_nat batchSize) (builtInRoleAssignments b)).

(** Every bucket is short enough for [i + batchSize] not to wrap around. *)
Definition buckets_fit (b : Buckets) : Prop :=
  len (userRoleAssignments b) + batchSize <= max_int /\
  len (teamRoleAssignments b) + batchSize <= max_int /\
  len (builtInRoleAssignments b) + batchSize <= max_int.

(** The action [a] issues exactly the statement [st]: it logs [st], fails
    with the fault the environment has for it or else returns normally, and
    keeps the faults. *)
Definition issues (a : M World unit) (st : Stmt) : Prop :=
  forall w, exists w1,
    a w = (w1, match fault_at w 0 with Some e => Err e | None => Ok tt end) /\
    statements w1 = statements w ++ [st] /\ fault w1 = fault w.

(** Whether [name] begins with one of the three prefixes the code tests. *)
Definition managed_prefix (name : string) : bool :=
  strings.HasPrefix name "managed:users" ||
  strings.HasPrefix name "managed:teams" ||
  strings.HasPrefix name "managed:builtins".

(** Whether [name] begins with one of the recognized prefixes as the
    specification words them, with the trailing colon: [managed:users:],
    [managed:teams:], [managed:builtins:]. *)
Definition recognized_prefix (name : string) : bool :=
  strings.HasPrefix name "managed:users:" ||
  strings.HasPrefix name "managed:teams:" ||
  strings.HasPrefix name "managed:builtins:".

(** The number of bindings in the three buckets. *)
Definition bindings (b : Buckets) : nat :=
  (length (userRoleAssignments b) + length (teamRoleAssignments b)
   + length (builtInRoleAssignments b))%nat.

(** A string without a colon. *)
Fixpoint colon_free (s : string) : bool :=
  match s with
  | EmptyString => true
  | String c s' => negb (Ascii.eqb c ":"%char) && colon_free s'
  end.

(** What may follow the identifier segment of a name: nothing, or further
    colon-separated segments. *)
Definition segments_follow (rest : string) : Prop :=
  rest = EmptyString \/ exists rest', rest = String ":"%char rest'.

(** A Role Index for the examples: organisation 1 with a user, a team and a
    built-in assignment role, a role that is no managed assignment, and
    three roles whose names are not of the documented form. *)
Definition role_users42 : Role.t := Role.mk 11 1 1 "a" "managed:users:42" 5 5.
Definition role_teams7 : Role.t := Role.mk 12 1 1 "b" "managed:teams:7" 5 5.
Definition role_editor : Role.t := Role.mk 13 1 1 "c" "managed:builtins:editor:extra" 5 5.
Definition role_viewer : Role.t := Role.mk 14 1 1 "d" "basic:viewer" 5 5.
Definition role_usersX : Role.t := Role.mk 15 1 1 "e" "managed:usersX:7" 5 5.
Definition role_short : Role.t := Role.mk 16 1 1 "f" "managed:users" 5 5.
Definition role_word : Role.t := Role.mk 17 1 1 "g" "managed:users:x" 5 5.

Definition index1 : RolesMap :=
  {[ 1 := {[ "managed:users:42"%string := role_users42;
             "managed:teams:7"%string := role_teams7;
             "managed:builtins:editor:extra"%string := role_editor;
             "basic:viewer"%string := role_viewer;
             "managed:usersX:7"%string := role_usersX;
             "managed:users"%string := role_short;
             "managed:users:x"%string := role_word ]} ]}.

(** A bucket extended by one binding. *)
Definition add_user (b : Buckets) (x : UserRole.t) : Buckets :=
  mkBuckets (userRoleAssignments b ++ [x]) (teamRoleAssignments b)
            (builtInRoleAssignments b).
Definition add_team (b : Buckets) (x : TeamRole.t) : Buckets :=
  mkBuckets (userRoleAssignments b) (teamRoleAssignments b ++ [x])
            (builtInRoleAssignments b).
Definition add_builtin (b : Buckets) (x : BuiltinRole.t) : Buckets :=
  mkBuckets (userRoleAssignments b) (teamRoleAssignments b)
            (builtInRoleAssignments b ++ [x]).

(** The ids of table [role] come from its auto-increment counter, which
    starts above zero: every stored id is positive and below [next_id]. *)
Definition ids_assigned (w : World) : Prop :=
  0 < next_id w /\ Forall (fun r => 0 < Role.ID r < next_id w) (role_tbl w).

(** Organisation 1 holds the role "r1" under the id 1. *)
Definition world_r1 : World :=
  mkWorld [Role.mk 1 1 1 "a" "r1" 10 10] [] [] [] 2 [] (fun _ => None) letters 0 1000.

(** The bucket a bulk insert belongs to: 0 for user bindings, 1 for team
    bindings, 2 for built-in bindings (3 for any other statement). *)
Definition bucket_of (st : Stmt) : nat :=
  match st with
  | InsertUserRoles _ => 0
  | InsertTeamRoles _ => 1
  | InsertBuiltinRoles _ => 2
  | _ => 3
  end.

(** [cs] cuts [l] into non-empty pieces of at most [n] elements. *)
Definition cut_into {A} (n : nat) (l : list A) (cs : list (list A)) : Prop :=
  concat cs = l /\ Forall (fun c => (1 <= length c <= n)%nat) cs.

(** *** Vocabulary for the further properties of the migrator *)

(** A per-window function that only counts its invocations. *)
Definition count_calls : Z -> Z -> M nat unit :=
  fun _ _ n => (Datatypes.S n, Ok tt).

(** Table [role] of [w'] is that of [w] followed by rows inserted with the
    next ids of the counter, which advanced by their number. *)
Definition roles_appended (w w' : World) : Prop :=
  exists rows,
    role_tbl w' = role_tbl w ++ with_ids (next_id w) rows /\
    next_id w' = next_id w + len rows.

(** What [bulkAssignRoles] may change between [w] and [w']: the binding
    tables grow at their ends, statements are logged and the clock is read at
    most once; table [role], its counter, the generator and the faults are as
    before. *)
Definition bindings_appended (w w' : World) : Prop :=
  role_tbl w' = role_tbl w /\ next_id w' = next_id w /\
  uid_drawn w' = uid_drawn w /\ uid_source w' = uid_source w /\
  fault w' = fault w /\ clock w <= clock w' <= clock w + 1 /\
  (exists rows, user_role_tbl w' = user_role_tbl w ++ rows) /\
  (exists rows, team_role_tbl w' = team_role_tbl w ++ rows) /\
  (exists rows, builtin_role_tbl w' = builtin_role_tbl w ++ rows).

(** Buckets joined bucket by bucket, and buckets that hold the same
    bindings up to their order. *)
Definition buckets_app (b d : Buckets) : Buckets :=
  mkBuckets (userRoleAssignments b ++ userRoleAssignments d)
            (teamRoleAssignments b ++ teamRoleAssignments d)
            (builtInRoleAssignments b ++ builtInRoleAssignments d).

Definition buckets_perm (b d : Buckets) : Prop :=
  Permutation (userRoleAssignments b) (userRoleAssignments d) /\
  Permutation (teamRoleAssignments b) (teamRoleAssignments d) /\
  Permutation (builtInRoleAssignments b) (builtInRoleAssignments d).

(** The role the Role Index holds for a visit. *)
Definition indexed (rolesMap : RolesMap) (v : Z * string) : option Role.t :=
  rolesMap !! v.1 ≫= (.!! v.2).


(** No statement of the session fails. *)
Definition fault_free (w : World) : Prop := forall n, fault w n = None.

(** The generator never repeats a candidate, and none of the candidates it
    has yet to return is the UID of a stored role. *)
Definition generator_fresh (w : World) : Prop :=
  (forall i j, uid_source w i = uid_source w j -> i = j) /\
  (forall i orgID, (uid_drawn w <= i)%nat -> in_use w orgID (uid_source w i) = false).

(** A healthy session for the examples: no faults, an empty table, and a
    generator whose candidates have pairwise different lengths. *)
Fixpoint marks (n : nat) : string :=
  match n with
  | O => "u"
  | Datatypes.S n' => String "u"%char (marks n')
  end.

Definition world_fresh : World :=
  mkWorld [] [] [] [] 1 [] (fun _ => None) marks 0 7.

(** A session whose second statement fails, and the buckets of the
    assignments of the examples. *)
Definition world_second_fails : World :=
  mkWorld [] [] [] [] 1 []
          (fun n => match n with
                    | 1%nat => Some (StorageError 1)
                    | _ => None
                    end)
          letters 0 1000.

Definition buckets1 : Buckets :=
  mkBuckets [UserRole.mk 1 11 42 1000] [TeamRole.mk 1 12 7 1000]
            [BuiltinRole.mk 1 13 "Editor" 1000 1000].

(** A binding made for one of the visits [vs]: it carries the timestamp
    [ts] and the id and organisation of the role the Role Index holds for a
    visited name with the prefix of its bucket. *)
Definition user_binding_of (rolesMap : RolesMap) (ts : Z) (vs : list (Z * string))
           (u : UserRole.t) : Prop :=
  UserRole.Created u = ts /\
  exists v role,
    In v vs /\ indexed rolesMap v = Some role /\
    strings.HasPrefix v.2 "managed:users" = true /\
    UserRole.OrgID u = Role.OrgID role /\ UserRole.RoleID u = Role.ID role.

Definition team_binding_of (rolesMap : RolesMap) (ts : Z) (vs : list (Z * string))
           (t : TeamRole.t) : Prop :=
  TeamRole.Created t = ts /\
  exists v role,
    In v vs /\ indexed rolesMap v = Some role /\
    strings.HasPrefix v.2 "managed:teams" = true /\
    TeamRole.OrgID t = Role.OrgID role /\ TeamRole.RoleID t = Role.ID role.

Definition builtin_binding_of (rolesMap : RolesMap) (ts : Z) (vs : list (Z * string))
           (x : BuiltinRole.t) : Prop :=
  BuiltinRole.Created x = ts /\ BuiltinRole.Updated x = ts /\
  exists v role,
    In v vs /\ indexed rolesMap v = Some role /\
    strings.HasPrefix v.2 "managed:builtins" = true /\
    BuiltinRole.OrgID x = Role.OrgID role /\ BuiltinRole.RoleID x = Role.ID role.

(** Whether a statement is an existence check of [generateNewRoleUID]. *)
Definition is_uid_check (st : Stmt) : bool :=
  match st with
  | SelectRoleByUID _ _ => true
  | _ => false
  end.

(** The statements with which a strategy writes (and fetches) a batch of
    [roles] that got the UIDs [uids] at the instant [ts]. *)
Definition batch_writes (mysql : bool) (ts : Z) (roles : list Role.t)
           (uids : list string) : list Stmt :=
  if mysql then
    [InsertRoles (zip_with (fun r uid => Role.stamp uid ts r) roles uids);
     SelectRolesByUIDs (zip_with (fun r uid => (Role.OrgID r, uid)) roles uids)]
  else
    [InsertRolesReturning
       (zip_with (fun r uid => (Role.OrgID r, uid, Role.Name r, ts, ts)) roles uids)].

(** * Notification settings (package [models])

    [NotificationSettings] and its methods.  A [*model.Duration] is an
    [option] of the 64-bit number of nanoseconds; a slice is a list, the nil
    slice being the empty list (the methods only take the length of a slice
    and range over it, and [slices.Equal] does not tell nil from empty).
    The methods are modelled for a receiver that is not nil, except [Equals],
    which tests for nil itself. *)

(** ** Library functions of the notification settings *)

Module slices.

(** The order [<] of Go on strings is the byte-wise lexicographic order. *)
Definition string_le (a b : string) : Prop := String.leb a b = true.

#[export] Instance string_le_dec : RelDecision string_le :=
  fun a b => decide (String.leb a b = true).

(** [slices.Sort(x)] on strings: the sorted arrangement of [x] (there is only
    one, so that the sorting algorithm does not matter). *)
Definition Sort (x : list string) : list string := merge_sort string_le x.

(** [slices.Equal(s1, s2)]: the lengths are compared first, then the
    elements. *)
Definition Equal (s1 s2 : list string) : bool :=
  if negb (length s1 =? length s2)%nat then false
  else forallb (fun p : string * string => String.eqb p.1 p.2) (zip s1 s2).

End slices.

Module fnv.

(** [hash/fnv]: the 64-bit FNV-1 hash of [fnv.New64()]. *)
Definition offset64 : Z := 14695981039346656037.
Definition prime64 : Z := 1099511628211.

Definition New64 : Z := offset64.

(** [h.Write(data)]: [hash *= prime64; hash ^= uint64(c)] for each byte. *)
Definition Write (h : Z) (data : list Z) : Z :=
  fold_left (fun hash c => Z.lxor ((hash * prime64) mod 2 ^ 64) c) data h.

Definition Sum64 (h : Z) : Z := h.

End fnv.

(** The bytes of a string, and [binary.LittleEndian.PutUint64(tmp, v)]. *)
Definition bytes_of (s : string) : list Z :=
  map (fun c => Z.of_N (N_of_ascii c)) (list_ascii_of_string s).

Definition PutUint64 (v : Z) : list Z :=
  map (fun k => Z.land (Z.shiftr v (8 * k)) 255) [0; 1; 2; 3; 4; 5; 6; 7].

(** [const GroupByAll = "..."]. *)
Definition GroupByAll : string := "...".

Module NotificationSettings.

Record t : Type := mk {
  Receiver : string;
  GroupBy : list string;
  GroupWait : option Z;
  GroupInterval : option Z;
  RepeatInterval : option Z;
  MuteTimeIntervals : list string
}.

Definition set_GroupBy (g : list string) (s : t) : t :=
  mk (Receiver s) g (GroupWait s) (GroupInterval s) (RepeatInterval s)
     (MuteTimeIntervals s).

Section Methods.

(** The label names are constants of other files: [FolderTitleLabel],
    [model.AlertNameLabel] and the three labels of autogenerated routes; so
    is the rendering [data.Fingerprint.String] of a fingerprint. *)
Variables FolderTitleLabel AlertNameLabel : string.
Variables AutogeneratedRouteLabel AutogeneratedRouteReceiverNameLabel
          AutogeneratedRouteSettingsHashLabel : string.
Variable Fingerprint_String : Z -> string.

(** [var DefaultNotificationSettingsGroupBy]. *)
Definition DefaultNotificationSettingsGroupBy : list string :=
  [FolderTitleLabel; AlertNameLabel].

(** The loop [for _, lbl := range s.GroupBy] of [NormalizedGroupBy]: [None]
    when it returns from within, at the label [GroupByAll]. *)
Fixpoint customLabels_loop (defaultGroupBySet : gmap string unit)
         (GroupBy customLabels : list string) : option (list string) :=
  match GroupBy with
  | [] => Some customLabels
  | lbl :: rest =>
      if String.eqb lbl GroupByAll then None
      else
        match defaultGroupBySet !! lbl with
        | Some _ => customLabels_loop defaultGroupBySet rest customLabels
        | None => customLabels_loop defaultGroupBySet rest (customLabels ++ [lbl])
        end
  end.

Definition NormalizedGroupBy (s : t) : list string :=
  if (length (GroupBy s) =? 0)%nat then []
  else
    let defaultGroupBySet :=
      fold_left (fun set lbl => <[lbl := tt]> set)
                DefaultNotificationSettingsGroupBy (∅ : gmap string unit) in
    match customLabels_loop defaultGroupBySet (GroupBy s) [] with
    | None => [GroupByAll]
    | Some customLabels =>
        ([] ++ DefaultNotificationSettingsGroupBy) ++ slices.Sort customLabels
    end.

(** [Validate]: [None] is the nil error. *)
Definition Validate (s : t) : option error :=
  if String.eqb (Receiver s) "" then
    Some (errorString "receiver must be specified")
  else if match GroupWait s with Some d => d <? 0 | None => false end then
    Some (errorString "group wait must be a positive duration")
  else if match GroupInterval s with Some d => d <=? 0 | None => false end then
    Some (errorString "group interval must be greater than zero")
  else if match RepeatInterval s with Some d => d <=? 0 | None => false end then
    Some (errorString "repeat interval must be greater than zero")
  else None.

Definition IsAllDefault (s : t) : bool :=
  (length (GroupBy s) =? 0)%nat &&
  match GroupWait s with None => true | Some _ => false end &&
  match GroupInterval s with None => true | Some _ => false end &&
  match RepeatInterval s with None => true | Some _ => false end &&
  (length (MuteTimeIntervals s) =? 0)%nat.

Definition NewDefaultNotificationSettings (receiver : string) : t :=
  mk receiver [] None None None [].

(** The closures [writeString] and [writeDuration] of [Fingerprint], on the
    state of the hash. *)
Definition writeString (h : Z) (s : string) : Z :=
  fnv.Write (fnv.Write h (bytes_of s)) [255].

Definition writeDuration (h : Z) (d : option Z) : Z :=
  match d with
  | None => fnv.Write h [255]
  | Some d => fnv.Write (fnv.Write h (PutUint64 (d mod 2 ^ 64))) [255]
  end.

Definition Fingerprint (s : t) : Z :=
  let h := fnv.New64 in
  let h := writeString h (Receiver s) in
  let h := fold_left writeString (NormalizedGroupBy s) h in
  let h := writeDuration h (GroupWait s) in
  let h := writeDuration h (GroupInterval s) in
  let h := writeDuration h (RepeatInterval s) in
  let h := fold_left writeString (MuteTimeIntervals s) h in
  fnv.Sum64 h.

(** [ToLabels]: [data.Labels] is a [map[string]string]. *)
Definition ToLabels (s : t) : gmap string string :=
  let result : gmap string string := ∅ in
  let result := <[AutogeneratedRouteLabel := "true"%string]> result in
  let result := <[AutogeneratedRouteReceiverNameLabel := Receiver s]> result in
  if negb (IsAllDefault s) then
    <[AutogeneratedRouteSettingsHashLabel := Fingerprint_String (Fingerprint s)]> result
  else result.

(** [durationEqual] of [Equals]. *)
Definition durationEqual (d1 d2 : option Z) : bool :=
  match d1, d2 with
  | Some x, Some y => x =? y
  | None, None => true
  | _, _ => false
  end.

(** [s.Equals(other)]; [None] is the nil pointer. *)
Definition Equals (s other : option t) : bool :=
  match s, other with
  | Some s, Some other =>
      if negb (String.eqb (Receiver s) (Receiver other)) then false
      else if negb (durationEqual (GroupWait s) (GroupWait other)) then false
      else if negb (durationEqual (GroupInterval s) (GroupInterval other)) then false
      else if negb (durationEqual (RepeatInterval s) (RepeatInterval other)) then false
      else if negb (slices.Equal (MuteTimeIntervals s) (MuteTimeIntervals other))
           then false
      else slices.Equal (GroupBy s) (GroupBy other)
  | None, None => true
  | _, _ => false
  end.

End Methods.

End NotificationSettings.

(** *** Vocabulary for the notification settings *)

(** The labels of [g] that are none of the two default labels, in their
    order and with their repetitions. *)
Definition custom_labels (folder alertname : string) (g : list string) : list string :=
  List.filter (fun l => negb (String.eqb l folder) && negb (String.eqb l alertname)) g.

(** The bytes [Fingerprint] hashes: every string followed by the byte 0xFF,
    a duration as 0xFF when it is nil and as its eight little-endian bytes
    followed by 0xFF otherwise. *)
Definition string_bytes (s : string) : list Z := bytes_of s ++ [255].

Definition duration_bytes (d : option Z) : list Z :=
  match d with
  | None => [255]
  | Some d => PutUint64 (d mod 2 ^ 64) ++ [255]
  end.

Definition fingerprint_bytes (normalizedGroupBy : list string)
           (s : NotificationSettings.t) : list Z :=
  string_bytes (NotificationSettings.Receiver s) ++
  flat_map string_bytes normalizedGroupBy ++
  duration_bytes (NotificationSettings.GroupWait s) ++
  duration_bytes (NotificationSettings.GroupInterval s) ++
  duration_bytes (NotificationSettings.RepeatInterval s) ++
  flat_map string_bytes (NotificationSettings.MuteTimeIntervals s).

(** Settings for the examples. *)
Definition settings1 : NotificationSettings.t :=
  NotificationSettings.mk "slack" ["team"; "alertname"; "env"; "team"]
                          (Some 30) None (Some 3600) ["weekends"].

Definition settings2 : NotificationSettings.t :=
  NotificationSettings.mk "slack" ["env"; "team"; "team"; "alertname"]
                          (Some 30) None (Some 3600) ["weekends"].

(** The seven upper bytes of the 64-bit representation of [d], as a string,
    and the settings [s] with the repeat interval dropped and that string
    added in front of the mute time intervals. *)
Definition upper_bytes (d : Z) : string :=
  string_of_list_ascii
    (map (fun k => ascii_of_N (Z.to_N (Z.land (Z.shiftr (d mod 2 ^ 64) (8 * k)) 255)))
         [1; 2; 3; 4; 5; 6; 7]).

Definition interval_as_name (d : Z) (s : NotificationSettings.t)
  : NotificationSettings.t :=
  NotificationSettings.mk
    (NotificationSettings.Receiver s) (NotificationSettings.GroupBy s)
    (NotificationSettings.GroupWait s) (NotificationSettings.GroupInterval s)
    None (upper_bytes d :: NotificationSettings.MuteTimeIntervals s).

Definition settings3 : NotificationSettings.t :=
  NotificationSettings.mk "slack" [] None None (Some 255) [].

(** * Theorems *)

(** ** Machine integers *)

Lemma wrap64_id z : in_range z -> wrap64 z = z.
Proof.
  unfold in_range, wrap64, min_int, max_int. intros Hz.
  rewrite Z.mod_small; lia.
Qed.

Lemma wrap64_in_range z : in_range (wrap64 z).
Proof.
  unfold in_range, wrap64, min_int, max_int.
  pose proof (Z.mod_pos_bound (z + 2 ^ 63) (2 ^ 64)). lia.
Qed.

(** ** The Batcher *)

Section BatchFacts.
Context {S : Type}.
Implicit Types (eachFn : Z -> Z -> M S unit) (s : S).

Lemma windows_from_fuel count bs f1 : forall f2 i,
  1 <= bs ->
  (Z.to_nat (count - i) <= f1)%nat -> (Z.to_nat (count - i) <= f2)%nat ->
  windows_from f1 count bs i = windows_from f2 count bs i.
Proof.
  induction f1 as [|f1 IH]; intros [|f2] i Hbs H1 H2; simpl;
    destruct (Z.ltb_spec i count) as [Hlt|Hge]; try reflexivity; try lia.
  f_equal. apply IH; lia.
Qed.

Lemma windows_from_tiles count bs fuel : forall i,
  1 <= bs -> i <= count -> (Z.to_nat (count - i) <= fuel)%nat ->
  tiles bs i count (windows_from fuel count bs i).
Proof.
  induction fuel as [|fuel IH]; intros i Hbs Hi Hf; simpl.
  - lia.
  - destruct (Z.ltb_spec i count) as [Hlt|Hge]; simpl; [|lia].
    repeat split; try lia. apply IH; lia.
Qed.

(** Without wrap-around the loop of [batch] is [run_windows] over
    [windows_from]. *)
Lemma batch_from_run_no_wrap count bs eachFn fuel : forall i s,
  1 <= bs -> no_wrap count bs ->
  (count <= i \/ exists q, 0 <= q /\ i = q * bs) ->
  (Z.to_nat (count - i) <= fuel)%nat ->
  batch_from fuel count bs eachFn i s =
  run_windows eachFn (windows_from fuel count bs i) s.
Proof.
  induction fuel as [|fuel IH]; intros i s Hbs Hnw Hi Hf; simpl;
    destruct (Z.ltb_spec i count) as [Hlt|Hge]; try reflexivity; try lia.
  destruct Hi as [Hi|(q & Hq & ->)]; [lia|].
  pose proof (Hnw q Hq Hlt) as Hsum.
  rewrite wrap64_id by (unfold in_range, min_int, max_int in *; nia).
  replace (if q * bs + bs >? count then count else q * bs + bs)
    with (Z.min (q * bs + bs) count)
    by (destruct (Z.gtb_spec (q * bs + bs) count); lia).
  cbn [run_windows].
  destruct (eachFn (q * bs) (Z.min (q * bs + bs) count) s) as [s' [[]| | |]];
    try reflexivity.
  apply IH; try assumption; [|nia].
  destruct (Z.le_gt_cases count (q * bs + bs)) as [Hle|Hgt]; [left; lia|].
  right. exists (q + 1). split; [lia|]. rewrite Z.min_l by lia. ring.
Qed.

Lemma no_wrap_sum count bs : count + bs <= max_int -> no_wrap count bs.
Proof. intros Hmax q Hq Hlt. lia. Qed.

Lemma batch_from_run count bs eachFn fuel i s :
  1 <= bs -> i = 0 -> count + bs <= max_int ->
  (Z.to_nat (count - i) <= fuel)%nat ->
  batch_from fuel count bs eachFn i s =
  run_windows eachFn (windows_from fuel count bs i) s.
Proof.
  intros Hbs -> Hmax Hf. apply batch_from_run_no_wrap; try assumption.
  - apply no_wrap_sum, Hmax.
  - right. exists 0. lia.
Qed.
End BatchFacts.

(** C1 (as amended): for every count >= 0 and batchSize >= 1 such that no
    window start plus batchSize exceeds the largest int (in particular
    whenever count + batchSize does not), there is one list of windows,
    consecutive, non-overlapping, each non-empty and of size at most
    batchSize, covering [0, count) exactly once in ascending order, such that
    batch (given at least count iterations of budget) is the per-window
    function run over these windows in order and stopped at the first error,
    which it returns; with count = 0 nothing is invoked and the call
    succeeds. *)
Theorem batch_covers_without_overflow (count batchSize : Z) :
  0 <= count -> 1 <= batchSize -> no_wrap count batchSize ->
  exists ws : list (Z * Z),
    tiles batchSize 0 count ws /\
    (count = 0 -> ws = []) /\
    forall (S : Type) (eachFn : Z -> Z -> M S unit) (s : S) (fuel : nat),
      (Z.to_nat count <= fuel)%nat ->
      batch fuel count batchSize eachFn s = run_windows eachFn ws s /\
      (forall pre a b post s1 s2 e,
          ws = pre ++ (a, b) :: post ->
          run_windows eachFn pre s = (s1, Ok tt) ->
          eachFn a b s1 = (s2, Err e) ->
          batch fuel count batchSize eachFn s = (s2, Err e)).
Proof.
  intros Hc Hbs Hnw.
  exists (windows_from (Z.to_nat count) count batchSize 0).
  split; [apply windows_from_tiles; lia|].
  split.
  { intros ->. reflexivity. }
  intros S eachFn s fuel Hf.
  assert (Hrun : batch fuel count batchSize eachFn s =
                 run_windows eachFn
                   (windows_from (Z.to_nat count) count batchSize 0) s).
  { unfold batch. rewrite batch_from_run_no_wrap; try assumption; try lia.
    - f_equal. apply windows_from_fuel; lia.
    - right. exists 0. lia. }
  split; [exact Hrun|].
  intros pre a b post s1 s2 e Hws Hpre Hab. rewrite Hrun, Hws.
  clear Hrun Hws. revert s Hpre.
  induction pre as [|[a' b'] pre IH]; intros s Hpre; simpl in *.
  - injection Hpre as ->. rewrite Hab. reflexivity.
  - destruct (eachFn a' b' s) as [s' [[]| | |]]; try discriminate.
    apply IH, Hpre.
Qed.

Lemma batch_covers_without_overflow_witness :
  exists ws : list (Z * Z),
    tiles 2 0 5 ws /\
    (5 = 0 -> ws = []) /\
    forall (S : Type) (eachFn : Z -> Z -> M S unit) (s : S) (fuel : nat),
      (Z.to_nat 5 <= fuel)%nat ->
      batch fuel 5 2 eachFn s = run_windows eachFn ws s /\
      (forall pre a b post s1 s2 e,
          ws = pre ++ (a, b) :: post ->
          run_windows eachFn pre s = (s1, Ok tt) ->
          eachFn a b s1 = (s2, Err e) ->
          batch fuel 5 2 eachFn s = (s2, Err e)).
Proof.
  apply (batch_covers_without_overflow 5 2); try lia.
  apply no_wrap_sum. unfold max_int. lia.
Defined.

Example batch_5_2 :
  batch 5 5 2 probe [] = ([(0, 2); (2, 4); (4, 5)], Ok tt).
Proof. reflexivity. Qed.

Example batch_0 : batch 0 0 500 probe [] = ([], Ok tt).
Proof. reflexivity. Qed.

(** C1 (as stated) fails on 64-bit ints: with count = 2^63 - 1 and
    batchSize = 2^63 - 2 the sum [i + batchSize] of the second iteration wraps
    around to -4, and the per-window function is invoked on the window
    [2^63 - 2, -4), which is no part of [0, count). *)
Lemma batch_wraps_near_max_int :
  0 <= max_int /\ 1 <= max_int - 1 /\
  batch (Z.to_nat max_int) max_int (max_int - 1) probe [] =
    ([(0, max_int - 1); (max_int - 1, -4)], Err (errorString "bad window")).
Proof.
  split; [unfold max_int; lia|]. split; [unfold max_int; lia|].
  assert (Hfuel : exists n, Z.to_nat max_int = Datatypes.S (Datatypes.S n)).
  { exists (Z.to_nat max_int - 2)%nat. unfold max_int. lia. }
  destruct Hfuel as [n ->]. vm_compute. reflexivity.
Qed.

(** ** Library functions on examples *)

Example Split_three : strings.Split "managed:users:42" ":" = ["managed"; "users"; "42"]%string.
Proof. reflexivity. Qed.

Example Split_empty : strings.Split "" ":" = [""%string].
Proof. reflexivity. Qed.

Example Split_trailing : strings.Split "a::b:" ":" = ["a"; ""; "b"; ""]%string.
Proof. reflexivity. Qed.

Example Title_editor : strings.Title "editor" = "Editor"%string.
Proof. reflexivity. Qed.

Example Title_words : strings.Title "grafana admin_x a1b" = "Grafana Admin_x A1b"%string.
Proof. reflexivity. Qed.

Example ParseInt_42 : strconv.ParseInt "42" = inl 42.
Proof. reflexivity. Qed.

Example ParseInt_neg : strconv.ParseInt "-7" = inl (-7).
Proof. reflexivity. Qed.

Example ParseInt_min : strconv.ParseInt "-9223372036854775808" = inl min_int.
Proof. reflexivity. Qed.

Example ParseInt_over :
  strconv.ParseInt "9223372036854775808"
  = inr (NumError "ParseInt" "9223372036854775808" ErrRange).
Proof. reflexivity. Qed.

Example ParseInt_word :
  strconv.ParseInt "x" = inr (NumError "ParseInt" "x" ErrSyntax).
Proof. reflexivity. Qed.

Example ParseInt_sign_only :
  strconv.ParseInt "+" = inr (NumError "ParseInt" "+" ErrSyntax).
Proof. reflexivity. Qed.

(** ** The UID generator *)

Lemma role_uid_exists_run orgID uid w :
  sess.role_uid_exists orgID uid w =
  (log_stmt (SelectRoleByUID orgID uid) w,
   match fault_at w 0 with
   | Some e => Err e
   | None => Ok (in_use w orgID uid)
   end).
Proof.
  unfold sess.role_uid_exists, exec, fault_at. rewrite Nat.add_0_r.
  destruct (fault w (length (statements w))); reflexivity.
Qed.

(** One iteration of the loop of [generateNewRoleUID]. *)
Lemma generateNewRoleUID_loop_step n orgID w :
  generateNewRoleUID_loop (Datatypes.S n) orgID w =
  let w1 := log_stmt (SelectRoleByUID orgID (candidate w 0)) (draw w) in
  match fault_at w 0 with
  | Some e => (w1, Err e)
  | None =>
      if in_use w orgID (candidate w 0)
      then generateNewRoleUID_loop n orgID w1
      else (w1, Ok (candidate w 0))
  end.
Proof.
  cbn [generateNewRoleUID_loop]. unfold mbind, M_bind, util.GenerateShortUID.
  rewrite role_uid_exists_run. unfold candidate. rewrite Nat.add_0_r.
  change (fault_at (draw w) 0) with (fault_at w 0).
  change (in_use (draw w) orgID) with (in_use w orgID).
  destruct (fault_at w 0); [reflexivity|].
  destruct (in_use w orgID _); reflexivity.
Qed.

(** The loop with [n] attempts left: [k] checks are issued, all but the last
    reporting a candidate in use; the loop ends by exhaustion, by a failing
    check or with a free candidate. *)
Lemma generateNewRoleUID_loop_run n orgID : forall w,
  exists (w' : World) (r : result string) (k : nat),
    generateNewRoleUID_loop n orgID w = (w', r) /\
    (k <= n)%nat /\
    statements w' = statements w ++ uid_checks w orgID k /\
    uid_drawn w' = (uid_drawn w + k)%nat /\
    same_tables w w' /\
    fault w' = fault w /\ uid_source w' = uid_source w /\ clock w' = clock w /\
    ((k = n /\ r = Err (errorString "failed to generate uid") /\
      forall j, (j < k)%nat ->
                fault_at w j = None /\ in_use w orgID (candidate w j) = true)
     \/
     ((1 <= k)%nat /\
      (forall j, (Datatypes.S j < k)%nat ->
                 fault_at w j = None /\ in_use w orgID (candidate w j) = true) /\
      ((exists e, fault_at w (k - 1) = Some e /\ r = Err e) \/
       (fault_at w (k - 1) = None /\
        in_use w orgID (candidate w (k - 1)) = false /\
        r = Ok (candidate w (k - 1)))))).
Proof.
  induction n as [|n IH]; intros w.
  - exists w, (Err (errorString "failed to generate uid")), 0%nat.
    unfold same_tables, uid_checks. cbn. rewrite app_nil_r, Nat.add_0_r.
    repeat split; try lia. left. repeat split; intros; lia.
  - rewrite generateNewRoleUID_loop_step. cbv zeta.
    set (w1 := log_stmt (SelectRoleByUID orgID (candidate w 0)) (draw w)).
    assert (Hc : forall j, candidate w1 j = candidate w (Datatypes.S j)).
    { intros j. unfold candidate. cbn. f_equal. lia. }
    assert (Hf : forall j, fault_at w1 j = fault_at w (Datatypes.S j)).
    { intros j. unfold fault_at. cbn. rewrite length_app. cbn. f_equal. lia. }
    assert (Hu : forall u, in_use w1 orgID u = in_use w orgID u) by reflexivity.
    assert (Hone : uid_checks w orgID 1 = [SelectRoleByUID orgID (candidate w 0)])
      by reflexivity.
    destruct (fault_at w 0) as [e|] eqn:F0.
    { exists w1, (Err e), 1%nat. unfold same_tables. rewrite Hone. cbn.
      repeat split; try lia. right. repeat split; try lia.
      left. exists e. split; [exact F0|reflexivity]. }
    destruct (in_use w orgID (candidate w 0)) eqn:U0; cycle 1.
    { exists w1, (Ok (candidate w 0)), 1%nat. unfold same_tables. rewrite Hone. cbn.
      repeat split; try lia. right. repeat split; try lia.
      right. repeat split; assumption. }
    destruct (IH w1) as (w' & r & k & Hrun & Hk & Hst & Hdr & Htb & Hfl & Hsrc & Hclk & Hout).
    exists w', r, (Datatypes.S k). split; [exact Hrun|]. split; [lia|].
    split.
    { rewrite Hst.
      change (statements w1)
        with (statements w ++ [SelectRoleByUID orgID (candidate w 0)]).
      rewrite <- app_assoc. f_equal. unfold uid_checks.
      cbn [seq map app]. f_equal. rewrite <- seq_shift, map_map.
      apply map_ext. intros j. rewrite Hc. reflexivity. }
    split; [rewrite Hdr; cbn; lia|].
    split; [exact Htb|]. split; [exact Hfl|]. split; [exact Hsrc|].
    split; [exact Hclk|].
    assert (Hprev : forall m j,
               (forall j, (j < m)%nat ->
                  fault_at w1 j = None /\ in_use w1 orgID (candidate w1 j) = true) ->
               (j < Datatypes.S m)%nat ->
               fault_at w j = None /\ in_use w orgID (candidate w j) = true).
    { intros m [|j] Hm Hj; [split; assumption|].
      rewrite <- Hf, <- Hc, <- Hu. apply Hm. lia. }
    destruct Hout as [(-> & -> & Hall)|(Hk1 & Hall & Hlast)].
    + left. repeat split; try reflexivity; apply (Hprev n); auto.
    + right. split; [lia|]. split.
      { intros j Hj. apply (Hprev (k - 1)%nat); [|lia].
        intros j' Hj'. apply Hall. lia. }
      replace (Datatypes.S k - 1)%nat with (Datatypes.S (k - 1)) by lia.
      rewrite <- Hf, <- Hc, <- Hu. exact Hlast.
Qed.

(** C5 (as amended): generateNewRoleUID issues between one and three
    existence checks, one per candidate drawn, and changes no table.  Every
    check before the last succeeded and reported its candidate in use.  If the
    last check failed, its error is returned as it is; if it reported the
    candidate unused, that candidate is returned (after a single check when
    the first candidate is free); otherwise three candidates were in use and
    the call fails with the plain error of text "failed to generate uid". *)
Theorem generateNewRoleUID_attempts (w : World) (orgID : Z) :
  exists (w' : World) (r : result string) (k : nat),
    generateNewRoleUID orgID w = (w', r) /\
    (1 <= k <= 3)%nat /\
    statements w' = statements w ++ uid_checks w orgID k /\
    uid_drawn w' = (uid_drawn w + k)%nat /\
    same_tables w w' /\
    (forall j, (Datatypes.S j < k)%nat ->
               fault_at w j = None /\ in_use w orgID (candidate w j) = true) /\
    match fault_at w (k - 1) with
    | Some e => r = Err e
    | None =>
        if in_use w orgID (candidate w (k - 1))
        then k = 3%nat /\ r = Err (errorString "failed to generate uid")
        else r = Ok (candidate w (k - 1))
    end /\
    (fault_at w 0 = None -> in_use w orgID (candidate w 0) = false ->
     k = 1%nat /\ r = Ok (candidate w 0)).
Proof.
  destruct (generateNewRoleUID_loop_run 3 orgID w)
    as (w' & r & k & Hrun & Hk & Hst & Hdr & Htb & _ & _ & _ & Hout).
  exists w', r, k. split; [exact Hrun|].
  assert (Hbefore : forall j, (Datatypes.S j < k)%nat ->
             fault_at w j = None /\ in_use w orgID (candidate w j) = true).
  { destruct Hout as [(_ & _ & Hall)|(_ & Hall & _)]; intros j Hj; apply Hall; lia. }
  assert (Hk1 : (1 <= k <= 3)%nat).
  { destruct Hout as [(-> & _)|(Hk1 & _)]; lia. }
  split; [exact Hk1|]. split; [exact Hst|]. split; [exact Hdr|].
  split; [exact Htb|]. split; [exact Hbefore|].
  assert (Hlast : match fault_at w (k - 1) with
                  | Some e => r = Err e
                  | None =>
                      if in_use w orgID (candidate w (k - 1))
                      then k = 3%nat /\ r = Err (errorString "failed to generate uid")
                      else r = Ok (candidate w (k - 1))
                  end).
  { destruct Hout as [(-> & -> & Hall)|(_ & _ & Hlast)].
    - change (3 - 1)%nat with 2%nat.
      destruct (Hall 2%nat ltac:(lia)) as [-> ->]. split; reflexivity.
    - destruct Hlast as [(e & -> & ->)|(-> & -> & ->)]; reflexivity. }
  split; [exact Hlast|].
  intros F0 U0.
  assert (k = 1%nat) as ->.
  { destruct (Nat.eq_dec k 1%nat) as [|Hne]; [assumption|].
    destruct (Hbefore 0%nat ltac:(lia)) as [_ Hu]. congruence. }
  split; [reflexivity|]. cbn [Nat.sub] in Hlast. rewrite F0, U0 in Hlast. exact Hlast.
Qed.

(** What a call of [generateNewRoleUID] leaves behind, and what a UID it
    returns is. *)
Lemma generateNewRoleUID_run orgID w :
  exists w' r,
    generateNewRoleUID orgID w = (w', r) /\ reads_only w w' /\
    r <> Panic /\ r <> OutOfFuel /\
    forall uid, r = Ok uid ->
      (uid_drawn w < uid_drawn w')%nat /\
      uid = uid_source w (uid_drawn w' - 1) /\
      in_use w orgID uid = false.
Proof.
  destruct (generateNewRoleUID_loop_run 3 orgID w)
    as (w' & r & k & Hrun & Hk & Hst & Hdr & Htb & Hfl & Hsrc & Hclk & Hout).
  exists w', r. split; [exact Hrun|]. split.
  { unfold reads_only. rewrite Hst, length_app.
    split; [exact Htb|]. repeat split; try assumption; lia. }
  destruct Hout as [(-> & -> & _)|(Hk1 & _ & [(e & _ & ->)|(_ & Hfree & ->)])];
    repeat split; try discriminate.
  - lia.
  - injection H as <-. unfold candidate. f_equal. lia.
  - injection H as <-. exact Hfree.
Qed.

Lemma reads_only_refl w : reads_only w w.
Proof. unfold reads_only, same_tables. repeat split; lia. Qed.

Lemma reads_only_trans w1 w2 w3 :
  reads_only w1 w2 -> reads_only w2 w3 -> reads_only w1 w3.
Proof.
  unfold reads_only, same_tables.
  intros ((?&?&?&?&?)&?&?&?&?&?) ((?&?&?&?&?)&?&?&?&?&?).
  repeat split; try congruence; lia.
Qed.

Lemma reads_only_in_use w w' orgID uid :
  reads_only w w' -> in_use w' orgID uid = in_use w orgID uid.
Proof. intros ((H & _) & _). unfold in_use. rewrite H. reflexivity. Qed.

Lemma batch_uids_run roles : forall w,
  exists w' r,
    batch_uids roles w = (w', r) /\ reads_only w w' /\
    r <> Panic /\ r <> OutOfFuel /\
    forall uids, r = Ok uids ->
      exists idxs,
        uids = map (uid_source w) idxs /\
        length uids = length roles /\
        idx_range (uid_drawn w) (uid_drawn w') idxs /\
        Forall2 (fun r uid => in_use w (Role.OrgID r) uid = false) roles uids.
Proof.
  induction roles as [|r roles IH]; intros w.
  - exists w, (Ok []). split; [reflexivity|]. split; [apply reads_only_refl|].
    split; [discriminate|]. split; [discriminate|].
    intros uids [= <-]. exists [].
    unfold idx_range. repeat split; constructor.
  - cbn [batch_uids]. unfold mbind, M_bind.
    destruct (generateNewRoleUID_run (Role.OrgID r) w)
      as (w1 & r1 & -> & Hro1 & Hp1 & Hf1 & Hok1).
    destruct r1 as [uid| e | |]; try congruence.
    2:{ exists w1, (Err e). split; [reflexivity|]. split; [exact Hro1|].
        split; [discriminate|]. split; discriminate. }
    destruct (Hok1 uid eq_refl) as (Hlt & Huid & Hfree).
    destruct (IH w1) as (w' & r2 & -> & Hro2 & Hp2 & Hf2 & Hok2).
    pose proof (reads_only_trans _ _ _ Hro1 Hro2) as Hro.
    destruct r2 as [uids| e | |]; try congruence.
    2:{ exists w', (Err e). split; [reflexivity|]. split; [exact Hro|].
        split; [discriminate|]. split; discriminate. }
    exists w', (Ok (uid :: uids)). split; [reflexivity|]. split; [exact Hro|].
    split; [discriminate|]. split; [discriminate|]. intros ? [= <-].
    destruct (Hok2 uids eq_refl) as (idxs & Hmap & Hlen & (Hsort & Hrange) & Hall).
    assert (Hsrc : uid_source w1 = uid_source w) by apply Hro1.
    exists ((uid_drawn w1 - 1)%nat :: idxs). repeat split.
    + cbn. rewrite <- Huid. f_equal. rewrite Hmap, Hsrc. reflexivity.
    + cbn. rewrite Hlen. reflexivity.
    + constructor; [exact Hsort|].
      eapply Forall_impl; [exact Hrange|]. cbn. intros. lia.
    + constructor.
      * destruct Hro2 as (_ & _ & _ & _ & Hd & _). lia.
      * eapply Forall_impl; [exact Hrange|]. cbn. intros. lia.
    + constructor; [exact Hfree|].
      eapply Forall2_impl; [exact Hall|]. cbn. intros x y Hxy.
      rewrite <- (reads_only_in_use w w1) by exact Hro1. exact Hxy.
Qed.

(** The loops of the two strategies in terms of [batch_uids]. *)
Lemma createRoles_args_uids ts roles : forall args w,
  createRoles_args ts roles args w =
  match batch_uids roles w with
  | (w', Ok uids) =>
      (w', Ok (args ++ zip_with
                 (fun r uid => (Role.OrgID r, uid, Role.Name r, ts, ts)) roles uids))
  | (w', r) => (w', carry r [])
  end.
Proof.
  induction roles as [|r roles IH]; intros args w;
    cbn [createRoles_args batch_uids zip_with].
  - unfold mret, M_ret. rewrite app_nil_r. reflexivity.
  - unfold mbind, M_bind.
    destruct (generateNewRoleUID (Role.OrgID r) w) as [w1 [uid|e| |]]; try reflexivity.
    cbn beta. rewrite IH. destruct (batch_uids roles w1) as [w' [uids|e| |]]; try reflexivity.
    cbn. rewrite <- app_assoc. reflexivity.
Qed.

Lemma createRolesMySQL_stamp_uids ts roles : forall done args w,
  createRolesMySQL_stamp ts roles done args w =
  match batch_uids roles w with
  | (w', Ok uids) =>
      (w', Ok (done ++ zip_with (fun r uid => Role.stamp uid ts r) roles uids,
               args ++ zip_with (fun r uid => (Role.OrgID r, uid)) roles uids))
  | (w', r) => (w', carry r ([], []))
  end.
Proof.
  induction roles as [|r roles IH]; intros done args w;
    cbn [createRolesMySQL_stamp batch_uids zip_with].
  - unfold mret, M_ret. rewrite !app_nil_r. reflexivity.
  - unfold mbind, M_bind.
    destruct (generateNewRoleUID (Role.OrgID r) w) as [w1 [uid|e| |]]; try reflexivity.
    cbn beta. rewrite IH. destruct (batch_uids roles w1) as [w' [uids|e| |]]; try reflexivity.
    cbn. rewrite <- !app_assoc. reflexivity.
Qed.

(** ** The two creation strategies *)

Lemma with_ids_length rows : forall next, length (with_ids next rows) = length rows.
Proof. induction rows as [|r rows IH]; intros next; cbn; [|rewrite IH]; reflexivity. Qed.

Lemma with_ids_uid_key rows : forall next,
  map uid_key (with_ids next rows) = map uid_key rows.
Proof.
  induction rows as [|r rows IH]; intros next; cbn; [|rewrite IH]; reflexivity.
Qed.

Lemma with_ids_key rows : forall next,
  map Role.key (with_ids next rows) = map Role.key rows.
Proof.
  induction rows as [|r rows IH]; intros next; cbn; [|rewrite IH]; reflexivity.
Qed.

Lemma row_of_args_stored ts roles : forall uids,
  map sess.row_of_args
      (zip_with (fun r uid => (Role.OrgID r, uid, Role.Name r, ts, ts)) roles uids)
  = zip_with (stored_row false ts) roles uids.
Proof.
  induction roles as [|r roles IH]; intros [|uid uids]; cbn; try reflexivity.
  rewrite IH. reflexivity.
Qed.

Lemma zip_with_nonempty {A B C} (f : A -> B -> C) l k :
  l <> [] -> length k = length l -> zip_with f l k <> [].
Proof. destruct l, k; cbn; congruence. Qed.

Lemma insert_roles_returning_run args w :
  args <> [] ->
  sess.insert_roles_returning args w =
  match fault w (length (statements w)) with
  | Some e => (log_stmt (InsertRolesReturning args) w, Err e)
  | None =>
      let rows := with_ids (next_id w) (map sess.row_of_args args) in
      (add_roles rows (log_stmt (InsertRolesReturning args) w),
       Ok (map sess.returned rows))
  end.
Proof.
  intros Hne. destruct args; [congruence|].
  unfold sess.insert_roles_returning, exec.
  destruct (fault w (length (statements w))); reflexivity.
Qed.

Lemma insert_roles_run roles w :
  roles <> [] ->
  sess.insert_roles roles w =
  match fault w (length (statements w)) with
  | Some e => (log_stmt (InsertRoles roles) w, Err e)
  | None =>
      (add_roles (with_ids (next_id w) roles) (log_stmt (InsertRoles roles) w),
       Ok tt)
  end.
Proof.
  intros Hne. destruct roles; [congruence|].
  unfold sess.insert_roles, exec.
  destruct (fault w (length (statements w))); reflexivity.
Qed.

Lemma env_kept_refl w : env_kept w w.
Proof. unfold env_kept. repeat split; lia. Qed.

Lemma env_kept_trans w1 w2 w3 : env_kept w1 w2 -> env_kept w2 w3 -> env_kept w1 w3.
Proof.
  unfold env_kept. intros (?&?&?&?&?&?&?) (?&?&?&?&?&?&?).
  repeat split; try congruence; lia.
Qed.

Lemma reads_only_env_kept w w' : reads_only w w' -> env_kept w w'.
Proof.
  unfold reads_only, same_tables, env_kept.
  intros ((?&?&?&?&?)&?&?&?&?&?). repeat split; try congruence; lia.
Qed.

Lemma filter_none {A} (f : A -> bool) l :
  (forall x, In x l -> f x = false) -> List.filter f l = [].
Proof.
  induction l as [|a l IH]; cbn; intros H; [reflexivity|].
  rewrite (H a) by (left; reflexivity). apply IH. intros x Hx. apply H. right. exact Hx.
Qed.

Lemma filter_all {A} (f : A -> bool) l :
  (forall x, In x l -> f x = true) -> List.filter f l = l.
Proof.
  induction l as [|a l IH]; cbn; intros H; [reflexivity|].
  rewrite (H a) by (left; reflexivity). f_equal. apply IH.
  intros x Hx. apply H. right. exact Hx.
Qed.

(** The lookup of the two-step strategy finds no row that was there before:
    every pair it asks for was reported unused. *)
Lemma lookup_misses_old (old : list Role.t) roles uids x :
  Forall2 (fun r uid =>
             existsb (fun r' => (Role.OrgID r' =? Role.OrgID r)
                                && String.eqb (Role.UID r') uid) old = false)
          roles uids ->
  In x old ->
  existsb (fun a : Z * string => (Role.OrgID x =? a.1) && String.eqb (Role.UID x) a.2)
          (zip_with (fun r uid => (Role.OrgID r, uid)) roles uids) = false.
Proof.
  intros Hall Hx. induction Hall as [|r uid roles uids Hfree _ IH]; cbn; [reflexivity|].
  rewrite IH, orb_false_r.
  destruct ((Role.OrgID x =? Role.OrgID r) && String.eqb (Role.UID x) uid) eqn:E;
    [|reflexivity].
  assert (Hex : existsb (fun r' => (Role.OrgID r' =? Role.OrgID r)
                                   && String.eqb (Role.UID r') uid) old = true).
  { apply existsb_exists. exists x. split; assumption. }
  congruence.
Qed.

(** ... and finds every row the batch inserted. *)
Lemma lookup_hits_new ts roles : forall uids x,
  In x (zip_with (stored_row true ts) roles uids) ->
  existsb (fun a : Z * string => (Role.OrgID x =? a.1) && String.eqb (Role.UID x) a.2)
          (zip_with (fun r uid => (Role.OrgID r, uid)) roles uids) = true.
Proof.
  induction roles as [|r roles IH]; intros [|uid uids] x; cbn; try contradiction.
  intros [<-|Hx].
  - cbn. rewrite Z.eqb_refl, String.eqb_refl. reflexivity.
  - rewrite (IH _ _ Hx). apply orb_true_r.
Qed.

Lemma In_with_ids rows : forall next x,
  In x (with_ids next rows) ->
  exists r, In r rows /\ Role.OrgID x = Role.OrgID r /\ Role.UID x = Role.UID r.
Proof.
  induction rows as [|r rows IH]; intros next x; cbn; [contradiction|].
  intros [<-|Hx].
  - exists r. repeat split. left. reflexivity.
  - destruct (IH _ _ Hx) as (r' & Hr' & H1 & H2). exists r'. repeat split; auto.
Qed.

Lemma strategy_run mysql roles start end_ w :
  roles <> [] ->
  exists w' r,
    strategy mysql roles start end_ w = (w', r) /\
    r <> Panic /\ r <> OutOfFuel /\ env_kept w w' /\
    forall created, r = Ok created ->
      exists rows, batch_created mysql w w' roles rows created.
Proof.
  intros Hne.
  destruct (batch_uids_run roles (tick w)) as (w1 & r1 & Hrun & Hro & Hp & Hf & Hok).
  assert (Hk1 : env_kept w w1).
  { apply env_kept_trans with (tick w); [|apply reads_only_env_kept, Hro].
    unfold env_kept. cbn. repeat split; lia. }
  destruct mysql; unfold strategy.
  - (* two-step *)
    unfold createRolesMySQL, mbind, M_bind, time.Now.
    rewrite createRolesMySQL_stamp_uids, Hrun.
    destruct r1 as [uids|e| |]; try congruence; cbn [carry app].
    2:{ exists w1, (Err e). repeat split; try discriminate; apply Hk1. }
    destruct (Hok uids eq_refl) as (idxs & Hmap & Hlen & Hrange & Hall).
    set (stamped := zip_with (fun r uid => Role.stamp uid (clock w) r) roles uids).
    assert (Hst : stamped <> []) by (apply zip_with_nonempty; assumption).
    rewrite insert_roles_run by exact Hst.
    destruct (fault w1 (length (statements w1))) as [e|] eqn:F1.
    { eexists _, (Err e). split; [reflexivity|].
      split; [discriminate|]. split; [discriminate|]. split; [|discriminate].
      apply env_kept_trans with w1; [exact Hk1|]. unfold env_kept. cbn.
      repeat split; lia. }
    set (w2 := add_roles _ _).
    assert (Hk2 : env_kept w w2).
    { apply env_kept_trans with w1; [exact Hk1|]. unfold env_kept. cbn.
      repeat split; lia. }
    unfold sess.find_roles_by_uids, exec.
    destruct (fault w2 (length (statements w2))) as [e|] eqn:F2.
    { eexists _, (Err e). split; [reflexivity|].
      split; [discriminate|]. split; [discriminate|]. split; [|discriminate].
      apply env_kept_trans with w2; [exact Hk2|]. unfold env_kept. cbn.
      repeat split; lia. }
    eexists _, (Ok _). split; [reflexivity|].
    split; [discriminate|]. split; [discriminate|]. split.
    { apply env_kept_trans with w2; [exact Hk2|]. unfold env_kept. cbn.
      repeat split; lia. }
    intros created [= <-].
    destruct Hro as ((Htb & _ & _ & _ & Hnid) & _ & Hsrc & _ & _ & _).
    cbn in Htb, Hnid, Hsrc.
    exists (with_ids (next_id w) stamped), uids, idxs.
    split; [exact Hmap|]. split; [exact Hlen|].
    split; [exact Hrange|]. split; [exact Hall|].
    split; [reflexivity|].
    split; [cbn; rewrite Htb, Hnid; reflexivity|].
    split; [cbn; rewrite Hnid; unfold len; rewrite with_ids_length; reflexivity|].
    cbn [role_tbl log_stmt w2 add_roles]. rewrite Htb, Hnid, List.filter_app.
    rewrite filter_none, filter_all; [reflexivity| |].
    + intros x Hx. destruct (In_with_ids _ _ _ Hx) as (r & Hr & -> & ->).
      apply (lookup_hits_new (clock w)). exact Hr.
    + intros x Hx. eapply lookup_misses_old; [|exact Hx]. exact Hall.
  - (* combining *)
    unfold createRoles, mbind, M_bind, time.Now.
    rewrite createRoles_args_uids, Hrun.
    destruct r1 as [uids|e| |]; try congruence; cbn [carry app].
    2:{ exists w1, (Err e). repeat split; try discriminate; apply Hk1. }
    destruct (Hok uids eq_refl) as (idxs & Hmap & Hlen & Hrange & Hall).
    rewrite insert_roles_returning_run by (apply zip_with_nonempty; assumption).
    rewrite row_of_args_stored.
    destruct (fault w1 (length (statements w1))) as [e|] eqn:F1.
    { eexists _, (Err e). split; [reflexivity|].
      split; [discriminate|]. split; [discriminate|]. split; [|discriminate].
      apply env_kept_trans with w1; [exact Hk1|]. unfold env_kept. cbn.
      repeat split; lia. }
    cbv zeta. eexists _, (Ok _). split; [reflexivity|].
    split; [discriminate|]. split; [discriminate|]. split.
    { apply env_kept_trans with w1; [exact Hk1|]. unfold env_kept. cbn.
      repeat split; lia. }
    intros created [= <-].
    destruct Hro as ((Htb & _ & _ & _ & Hnid) & _ & Hsrc & _ & _ & _).
    cbn in Htb, Hnid, Hsrc.
    exists (with_ids (next_id w) (zip_with (stored_row false (clock w)) roles uids)),
      uids, idxs.
    split; [exact Hmap|]. split; [exact Hlen|].
    split; [exact Hrange|]. split; [exact Hall|].
    split; [reflexivity|].
    split; [cbn; rewrite Htb, Hnid; reflexivity|].
    split; [cbn; rewrite Hnid; unfold len; rewrite with_ids_length; reflexivity|].
    rewrite Hnid. reflexivity.
Qed.

(** ** Bulk creation *)

Lemma stored_rows_key mysql ts roles : forall uids next,
  length uids = length roles ->
  map Role.key (with_ids next (zip_with (stored_row mysql ts) roles uids))
  = map Role.key roles.
Proof.
  induction roles as [|r roles IH]; intros [|uid uids] next Hlen;
    cbn in *; try congruence.
  rewrite IH by congruence. destruct mysql; reflexivity.
Qed.

Lemma stored_rows_uid mysql ts roles : forall uids next,
  length uids = length roles ->
  map Role.UID (with_ids next (zip_with (stored_row mysql ts) roles uids)) = uids.
Proof.
  induction roles as [|r roles IH]; intros [|uid uids] next Hlen;
    cbn in *; try congruence.
  rewrite IH by congruence. destruct mysql; reflexivity.
Qed.

Lemma stored_rows_stamped mysql ts roles : forall uids next,
  Forall (fun x => Role.Created x = ts /\ Role.Updated x = ts)
         (with_ids next (zip_with (stored_row mysql ts) roles uids)).
Proof.
  induction roles as [|r roles IH]; intros [|uid uids] next; cbn;
    try constructor; [destruct mysql; split; reflexivity|apply IH].
Qed.

Lemma stored_rows_unused mysql ts (free : Z -> string -> Prop) roles uids :
  Forall2 (fun r uid => free (Role.OrgID r) uid) roles uids ->
  forall next,
    Forall (fun x => free (Role.OrgID x) (Role.UID x))
           (with_ids next (zip_with (stored_row mysql ts) roles uids)).
Proof.
  induction 1 as [|r uid roles uids Hfree _ IH]; intros next; cbn; constructor.
  - destruct mysql; exact Hfree.
  - apply IH.
Qed.

Lemma in_use_app_false w0 w rows orgID uid :
  role_tbl w = role_tbl w0 ++ rows ->
  in_use w orgID uid = false -> in_use w0 orgID uid = false.
Proof.
  unfold in_use. intros ->. rewrite existsb_app. apply orb_false_iff.
Qed.

Lemma idx_range_app a b c l1 l2 :
  (b <= c)%nat -> idx_range a b l1 -> (a <= b)%nat -> idx_range b c l2 ->
  idx_range a c (l1 ++ l2).
Proof.
  intros Hbc [Hs1 Hr1] Hab [Hs2 Hr2]. split.
  - apply StronglySorted_app_2; try assumption.
    intros x1 x2 H1 H2. rewrite Forall_forall in Hr1, Hr2.
    specialize (Hr1 _ H1). specialize (Hr2 _ H2). lia.
  - apply Forall_app. split; (eapply Forall_impl; [eassumption|]); cbn; intros; lia.
Qed.

Lemma bulk_created_refl mysql w : bulk_created mysql w w [] [] [].
Proof.
  unfold bulk_created. split; [apply env_kept_refl|].
  rewrite app_nil_r. split; [reflexivity|].
  split; [unfold len; cbn; lia|]. split; [reflexivity|].
  split; [destruct mysql; reflexivity|].
  split; [constructor|]. split; [constructor|].
  exists []. repeat split; constructor.
Qed.

Lemma bulk_created_step mysql w0 w w' done roles rows created rows' created' :
  bulk_created mysql w0 w done rows created ->
  env_kept w w' ->
  batch_created mysql w w' roles rows' created' ->
  bulk_created mysql w0 w' (done ++ roles) (rows ++ rows') (created ++ created').
Proof.
  intros (Hk & Htb & Hnid & Hkey & Hcr & Hts & Hfree & idxs & Huid & Hrange) Hk'
         (uids & idxs' & Hmap & Hlen & Hrange' & Hall & Hrows & Htb' & Hnid' & Hcr').
  pose proof Hk as (_ & Hsrc & Hd & _). pose proof Hk' as (_ & _ & Hd' & _).
  split; [eapply env_kept_trans; eassumption|].
  split; [rewrite Htb', Htb, app_assoc; reflexivity|].
  split; [rewrite Hnid', Hnid; unfold len; rewrite length_app; lia|].
  split; [rewrite !map_app, Hkey, Hrows, stored_rows_key by exact Hlen; reflexivity|].
  split; [rewrite Hcr, Hcr'; destruct mysql; [|rewrite map_app]; reflexivity|].
  split.
  { apply Forall_app. split; [exact Hts|]. rewrite Hrows.
    eapply Forall_impl; [apply stored_rows_stamped|]. cbn. intros x [-> ->].
    reflexivity. }
  split.
  { apply Forall_app. split; [exact Hfree|]. rewrite Hrows.
    apply (stored_rows_unused mysql (clock w)
             (fun o u => in_use w0 o u = false)).
    eapply Forall2_impl; [exact Hall|]. cbn. intros r uid.
    apply (in_use_app_false w0 w rows), Htb. }
  exists (idxs ++ idxs'). split.
  - rewrite !map_app, Huid, Hrows, stored_rows_uid by exact Hlen.
    rewrite Hmap, Hsrc. reflexivity.
  - eapply idx_range_app; [exact Hd'|exact Hrange|exact Hd|exact Hrange'].
Qed.

Lemma slice_window {A} (l : list A) a b :
  0 <= a -> a < b -> b <= len l ->
  exists window,
    slice l a b = Some window /\ window <> [] /\
    take (Z.to_nat a) l ++ window = take (Z.to_nat b) l.
Proof.
  intros Ha Hab Hb. unfold slice, len in *.
  replace ((0 <=? a) && (a <=? b) && (b <=? Z.of_nat (length l))) with true
    by (symmetry; rewrite !andb_true_iff, !Z.leb_le; lia).
  eexists. split; [reflexivity|]. split.
  - intros H. apply (f_equal length) in H. rewrite length_take, length_drop in H.
    cbn in H. lia.
  - rewrite take_take_drop. f_equal. lia.
Qed.

(** The closure of [bulkCreateRoles] over a tiling of the remaining roles. *)
Lemma run_windows_create mysql allRoles w0 ws : forall i w acc rows,
  0 <= i -> tiles batchSize i (len allRoles) ws ->
  bulk_created mysql w0 w (take (Z.to_nat i) allRoles) rows acc ->
  exists w' acc' r,
    run_windows (create_window (strategy mysql) allRoles) ws (w, acc)
    = ((w', acc'), r) /\
    r <> Panic /\ r <> OutOfFuel /\
    (r = Ok tt -> exists rows', bulk_created mysql w0 w' allRoles rows' acc').
Proof.
  induction ws as [|[a b] ws IH]; intros i w acc rows Hi Htiles Hinv; cbn in Htiles.
  - exists w, acc, (Ok tt). split; [reflexivity|].
    split; [discriminate|]. split; [discriminate|]. intros _. exists rows.
    rewrite take_ge in Hinv by (unfold len in Htiles; lia). exact Hinv.
  - destruct Htiles as (-> & Hab & Hsz & Hb & Htiles).
    destruct (slice_window allRoles i b Hi Hab Hb) as (roles & Hsl & Hne & Htake).
    cbn [run_windows]. unfold create_window at 1. rewrite Hsl.
    destruct (strategy_run mysql roles i b w Hne)
      as (w1 & r1 & -> & Hp & Hf & Hk & Hok).
    destruct r1 as [created|e| |]; try congruence.
    2:{ exists w1, acc, (Err e). split; [reflexivity|].
        split; [discriminate|]. split; discriminate. }
    destruct (Hok created eq_refl) as (rows' & Hbatch).
    apply (IH b w1 (acc ++ created) (rows ++ rows')); [lia|exact Htiles|].
    rewrite <- Htake. eapply bulk_created_step; eassumption.
Qed.

Lemma StronglySorted_lt_NoDup (l : list nat) : StronglySorted lt l -> NoDup l.
Proof.
  induction 1 as [|x l _ IH Hx]; constructor; [|exact IH].
  intros Hin. rewrite Forall_forall in Hx. specialize (Hx _ Hin). lia.
Qed.

Lemma bulk_created_uid_keys mysql w0 w roles rows created :
  bulk_created mysql w0 w roles rows created ->
  (forall i j, uid_source w0 i = uid_source w0 j -> i = j) ->
  NoDup (map uid_key (role_tbl w0)) -> NoDup (map uid_key (role_tbl w)).
Proof.
  intros (_ & Htb & _ & _ & _ & _ & Hfree & idxs & Huid & Hsorted & _) Hinj Hold.
  rewrite Htb, map_app. apply NoDup_app. split; [exact Hold|]. split.
  - intros k Hk Hk'.
    apply list_elem_of_fmap in Hk as (o & -> & Ho).
    apply list_elem_of_fmap in Hk' as (x & Hkey & Hx).
    rewrite Forall_forall in Hfree. specialize (Hfree _ Hx).
    assert (Hin : in_use w0 (Role.OrgID x) (Role.UID x) = true).
    { apply existsb_exists. exists o. split; [apply list_elem_of_In, Ho|].
      unfold uid_key in Hkey. injection Hkey as -> ->.
      rewrite Z.eqb_refl, String.eqb_refl. reflexivity. }
    congruence.
  - apply (NoDup_fmap_1 snd). rewrite <- list_fmap_compose.
    change (snd ∘ uid_key) with Role.UID.
    change (NoDup (map Role.UID rows)). rewrite Huid.
    apply NoDup_fmap_2_strong; [|apply StronglySorted_lt_NoDup, Hsorted].
    intros i j _ _. apply Hinj.
Qed.

Lemma bulk_created_candidates mysql w0 w roles rows created :
  bulk_created mysql w0 w roles rows created ->
  Forall (fun x => in_use w0 (Role.OrgID x) (Role.UID x) = false /\
                   exists i, (uid_drawn w0 <= i)%nat /\ Role.UID x = uid_source w0 i)
         rows.
Proof.
  intros (_ & _ & _ & _ & _ & _ & Hfree & idxs & Huid & _ & Hrange).
  rewrite Forall_forall in Hfree. rewrite Forall_forall in Hrange.
  rewrite Forall_forall. intros x Hx. split; [apply Hfree, Hx|].
  assert (Hin : Role.UID x ∈ map (uid_source w0) idxs).
  { rewrite <- Huid. apply list_elem_of_fmap. exists x. split; [reflexivity|exact Hx]. }
  apply list_elem_of_fmap in Hin as (i & -> & Hi).
  exists i. split; [|reflexivity]. specialize (Hrange _ Hi). cbn in Hrange. lia.
Qed.

Lemma returned_key rows : map Role.key (map sess.returned rows) = map Role.key rows.
Proof. rewrite map_map. reflexivity. Qed.

(** The whole of [bulkCreateRoles] for either strategy. *)
Lemma bulkCreateRoles_run driver allRoles w :
  len allRoles + batchSize <= max_int ->
  exists w' created r,
    bulkCreateRoles driver allRoles w = ((w', created), r) /\
    r <> Panic /\ r <> OutOfFuel /\
    (r = Ok tt ->
     exists rows,
       bulk_created (String.eqb driver migrator_MySQL) w w' allRoles rows created).
Proof.
  intros Hmax. unfold bulkCreateRoles.
  destruct (Z.eqb_spec (len allRoles) 0) as [H0|H0].
  - exists w, [], (Ok tt). split; [reflexivity|].
    split; [discriminate|]. split; [discriminate|]. intros _. exists [].
    destruct allRoles; [|discriminate]. apply bulk_created_refl.
  - cbv zeta.
    change (if String.eqb driver migrator_MySQL then createRolesMySQL else createRoles)
      with (strategy (String.eqb driver migrator_MySQL)).
    unfold batch. rewrite batch_from_run; unfold batchSize in *; unfold len in *; try lia.
    apply (run_windows_create _ _ w _ 0 w [] []); [lia| |apply bulk_created_refl].
    apply windows_from_tiles; unfold len; lia.
Qed.

(** C2 (as amended): for every list of N role specifications (N + 500 within
    the int range) and either strategy, bulkCreateRoles returns, never panics,
    and whenever it succeeds it has appended N rows to table role, one per
    specification with that specification's (OrgID, Name), and returns exactly
    N roles whose (OrgID, Name) pairs are the input's.  The UID of every
    stored row is a candidate of the generator that table role did not hold
    for its organisation (so it is non-empty when the candidates are, and the
    (OrgID, UID) pairs of the table stay pairwise distinct when the generator
    repeats no candidate).  The two-step strategy returns these rows; the
    combining strategy returns only their id, org_id and name, so the UID of
    a returned role is empty. *)
Theorem bulkCreateRoles_creates (driver : string) (allRoles : list Role.t) (w : World) :
  len allRoles + batchSize <= max_int ->
  exists w' created r,
    bulkCreateRoles driver allRoles w = ((w', created), r) /\
    r <> Panic /\ r <> OutOfFuel /\
    (r = Ok tt ->
     exists rows,
       role_tbl w' = role_tbl w ++ rows /\
       map Role.key rows = map Role.key allRoles /\
       length created = length allRoles /\
       Permutation (map Role.key created) (map Role.key allRoles) /\
       Forall (fun x => in_use w (Role.OrgID x) (Role.UID x) = false /\
                        exists i, (uid_drawn w <= i)%nat /\
                                  Role.UID x = uid_source w i) rows /\
       ((forall i, uid_source w i <> EmptyString) ->
        Forall (fun x => Role.UID x <> EmptyString) rows) /\
       ((forall i j, uid_source w i = uid_source w j -> i = j) ->
        NoDup (map uid_key (role_tbl w)) -> NoDup (map uid_key (role_tbl w'))) /\
       (String.eqb driver migrator_MySQL = true -> created = rows) /\
       (String.eqb driver migrator_MySQL = false ->
        created = map sess.returned rows /\
        Forall (fun x => Role.UID x = EmptyString) created)).
Proof.
  intros Hmax.
  destruct (bulkCreateRoles_run driver allRoles w Hmax)
    as (w' & created & r & Hrun & Hp & Hf & Hok).
  exists w', created, r. split; [exact Hrun|]. split; [exact Hp|]. split; [exact Hf|].
  intros Hr. destruct (Hok Hr) as (rows & Hbulk). exists rows.
  pose proof (bulk_created_candidates _ _ _ _ _ _ Hbulk) as Hcand.
  pose proof (bulk_created_uid_keys _ _ _ _ _ _ Hbulk) as Hkeys.
  destruct Hbulk as (_ & Htb & _ & Hkey & Hcr & _).
  assert (Hck : map Role.key created = map Role.key rows).
  { rewrite Hcr. destruct (String.eqb driver migrator_MySQL);
      [reflexivity|apply returned_key]. }
  split; [exact Htb|]. split; [exact Hkey|]. split.
  { rewrite <- (length_map Role.key created), Hck, Hkey. apply length_map. }
  split; [rewrite Hck, Hkey; reflexivity|]. split; [exact Hcand|]. split.
  { intros Hne. eapply Forall_impl; [exact Hcand|]. cbn.
    intros x (_ & i & _ & ->). apply Hne. }
  split; [exact Hkeys|]. split.
  - intros E. rewrite E in Hcr. exact Hcr.
  - intros E. rewrite E in Hcr. split; [exact Hcr|]. rewrite Hcr.
    apply Forall_forall. intros x Hx.
    apply list_elem_of_fmap in Hx as (y & -> & _). reflexivity.
Qed.

Lemma bulkCreateRoles_creates_witness :
  exists w' created,
    bulkCreateRoles "mysql" [spec_user1; spec_team2] world0 = ((w', created), Ok tt) /\
    length created = 2%nat /\
    Permutation (map Role.key created)
                [(1, "managed:users:1:permissions"%string);
                 (1, "managed:teams:2:permissions"%string)].
Proof.
  destruct (bulkCreateRoles_creates "mysql" [spec_user1; spec_team2] world0)
    as (w' & created & r & Hrun & _ & _ & Hok).
  - vm_compute. discriminate.
  - exists w', created.
    assert (Hr : r = Ok tt) by (vm_compute in Hrun; congruence).
    destruct (Hok Hr) as (rows & _ & _ & Hlen & Hperm & _).
    rewrite Hr in Hrun. split; [exact Hrun|]. split; [exact Hlen|exact Hperm].
Defined.

(** C2 (as stated) fails for the combining strategy: the call succeeds and
    stores the role under the UID "a", but the role it returns, read from
    [RETURNING id, org_id, name], has the empty UID. *)
Lemma bulkCreateRoles_combining_returns_empty_uid :
  exists w',
    bulkCreateRoles "postgres" [spec_user1] world0
    = ((w', [Role.mk 1 1 0 "" "managed:users:1:permissions" 0 0]), Ok tt) /\
    map Role.UID (role_tbl w') = ["a"%string].
Proof. eexists. split; vm_compute; reflexivity. Qed.

Lemma stored_rows_version mysql ts roles : forall uids next,
  length uids = length roles ->
  map Role.Version (with_ids next (zip_with (stored_row mysql ts) roles uids))
  = if mysql then map Role.Version roles else map (fun _ => 1) roles.
Proof.
  induction roles as [|r roles IH]; intros [|uid uids] next Hlen;
    cbn in *; try congruence; [destruct mysql; reflexivity|].
  rewrite IH by congruence. destruct mysql; reflexivity.
Qed.

(** X1: what one successful batch of either strategy persists: one row per role
    of the batch, all rows with the instant read at the start of the batch as
    both Created and Updated; the combining strategy stores Version 1, the
    two-step strategy the Version its role was handed in with. *)
Theorem strategy_stamps_batch
        (mysql : bool) (roles : list Role.t) (start end_ : Z) (w w' : World)
        (created : list Role.t) :
  roles <> [] ->
  strategy mysql roles start end_ w = (w', Ok created) ->
  exists rows,
    role_tbl w' = role_tbl w ++ rows /\
    length rows = length roles /\
    Forall (fun x => Role.Created x = clock w /\ Role.Updated x = clock w) rows /\
    map Role.Version rows
    = (if mysql then map Role.Version roles else map (fun _ => 1) roles).
Proof.
  intros Hne Hrun.
  destruct (strategy_run mysql roles start end_ w Hne) as (w1 & r & Heq & _ & _ & _ & Hok).
  rewrite Hrun in Heq. injection Heq as <- <-.
  destruct (Hok created eq_refl)
    as (rows & uids & idxs & _ & Hlen & _ & _ & -> & Htb & _ & _).
  eexists. split; [exact Htb|]. split; [|split].
  - rewrite with_ids_length, length_zip_with. lia.
  - apply stored_rows_stamped.
  - apply stored_rows_version, Hlen.
Qed.

Lemma strategy_stamps_batch_witness :
  exists rows,
    length rows = 2%nat /\
    Forall (fun x => Role.Created x = 1000 /\ Role.Updated x = 1000) rows /\
    map Role.Version rows = [0; 0].
Proof.
  destruct (strategy_stamps_batch true [spec_user1; spec_team2] 0 2 world0
              (fst (fst (bulkCreateRoles "mysql" [spec_user1; spec_team2] world0)))
              (snd (fst (bulkCreateRoles "mysql" [spec_user1; spec_team2] world0))))
    as (rows & _ & Hlen & Hts & Hver).
  - discriminate.
  - vm_compute. reflexivity.
  - exists rows. repeat split; assumption.
Defined.

(** C6 at its failing input: for a specification with the zero Version the
    two-step strategy stores Version 0, where the combining strategy stores
    Version 1; both stamp Created and Updated with the one instant read at
    the start of the batch. *)
Theorem createRolesMySQL_keeps_input_version :
  (exists w' created,
      bulkCreateRoles "mysql" [spec_user1; spec_team2] world0 = ((w', created), Ok tt) /\
      map Role.Version (role_tbl w') = [0; 0] /\
      map Role.Created (role_tbl w') = [1000; 1000] /\
      map Role.Updated (role_tbl w') = [1000; 1000]) /\
  (exists w' created,
      bulkCreateRoles "postgres" [spec_user1; spec_team2] world0 = ((w', created), Ok tt) /\
      map Role.Version (role_tbl w') = [1; 1] /\
      map Role.Created (role_tbl w') = [1000; 1000] /\
      map Role.Updated (role_tbl w') = [1000; 1000]).
Proof. split; do 2 eexists; repeat split; vm_compute; reflexivity. Qed.

(** C5 (as stated) fails: when three candidates are in use the call fails
    with an [errorString], an error that has no type of its own; the very
    same error value is what the call returns when its first existence check
    fails with an error of that text, after a single attempt. *)
Lemma generateNewRoleUID_exhaustion_is_plain_error :
  (exists w',
      generateNewRoleUID 1 world_abc = (w', Err (errorString "failed to generate uid")) /\
      length (statements w') = 3%nat) /\
  has_own_type (errorString "failed to generate uid") = false /\
  (exists w',
      generateNewRoleUID 1 world_faulty = (w', Err (errorString "failed to generate uid")) /\
      length (statements w') = 1%nat).
Proof.
  split; [|split]; [eexists; split; vm_compute; reflexivity|reflexivity|
                    eexists; split; vm_compute; reflexivity].
Qed.

(** ** Bulk assignment *)

Lemma assign_orgs_visits rolesMap ts assignments : forall b,
  assign_orgs rolesMap ts assignments b
  = assign_visits rolesMap ts (visits assignments) b.
Proof.
  assert (Happ : forall vs1 vs2 b,
             assign_visits rolesMap ts (vs1 ++ vs2) b =
             match assign_visits rolesMap ts vs1 b with
             | Ok b' => assign_visits rolesMap ts vs2 b'
             | r => r
             end).
  { induction vs1 as [|[o n] vs1 IH]; intros vs2 b; cbn [assign_visits app];
      [reflexivity|].
    destruct (assign_name rolesMap ts o n b); try reflexivity. apply IH. }
  assert (Hnames : forall o names b,
             assign_names rolesMap ts o names b =
             assign_visits rolesMap ts (map (pair o) names) b).
  { induction names as [|n names IH]; intros b; cbn [assign_names assign_visits map];
      [reflexivity|].
    destruct (assign_name rolesMap ts o n b); try reflexivity. apply IH. }
  induction assignments as [|[o names] assignments IH]; intros b;
    cbn [assign_orgs visits flat_map]; [reflexivity|].
  rewrite Happ, Hnames.
  destruct (assign_visits rolesMap ts (map (pair o) names) b); try reflexivity.
  apply IH.
Qed.

Lemma run_all_app l1 l2 w :
  run_all (l1 ++ l2) w = (run_all l1;; run_all l2) w.
Proof.
  revert w. induction l1 as [|a l1 IH]; intros w; cbn [run_all app].
  - reflexivity.
  - unfold mbind, M_bind in *. destruct (a w) as [w1 [[]|e| |]]; try reflexivity.
    apply IH.
Qed.

(** Over a list [rows] the windows of [batch] are the chunks of [rows]. *)
Lemma run_windows_chunks {A} (ins : list A -> M World unit) (rows : list A) bs fuel :
  1 <= bs -> forall i w,
  0 <= i ->
  run_windows (insert_window ins rows) (windows_from fuel (len rows) bs i) w =
  run_all (map ins (chunks_fuel fuel (Z.to_nat bs) (drop (Z.to_nat i) rows))) w.
Proof.
  intros Hbs. induction fuel as [|fuel IH]; intros i w Hi.
  - destruct (drop (Z.to_nat i) rows); reflexivity.
  - cbn [windows_from]. unfold len in *.
    destruct (Z.ltb_spec i (Z.of_nat (length rows))) as [Hlt|Hge].
    2:{ rewrite drop_ge by lia. reflexivity. }
    assert (Hrest : drop (Z.to_nat i) rows <> []).
    { intros H. apply (f_equal length) in H. rewrite length_drop in H. cbn in H. lia. }
    cbn [chunks_fuel]. destruct (drop (Z.to_nat i) rows) as [|x rest] eqn:Hd;
      [congruence|]. rewrite <- Hd. clear Hrest.
    cbn [run_windows map run_all]. unfold insert_window at 1, slice.
    fold (len rows). unfold len.
    set (e := Z.min (i + bs) (Z.of_nat (length rows))).
    replace ((0 <=? i) && (i <=? e) && (e <=? Z.of_nat (length rows))) with true
      by (symmetry; rewrite !andb_true_iff, !Z.leb_le; lia).
    assert (Htake : take (Z.to_nat (e - i)) (drop (Z.to_nat i) rows)
                    = take (Z.to_nat bs) (drop (Z.to_nat i) rows)).
    { destruct (Z.le_gt_cases (i + bs) (Z.of_nat (length rows))) as [Hle|Hgt].
      - f_equal. lia.
      - rewrite !take_ge; [reflexivity| |]; rewrite length_drop; lia. }
    assert (Hdrop : drop (Z.to_nat e) rows
                    = drop (Z.to_nat bs) (drop (Z.to_nat i) rows)).
    { rewrite drop_drop.
      destruct (Z.le_gt_cases (i + bs) (Z.of_nat (length rows))) as [Hle|Hgt].
      - f_equal. lia.
      - rewrite !drop_ge; [reflexivity| |]; lia. }
    rewrite Htake, <- Hdrop. unfold mbind, M_bind.
    destruct (ins _ w) as [w1 [[]|err| |]]; try reflexivity.
    fold (len rows). apply IH. lia.
Qed.

Lemma batch_insert_chunks {A} (ins : list A -> M World unit) (rows : list A) w :
  len rows + batchSize <= max_int ->
  batch (length rows) (len rows) batchSize (insert_window ins rows) w =
  run_all (map ins (chunks (Z.to_nat batchSize) rows)) w.
Proof.
  intros Hfit. unfold batch, chunks.
  rewrite batch_from_run; unfold batchSize in *; unfold len in *; try lia.
  fold (len rows). rewrite run_windows_chunks by lia. reflexivity.
Qed.

(** With buckets that fit, the three batched passes are the plan run in
    order. *)
Lemma bulkAssignRoles_plan rolesMap assignments w :
  bulkAssignRoles rolesMap assignments w =
  match assignments with
  | [] => (w, Ok tt)
  | _ =>
      match assign_visits rolesMap (clock w) (visits assignments) no_buckets with
      | Ok b =>
          (batch (length (userRoleAssignments b)) (len (userRoleAssignments b)) batchSize
                 (insert_window sess.insert_user_roles (userRoleAssignments b));;
           batch (length (teamRoleAssignments b)) (len (teamRoleAssignments b)) batchSize
                 (insert_window sess.insert_team_roles (teamRoleAssignments b));;
           batch (length (builtInRoleAssignments b)) (len (builtInRoleAssignments b))
                 batchSize
                 (insert_window sess.insert_builtin_roles (builtInRoleAssignments b)))
            (tick w)
      | Err e => (tick w, Err e)
      | Panic => (tick w, Panic)
      | OutOfFuel => (tick w, OutOfFuel)
      end
  end.
Proof.
  unfold bulkAssignRoles. destruct assignments as [|a assignments]; [reflexivity|].
  replace (len (a :: assignments) =? 0) with false
    by (symmetry; apply Z.eqb_neq; unfold len; cbn [length]; lia).
  unfold mbind at 1, M_bind at 1, time.Now.
  rewrite assign_orgs_visits.
  destruct (assign_visits _ _ _ _); reflexivity.
Qed.

Lemma bulkAssignRoles_run_plan rolesMap assignments w b :
  assignments <> [] ->
  assign_visits rolesMap (clock w) (visits assignments) no_buckets = Ok b ->
  buckets_fit b ->
  bulkAssignRoles rolesMap assignments w = run_all (plan b) (tick w).
Proof.
  intros Hne Hb (Hu & Ht & Hbi). rewrite bulkAssignRoles_plan, Hb.
  destruct assignments; [congruence|].
  unfold plan. rewrite run_all_app. unfold mbind, M_bind.
  rewrite batch_insert_chunks by exact Hu.
  destruct (run_all _ (tick w)) as [w1 [[]|e| |]]; try reflexivity.
  rewrite run_all_app. unfold mbind, M_bind.
  rewrite batch_insert_chunks by exact Ht.
  destruct (run_all _ w1) as [w2 [[]|e| |]]; try reflexivity.
  apply batch_insert_chunks, Hbi.
Qed.

Lemma exec_issues (st : Stmt) (eff : World -> World) :
  (forall w, statements (eff w) = statements w /\ fault (eff w) = fault w) ->
  issues (exec st (fun w => (eff w, tt))) st.
Proof.
  intros Heff w. unfold exec, fault_at. rewrite Nat.add_0_r.
  destruct (fault w (length (statements w))) as [e|].
  - eexists. split; [reflexivity|]. split; reflexivity.
  - eexists. split; [reflexivity|].
    destruct (Heff (log_stmt st w)) as [-> ->]. split; reflexivity.
Qed.

Lemma plan_issues b : Forall2 issues (plan b) (plan_stmts b).
Proof.
  unfold plan, plan_stmts.
  repeat apply Forall2_app; apply Forall2_fmap, Forall_Forall2_diag, Forall_forall;
    intros c _; apply exec_issues; intros w; split; reflexivity.
Qed.

(** A run of issuing actions logs a prefix of their statements: all of
    them when it succeeds, and up to the first failing one otherwise. *)
Lemma run_all_issues acts sts :
  Forall2 issues acts sts ->
  forall w, exists w' r k,
    run_all acts w = (w', r) /\ (k <= length sts)%nat /\
    statements w' = statements w ++ take k sts /\
    (forall j, (Datatypes.S j < k)%nat -> fault_at w j = None) /\
    match r with
    | Ok _ => k = length sts /\ forall j, (j < k)%nat -> fault_at w j = None
    | Err e => (1 <= k)%nat /\ fault_at w (k - 1) = Some e
    | Panic | OutOfFuel => False
    end.
Proof.
  induction 1 as [|a st acts sts Ha _ IH]; intros w.
  - exists w, (Ok tt), 0%nat. cbn. rewrite app_nil_r.
    repeat split; try lia; intros; lia.
  - cbn [run_all]. unfold mbind, M_bind.
    destruct (Ha w) as (w1 & -> & Hst1 & Hf1).
    destruct (fault_at w 0) as [e|] eqn:F0.
    { exists w1, (Err e), 1%nat. cbn.
      repeat split; try lia; try assumption; intros; lia. }
    destruct (IH w1) as (w' & r & k & -> & Hk & Hst & Hbefore & Hr).
    assert (Hshift : forall j, fault_at w1 j = fault_at w (Datatypes.S j)).
    { intros j. unfold fault_at. rewrite Hf1, Hst1, length_app. cbn. f_equal. lia. }
    exists w', r, (Datatypes.S k). split; [reflexivity|]. split; [cbn; lia|].
    split; [rewrite Hst, Hst1, <- app_assoc; reflexivity|]. split.
    { intros [|j] Hj; [exact F0|]. rewrite <- Hshift. apply Hbefore. lia. }
    destruct r as [[]|e| |]; try contradiction.
    + destruct Hr as [-> Hall]. split; [reflexivity|].
      intros [|j] Hj; [exact F0|]. rewrite <- Hshift. apply Hall. cbn in Hj. lia.
    + destruct Hr as [Hk1 Hlast]. split; [lia|].
      replace (Datatypes.S k - 1)%nat with (Datatypes.S (k - 1)) by lia.
      rewrite <- Hshift. exact Hlast.
Qed.

Lemma chunks_cut {A} n (l : list A) : (1 <= n)%nat -> cut_into n l (chunks n l).
Proof.
  intros Hn. unfold chunks.
  assert (H : forall fuel (l : list A), (length l <= fuel)%nat ->
                cut_into n l (chunks_fuel fuel n l)).
  { induction fuel as [|fuel IH]; intros [|x k] Hlen; cbn [chunks_fuel];
      try (split; [reflexivity|constructor]); [cbn in Hlen; lia|].
    destruct (IH (drop n (x :: k))) as [Hcat Hsz].
    { rewrite length_drop. cbn [length] in *. lia. }
    split.
    - cbn [concat]. rewrite Hcat. apply take_drop.
    - constructor; [|exact Hsz]. rewrite length_take. cbn [length]. lia. }
  apply H. lia.
Qed.

Lemma plan_in_bucket_order b :
  StronglySorted (fun s1 s2 => (bucket_of s1 <= bucket_of s2)%nat) (plan_stmts b).
Proof.
  unfold plan_stmts.
  assert (Hconst : forall {A} (f : list A -> Stmt) n (cs : list (list A)),
             (forall c, bucket_of (f c) = n) ->
             StronglySorted (fun s1 s2 => (bucket_of s1 <= bucket_of s2)%nat) (map f cs) /\
             Forall (fun st => bucket_of st = n) (map f cs)).
  { intros A f n cs Hf. induction cs as [|c cs [IH1 IH2]]; cbn; split; constructor;
      try assumption; [|apply Hf].
    eapply Forall_impl; [exact IH2|]. cbn. intros st ->. rewrite Hf. lia. }
  destruct (Hconst _ InsertUserRoles 0%nat
              (chunks (Z.to_nat batchSize) (userRoleAssignments b)) (fun _ => eq_refl))
    as [Su Fu].
  destruct (Hconst _ InsertTeamRoles 1%nat
              (chunks (Z.to_nat batchSize) (teamRoleAssignments b)) (fun _ => eq_refl))
    as [St Ft].
  destruct (Hconst _ InsertBuiltinRoles 2%nat
              (chunks (Z.to_nat batchSize) (builtInRoleAssignments b)) (fun _ => eq_refl))
    as [Sb Fb].
  rewrite Forall_forall in Fu, Ft, Fb.
  apply StronglySorted_app_2; [|exact Su|].
  - intros s1 s2 H1 H2. rewrite (Fu _ H1).
    apply elem_of_app in H2 as [H2|H2]; [rewrite (Ft _ H2)|rewrite (Fb _ H2)]; lia.
  - apply StronglySorted_app_2; [|exact St|exact Sb].
    intros s1 s2 H1 H2. rewrite (Ft _ H1), (Fb _ H2). lia.
Qed.

(** What a successful run of bulk inserts into one table leaves in the
    tables: [get] reads the table inserted into. *)
Lemma run_all_collects {A B} (ins : list A -> M World unit)
      (get : World -> list A) (other : World -> B) :
  (forall c w w', ins c w = (w', Ok tt) -> get w' = get w ++ c /\ other w' = other w) ->
  forall cs w w',
    run_all (map ins cs) w = (w', Ok tt) ->
    get w' = get w ++ concat cs /\ other w' = other w.
Proof.
  intros Hins. induction cs as [|c cs IH]; intros w w'; cbn [map run_all concat].
  - intros [= <-]. rewrite app_nil_r. split; reflexivity.
  - unfold mbind, M_bind. destruct (ins c w) as [w1 [[]|e| |]] eqn:E; try discriminate.
    intros Hrest. destruct (Hins _ _ _ E) as [H1 H2].
    destruct (IH _ _ Hrest) as [H3 H4].
    rewrite H3, H1, H4, H2, app_assoc. split; reflexivity.
Qed.

Lemma exec_ok {A} st (run : World -> World * A) w w' a :
  exec st run w = (w', Ok a) -> (w', a) = run (log_stmt st w).
Proof.
  unfold exec. destruct (fault w (length (statements w))); [discriminate|].
  destruct (run (log_stmt st w)). intros [= <- <-]. reflexivity.
Qed.

(** A successful run of the plan appends each bucket to its table. *)
Lemma run_plan_tables b w w' :
  run_all (plan b) w = (w', Ok tt) ->
  user_role_tbl w' = user_role_tbl w ++ userRoleAssignments b /\
  team_role_tbl w' = team_role_tbl w ++ teamRoleAssignments b /\
  builtin_role_tbl w' = builtin_role_tbl w ++ builtInRoleAssignments b /\
  role_tbl w' = role_tbl w.
Proof.
  unfold plan. rewrite run_all_app. unfold mbind at 1, M_bind at 1.
  destruct (run_all _ w) as [w1 [[]|e| |]] eqn:E1; try discriminate.
  rewrite run_all_app. unfold mbind at 1, M_bind at 1.
  destruct (run_all _ w1) as [w2 [[]|e| |]] eqn:E2; try discriminate.
  intros E3.
  assert (Hbs : (1 <= Z.to_nat batchSize)%nat) by (unfold batchSize; lia).
  apply (run_all_collects _ user_role_tbl
           (fun w => (team_role_tbl w, builtin_role_tbl w, role_tbl w))) in E1.
  2:{ intros c v v' H. apply exec_ok in H. injection H as ->. split; reflexivity. }
  apply (run_all_collects _ team_role_tbl
           (fun w => (user_role_tbl w, builtin_role_tbl w, role_tbl w))) in E2.
  2:{ intros c v v' H. apply exec_ok in H. injection H as ->. split; reflexivity. }
  apply (run_all_collects _ builtin_role_tbl
           (fun w => (user_role_tbl w, team_role_tbl w, role_tbl w))) in E3.
  2:{ intros c v v' H. apply exec_ok in H. injection H as ->. split; reflexivity. }
  destruct E1 as [U1 [= T1 B1 R1]], E2 as [T2 [= U2 B2 R2]], E3 as [B3 [= U3 T3 R3]].
  rewrite (proj1 (chunks_cut _ _ Hbs)) in U1.
  rewrite (proj1 (chunks_cut _ _ Hbs)) in T2.
  rewrite (proj1 (chunks_cut _ _ Hbs)) in B3.
  repeat split; congruence.
Qed.

(** C7: when the buckets were populated (and each is shorter than
    2^63 - 500 elements, as every slice is), bulkAssignRoles issues the planned
    bulk inserts and nothing else: the user-binding chunks, then the
    team-binding chunks, then the built-in binding chunks, each chunk
    non-empty and of at most batchSize rows, one statement after the other.
    It logs exactly a prefix of this plan: the whole plan when it succeeds
    (each table then holds its bucket), and otherwise the statements up to
    and including the first one that failed, whose error it returns, so that
    no insert of a later bucket follows a failed insert.  With no assignments
    it issues no statement, does not even read the clock, and succeeds. *)
Theorem bulkAssignRoles_writes_in_order
        (rolesMap : RolesMap) (assignments : list (Z * list string))
        (w : World) (b : Buckets) :
  assign_orgs rolesMap (clock w) assignments no_buckets = Ok b ->
  buckets_fit b ->
  (* the plan: the buckets in order, each cut into batches *)
  plan_stmts b =
    map InsertUserRoles (chunks (Z.to_nat batchSize) (userRoleAssignments b)) ++
    map InsertTeamRoles (chunks (Z.to_nat batchSize) (teamRoleAssignments b)) ++
    map InsertBuiltinRoles (chunks (Z.to_nat batchSize) (builtInRoleAssignments b)) /\
  cut_into (Z.to_nat batchSize) (userRoleAssignments b)
           (chunks (Z.to_nat batchSize) (userRoleAssignments b)) /\
  cut_into (Z.to_nat batchSize) (teamRoleAssignments b)
           (chunks (Z.to_nat batchSize) (teamRoleAssignments b)) /\
  cut_into (Z.to_nat batchSize) (builtInRoleAssignments b)
           (chunks (Z.to_nat batchSize) (builtInRoleAssignments b)) /\
  StronglySorted (fun s1 s2 => (bucket_of s1 <= bucket_of s2)%nat) (plan_stmts b) /\
  (* no assignments: nothing happens *)
  (assignments = [] -> bulkAssignRoles rolesMap assignments w = (w, Ok tt)) /\
  (* otherwise the plan is run in order until a statement fails *)
  (assignments <> [] ->
   bulkAssignRoles rolesMap assignments w = run_all (plan b) (tick w)) /\
  exists w' r k,
    bulkAssignRoles rolesMap assignments w = (w', r) /\
    (k <= length (plan_stmts b))%nat /\
    statements w' = statements w ++ take k (plan_stmts b) /\
    (forall j, (Datatypes.S j < k)%nat -> fault_at w j = None) /\
    match r with
    | Ok _ =>
        k = length (plan_stmts b) /\
        (forall j, (j < k)%nat -> fault_at w j = None) /\
        user_role_tbl w' = user_role_tbl w ++ userRoleAssignments b /\
        team_role_tbl w' = team_role_tbl w ++ teamRoleAssignments b /\
        builtin_role_tbl w' = builtin_role_tbl w ++ builtInRoleAssignments b
    | Err e => (1 <= k)%nat /\ fault_at w (k - 1) = Some e
    | Panic | OutOfFuel => False
    end.
Proof.
  intros Hb Hfit. rewrite assign_orgs_visits in Hb.
  assert (Hbs : (1 <= Z.to_nat batchSize)%nat) by (unfold batchSize; lia).
  split; [reflexivity|]. do 3 (split; [apply chunks_cut, Hbs|]).
  split; [apply plan_in_bucket_order|].
  split; [intros ->; reflexivity|].
  split; [intros Hne; apply bulkAssignRoles_run_plan; assumption|].
  destruct assignments as [|a assignments].
  - cbn in Hb. injection Hb as <-. exists w, (Ok tt), 0%nat.
    split; [reflexivity|]. cbn. rewrite !app_nil_r.
    repeat split; try lia; intros; lia.
  - rewrite (bulkAssignRoles_run_plan _ _ _ b) by (assumption || discriminate).
    destruct (run_all_issues _ _ (plan_issues b) (tick w))
      as (w' & r & k & Hrun & Hk & Hst & Hbefore & Hr).
    exists w', r, k. split; [exact Hrun|]. split; [exact Hk|].
    split; [exact Hst|]. split; [exact Hbefore|].
    destruct r as [[]|e| |]; try exact Hr.
    destruct Hr as [Hk' Hall]. split; [exact Hk'|]. split; [exact Hall|].
    destruct (run_plan_tables _ _ _ Hrun) as (U & T & B & _).
    repeat split; assumption.
Qed.

Lemma bulkAssignRoles_writes_in_order_witness :
  exists w',
    bulkAssignRoles index1
      [(1, ["managed:users:42"; "basic:viewer"; "managed:teams:7";
            "managed:builtins:editor:extra"]%string)] world0 = (w', Ok tt) /\
    statements w' =
      [InsertUserRoles [UserRole.mk 1 11 42 1000];
       InsertTeamRoles [TeamRole.mk 1 12 7 1000];
       InsertBuiltinRoles [BuiltinRole.mk 1 13 "Editor" 1000 1000]] /\
    user_role_tbl w' = [UserRole.mk 1 11 42 1000].
Proof.
  destruct (bulkAssignRoles_writes_in_order index1
              [(1, ["managed:users:42"; "basic:viewer"; "managed:teams:7";
                    "managed:builtins:editor:extra"]%string)] world0
              (mkBuckets [UserRole.mk 1 11 42 1000] [TeamRole.mk 1 12 7 1000]
                         [BuiltinRole.mk 1 13 "Editor" 1000 1000]))
    as (_ & _ & _ & _ & _ & _ & _ & w' & r & k & Hrun & Hk & Hst & _ & Hr).
  - vm_compute. reflexivity.
  - repeat split; vm_compute; discriminate.
  - exists w'. destruct r as [[]|e| |]; try contradiction.
    + destruct Hr as (Hlen & _ & Hu & _). split; [exact Hrun|].
      split; [rewrite Hst, Hlen; reflexivity|exact Hu].
    + destruct Hr as [_ Hr]. vm_compute in Hr. discriminate.
Defined.

(** *** Decoding one name *)

Lemma assign_name_in_bounds rolesMap ts orgID name b :
  (managed_prefix name = true -> (3 <= length (strings.Split name ":"))%nat) ->
  assign_name rolesMap ts orgID name b <> Panic /\
  assign_name rolesMap ts orgID name b <> OutOfFuel.
Proof.
  unfold assign_name, managed_prefix. intros Hseg.
  destruct (rolesMap !! orgID ≫= _) as [role|]; [|split; discriminate].
  destruct (strings.HasPrefix name "managed:users") eqn:Hu;
    [|destruct (strings.HasPrefix name "managed:teams") eqn:Ht;
      [|destruct (strings.HasPrefix name "managed:builtins") eqn:Hb;
        [|split; discriminate]]];
    (destruct (lookup_lt_is_Some_2 (strings.Split name ":") 2%nat) as [seg ->];
     [apply Hseg; reflexivity|]);
    try destruct (strconv.ParseInt seg); split; discriminate.
Qed.

Lemma assign_name_grows rolesMap ts orgID name b b' :
  assign_name rolesMap ts orgID name b = Ok b' ->
  (length (userRoleAssignments b') <= Datatypes.S (length (userRoleAssignments b)))%nat /\
  (length (teamRoleAssignments b') <= Datatypes.S (length (teamRoleAssignments b)))%nat /\
  (length (builtInRoleAssignments b') <= Datatypes.S (length (builtInRoleAssignments b)))%nat.
Proof.
  unfold assign_name.
  destruct (rolesMap !! orgID ≫= _) as [role|]; [|discriminate].
  destruct (strings.HasPrefix name "managed:users");
    [|destruct (strings.HasPrefix name "managed:teams");
      [|destruct (strings.HasPrefix name "managed:builtins")]];
    try (destruct (strings.Split name ":" !! 2%nat) as [seg|]; [|discriminate]);
    try (destruct (strconv.ParseInt seg); [|discriminate]);
    intros [= <-]; cbn; rewrite ?length_app; cbn; lia.
Qed.

Lemma assign_visits_app rolesMap ts vs1 vs2 b :
  assign_visits rolesMap ts (vs1 ++ vs2) b =
  match assign_visits rolesMap ts vs1 b with
  | Ok b' => assign_visits rolesMap ts vs2 b'
  | r => r
  end.
Proof.
  revert b. induction vs1 as [|[o n] vs1 IH]; intros b; cbn [assign_visits app];
    [reflexivity|].
  destruct (assign_name rolesMap ts o n b); try reflexivity. apply IH.
Qed.

Lemma assign_visits_in_bounds rolesMap ts vs : forall b,
  (forall o n, In (o, n) vs -> managed_prefix n = true ->
               (3 <= length (strings.Split n ":"))%nat) ->
  assign_visits rolesMap ts vs b <> Panic /\
  assign_visits rolesMap ts vs b <> OutOfFuel.
Proof.
  induction vs as [|[o n] vs IH]; intros b Hseg; cbn [assign_visits];
    [split; discriminate|].
  destruct (assign_name_in_bounds rolesMap ts o n b) as [Hp Hf].
  { apply (Hseg o). left. reflexivity. }
  destruct (assign_name rolesMap ts o n b) as [b'|e| |]; try congruence;
    [|split; discriminate].
  apply IH. intros o' n' Hin. apply (Hseg o'). right. exact Hin.
Qed.

Lemma assign_visits_grows rolesMap ts vs : forall b b',
  assign_visits rolesMap ts vs b = Ok b' ->
  (length (userRoleAssignments b') <= length (userRoleAssignments b) + length vs)%nat /\
  (length (teamRoleAssignments b') <= length (teamRoleAssignments b) + length vs)%nat /\
  (length (builtInRoleAssignments b') <= length (builtInRoleAssignments b) + length vs)%nat.
Proof.
  induction vs as [|[o n] vs IH]; intros b b'; cbn [assign_visits length].
  - intros [= <-]. lia.
  - destruct (assign_name rolesMap ts o n b) as [b1|e| |] eqn:E; try discriminate.
    intros Hrest. apply assign_name_grows in E. apply IH in Hrest. lia.
Qed.

Lemma run_plan_returns b w :
  (run_all (plan b) w).2 <> Panic /\ (run_all (plan b) w).2 <> OutOfFuel.
Proof.
  destruct (run_all_issues _ _ (plan_issues b) w) as (w' & r & k & -> & _ & _ & _ & Hr).
  cbn. destruct r; try contradiction; split; discriminate.
Qed.

(** C10: if every visited name that begins with "managed:users",
    "managed:teams" or "managed:builtins" has at least three colon-separated
    segments (and the visits fit the int range), no execution of
    bulkAssignRoles panics: the index expression [strings.Split(name, ":")[2]]
    is in bounds whenever it is evaluated.  Without the precondition it can
    go out of bounds: for the name "managed:users", present in the index, the
    call panics. *)
Theorem bulkAssignRoles_split_in_bounds
        (rolesMap : RolesMap) (assignments : list (Z * list string)) :
  (forall o n, In (o, n) (visits assignments) -> managed_prefix n = true ->
               (3 <= length (strings.Split n ":"))%nat) ->
  len (visits assignments) + batchSize <= max_int ->
  (forall w, (bulkAssignRoles rolesMap assignments w).2 <> Panic /\
             (bulkAssignRoles rolesMap assignments w).2 <> OutOfFuel) /\
  index1 !! 1 ≫= (.!! "managed:users"%string) = Some role_short /\
  strings.Split "managed:users" ":" !! 2%nat = None /\
  (bulkAssignRoles index1 [(1, ["managed:users"%string])] world0).2 = Panic.
Proof.
  intros Hseg Hfit. split; [|repeat split; vm_compute; reflexivity].
  intros w.
  destruct assignments as [|a assignments]; [split; discriminate|].
  remember (visits (a :: assignments)) as vs eqn:Hvs.
  destruct (assign_visits_in_bounds rolesMap (clock w) vs no_buckets Hseg) as [Hp Hf].
  destruct (assign_visits rolesMap (clock w) vs no_buckets) as [b|e| |] eqn:E;
    try congruence.
  - rewrite (bulkAssignRoles_run_plan _ _ w b); [apply run_plan_returns|discriminate| |].
    + rewrite <- Hvs. exact E.
    + apply assign_visits_grows in E. cbn [no_buckets userRoleAssignments
        teamRoleAssignments builtInRoleAssignments length Nat.add] in E.
      unfold buckets_fit, len in *. lia.
  - rewrite bulkAssignRoles_plan, <- Hvs, E. split; discriminate.
Qed.

Lemma bulkAssignRoles_split_in_bounds_witness :
  (forall w,
      (bulkAssignRoles index1 [(1, ["managed:users:42"; "basic:viewer"]%string)] w).2
      <> Panic) /\
  (bulkAssignRoles index1 [(1, ["managed:users"%string])] world0).2 = Panic.
Proof.
  destruct (bulkAssignRoles_split_in_bounds index1
              [(1, ["managed:users:42"; "basic:viewer"]%string)])
    as (Hsafe & _ & _ & Hpanic).
  - intros o n [[= <- <-]|[[= <- <-]|[]]] Hpre;
      [vm_compute; lia|vm_compute in Hpre; discriminate].
  - vm_compute. discriminate.
  - split; [intros w; apply Hsafe|exact Hpanic].
Defined.

Lemma assign_name_returns rolesMap ts orgID name b :
  assign_name rolesMap ts orgID name b <> OutOfFuel.
Proof.
  unfold assign_name.
  destruct (rolesMap !! orgID ≫= _) as [role|]; [|discriminate].
  destruct (strings.HasPrefix name "managed:users");
    [|destruct (strings.HasPrefix name "managed:teams");
      [|destruct (strings.HasPrefix name "managed:builtins")]];
    try (destruct (strings.Split name ":" !! 2%nat) as [seg|]; [|discriminate]);
    try destruct (strconv.ParseInt seg); discriminate.
Qed.

Lemma assign_visits_returns rolesMap ts vs : forall b,
  assign_visits rolesMap ts vs b <> OutOfFuel.
Proof.
  induction vs as [|[o n] vs IH]; intros b; cbn [assign_visits]; [discriminate|].
  pose proof (assign_name_returns rolesMap ts o n b).
  destruct (assign_name rolesMap ts o n b);
    first [apply IH | discriminate | congruence].
Qed.

Lemma assign_visits_missing rolesMap ts vs orgID name :
  In (orgID, name) vs -> rolesMap !! orgID ≫= (.!! name) = None ->
  forall b b', assign_visits rolesMap ts vs b <> Ok b'.
Proof.
  intros Hin Hmiss. induction vs as [|[o n] vs IH]; intros b b'; [contradiction|].
  cbn [assign_visits]. destruct Hin as [[= -> ->]|Hin].
  - unfold assign_name. rewrite Hmiss. discriminate.
  - destruct (assign_name rolesMap ts o n b); try discriminate. apply IH, Hin.
Qed.

(** A visit that does not return normally ends the call before any
    statement is issued. *)
Lemma bulkAssignRoles_stops rolesMap assignments w pre orgID name post b r :
  visits assignments = pre ++ (orgID, name) :: post ->
  assign_visits rolesMap (clock w) pre no_buckets = Ok b ->
  assign_name rolesMap (clock w) orgID name b = r ->
  (forall b', r <> Ok b') ->
  bulkAssignRoles rolesMap assignments w = (tick w, carry r tt).
Proof.
  intros Hvs Hpre Hname Hr. rewrite bulkAssignRoles_plan.
  destruct assignments as [|a assignments];
    [destruct pre; discriminate|].
  rewrite Hvs, assign_visits_app, Hpre. cbn [assign_visits]. rewrite Hname.
  destruct r as [b'|e| |]; [destruct (Hr b' eq_refl)|reflexivity..].
Qed.

(** C4 (as amended): if a visited name has no entry in the Role Index,
    bulkAssignRoles does not succeed and issues no statement at all: it only
    reads the clock, and every table is as before.  The error is the
    unknown-role error carrying that name whenever every name visited before
    it was decoded without error; otherwise the call has already ended at an
    earlier name. *)
Theorem bulkAssignRoles_unknown_role
        (rolesMap : RolesMap) (assignments : list (Z * list string))
        (w : World) (orgID : Z) (name : string) :
  In (orgID, name) (visits assignments) ->
  rolesMap !! orgID ≫= (.!! name) = None ->
  exists r,
    bulkAssignRoles rolesMap assignments w = (tick w, r) /\
    r <> Ok tt /\ r <> OutOfFuel /\
    statements (tick w) = statements w /\ same_tables w (tick w) /\
    (forall pre post b,
        visits assignments = pre ++ (orgID, name) :: post ->
        assign_visits rolesMap (clock w) pre no_buckets = Ok b ->
        r = Err (ErrUnknownRole name)).
Proof.
  intros Hin Hmiss.
  pose proof (assign_visits_missing rolesMap (clock w) _ _ _ Hin Hmiss no_buckets) as Hnok.
  pose proof (assign_visits_returns rolesMap (clock w) (visits assignments) no_buckets)
    as Hret.
  assert (Hrun : bulkAssignRoles rolesMap assignments w =
                 (tick w, carry (assign_visits rolesMap (clock w)
                                   (visits assignments) no_buckets) tt)).
  { rewrite bulkAssignRoles_plan. destruct assignments; [contradiction|].
    destruct (assign_visits _ _ _ _) as [b| | |]; [destruct (Hnok b eq_refl)|reflexivity..]. }
  eexists. split; [exact Hrun|].
  assert (Hfirst : forall r0 pre post b,
             assign_visits rolesMap (clock w) (visits assignments) no_buckets = r0 ->
             visits assignments = pre ++ (orgID, name) :: post ->
             assign_visits rolesMap (clock w) pre no_buckets = Ok b ->
             r0 = Err (ErrUnknownRole name)).
  { intros r0 pre post b E Hvs Hpre. rewrite Hvs, assign_visits_app, Hpre in E.
    cbn [assign_visits] in E. unfold assign_name in E. rewrite Hmiss in E.
    congruence. }
  destruct (assign_visits rolesMap (clock w) (visits assignments) no_buckets)
    as [b|e| |] eqn:E.
  - destruct (Hnok b eq_refl).
  - split; [discriminate|]. split; [discriminate|]. split; [reflexivity|].
    split; [unfold same_tables; repeat split|].
    intros pre post b Hvs Hpre. cbn. f_equal.
    specialize (Hfirst _ pre post b eq_refl Hvs Hpre). congruence.
  - split; [discriminate|]. split; [discriminate|]. split; [reflexivity|].
    split; [unfold same_tables; repeat split|].
    intros pre post b Hvs Hpre.
    specialize (Hfirst _ pre post b eq_refl Hvs Hpre). discriminate.
  - congruence.
Qed.

Lemma bulkAssignRoles_unknown_role_witness :
  exists r,
    bulkAssignRoles index1 [(1, ["managed:users:42"; "ghost"]%string)] world0
    = (tick world0, r) /\ r = Err (ErrUnknownRole "ghost").
Proof.
  destruct (bulkAssignRoles_unknown_role index1
              [(1, ["managed:users:42"; "ghost"]%string)] world0 1 "ghost")
    as (r & Hrun & _ & _ & _ & _ & Hfirst).
  - right. left. reflexivity.
  - vm_compute. reflexivity.
  - exists r. split; [exact Hrun|].
    apply (Hfirst [(1, "managed:users:42"%string)] []
                  (mkBuckets [UserRole.mk 1 11 42 1000] [] [])); vm_compute; reflexivity.
Defined.

(** C4 (as stated) fails: the assignment set holds the name "ghost", which
    has no entry in the index, yet the call fails with the parse error of
    the name visited before it, not with an unknown-role error. *)
Lemma bulkAssignRoles_unknown_role_after_parse_error :
  In (1, "ghost"%string) (visits [(1, ["managed:users:x"; "ghost"]%string)]) /\
  index1 !! 1 ≫= (.!! "ghost"%string) = None /\
  bulkAssignRoles index1 [(1, ["managed:users:x"; "ghost"]%string)] world0
  = (tick world0, Err (NumError "ParseInt" "x" ErrSyntax)).
Proof. repeat split; vm_compute; auto. Qed.

(** *** Names and their segments *)

Lemma append_cons c s t : String c s +:+ t = String c (s +:+ t).
Proof. reflexivity. Qed.

Lemma Split_segment seg rest :
  colon_free seg = true ->
  strings.Split (seg +:+ String ":"%char rest) ":" = seg :: strings.Split rest ":".
Proof.
  induction seg as [|c seg IH]; intros Hfree; [reflexivity|].
  cbn [colon_free] in Hfree.
  apply andb_true_iff in Hfree as [Hc Hfree]. apply negb_true_iff in Hc.
  rewrite append_cons. cbn [strings.Split]. rewrite Hc, IH by exact Hfree.
  reflexivity.
Qed.

Lemma Split_last seg :
  colon_free seg = true -> strings.Split seg ":" = [seg].
Proof.
  induction seg as [|c seg IH]; intros Hfree; [reflexivity|].
  cbn [colon_free] in Hfree.
  apply andb_true_iff in Hfree as [Hc Hfree]. apply negb_true_iff in Hc.
  cbn [strings.Split]. rewrite Hc, IH by exact Hfree. reflexivity.
Qed.

Lemma append_empty_r s : s +:+ EmptyString = s.
Proof.
  induction s as [|c s IH]; [reflexivity|]. rewrite append_cons, IH. reflexivity.
Qed.

Lemma Split_head seg rest :
  colon_free seg = true -> segments_follow rest ->
  exists segs, strings.Split (seg +:+ rest) ":" = seg :: segs.
Proof.
  intros Hfree [->|[rest' ->]].
  - rewrite append_empty_r, Split_last by exact Hfree. eauto.
  - rewrite Split_segment by exact Hfree. eauto.
Qed.

(** The third segment of a name of the form [managed:<kind>:<seg><rest>]. *)
Lemma Split_managed kind seg rest :
  colon_free kind = true -> colon_free seg = true -> segments_follow rest ->
  strings.Split ("managed:" +:+ kind +:+ String ":"%char (seg +:+ rest)) ":" !! 2%nat
  = Some seg.
Proof.
  intros Hkind Hseg Hrest.
  change ("managed:" +:+ kind +:+ String ":"%char (seg +:+ rest))
    with ("managed" +:+ String ":"%char (kind +:+ String ":"%char (seg +:+ rest))).
  rewrite Split_segment by reflexivity. rewrite Split_segment by exact Hkind.
  destruct (Split_head seg rest Hseg Hrest) as [segs ->]. reflexivity.
Qed.

(** C3 (as amended): for a name whose role is in the Role Index, the loop
    body classifies by the prefixes "managed:users", "managed:teams" and
    "managed:builtins" (without a trailing colon, tested in this order) and
    decodes the third colon-separated segment [seg], ignoring later segments:
    a user name appends exactly one UserRole whose UserID is [seg] parsed as
    a base-10 int64, a team name one TeamRole with that TeamID, a built-in
    name one BuiltinRole whose Role is the title-cased [seg]; the other
    buckets are unchanged.  In particular this holds for the names
    [managed:users:<seg>], [managed:teams:<seg>] and [managed:builtins:<seg>]
    followed by nothing or by further colon-segments.  When [seg] of a user
    or team name is no int64, the body yields the parse error, and
    bulkAssignRoles returns that error without issuing a statement. *)
Theorem assign_name_decodes
        (rolesMap : RolesMap) (ts orgID : Z) (name : string) (role : Role.t)
        (b : Buckets) :
  rolesMap !! orgID ≫= (.!! name) = Some role ->
  let user seg :=
    match strconv.ParseInt seg with
    | inl userID =>
        Ok (add_user b (UserRole.mk (Role.OrgID role) (Role.ID role) userID ts))
    | inr err => Err err
    end in
  let team seg :=
    match strconv.ParseInt seg with
    | inl teamID =>
        Ok (add_team b (TeamRole.mk (Role.OrgID role) (Role.ID role) teamID ts))
    | inr err => Err err
    end in
  let builtin seg :=
    Ok (add_builtin b (BuiltinRole.mk (Role.OrgID role) (Role.ID role)
                                      (strings.Title seg) ts ts)) in
  (* classification as the code tests it *)
  (forall seg,
      strings.Split name ":" !! 2%nat = Some seg ->
      (strings.HasPrefix name "managed:users" = true ->
       assign_name rolesMap ts orgID name b = user seg) /\
      (strings.HasPrefix name "managed:users" = false ->
       strings.HasPrefix name "managed:teams" = true ->
       assign_name rolesMap ts orgID name b = team seg) /\
      (strings.HasPrefix name "managed:users" = false ->
       strings.HasPrefix name "managed:teams" = false ->
       strings.HasPrefix name "managed:builtins" = true ->
       assign_name rolesMap ts orgID name b = builtin seg)) /\
  (* the names of the documented form *)
  (forall seg rest,
      colon_free seg = true -> segments_follow rest ->
      (name = "managed:users:" +:+ seg +:+ rest ->
       assign_name rolesMap ts orgID name b = user seg) /\
      (name = "managed:teams:" +:+ seg +:+ rest ->
       assign_name rolesMap ts orgID name b = team seg) /\
      (name = "managed:builtins:" +:+ seg +:+ rest ->
       assign_name rolesMap ts orgID name b = builtin seg)) /\
  (* a parse error reaches the caller *)
  (forall err assignments w pre post b0,
      visits assignments = pre ++ (orgID, name) :: post ->
      assign_visits rolesMap (clock w) pre no_buckets = Ok b0 ->
      assign_name rolesMap (clock w) orgID name b0 = Err err ->
      bulkAssignRoles rolesMap assignments w = (tick w, Err err)).
Proof.
  intros Hrole user team builtin.
  assert (Hcode : forall seg,
      strings.Split name ":" !! 2%nat = Some seg ->
      (strings.HasPrefix name "managed:users" = true ->
       assign_name rolesMap ts orgID name b = user seg) /\
      (strings.HasPrefix name "managed:users" = false ->
       strings.HasPrefix name "managed:teams" = true ->
       assign_name rolesMap ts orgID name b = team seg) /\
      (strings.HasPrefix name "managed:users" = false ->
       strings.HasPrefix name "managed:teams" = false ->
       strings.HasPrefix name "managed:builtins" = true ->
       assign_name rolesMap ts orgID name b = builtin seg)).
  { intros seg Hseg. unfold assign_name, user, team, builtin. rewrite Hrole, Hseg.
    split; [|split].
    - intros ->. destruct (strconv.ParseInt seg); reflexivity.
    - intros -> ->. destruct (strconv.ParseInt seg); reflexivity.
    - intros -> -> ->. reflexivity. }
  split; [exact Hcode|]. split.
  - intros seg rest Hseg Hrest. split; [|split]; intros Hname.
    + apply Hcode; rewrite Hname;
        [exact (Split_managed "users" seg rest eq_refl Hseg Hrest)|reflexivity].
    + apply Hcode; rewrite Hname;
        [exact (Split_managed "teams" seg rest eq_refl Hseg Hrest)|reflexivity..].
    + apply Hcode; rewrite Hname;
        [exact (Split_managed "builtins" seg rest eq_refl Hseg Hrest)|reflexivity..].
  - intros err assignments w pre post b0 Hvs Hpre Herr.
    apply (bulkAssignRoles_stops _ _ _ _ _ _ _ _ _ Hvs Hpre Herr). discriminate.
Qed.

Lemma assign_name_decodes_witness :
  assign_name index1 1000 1 "managed:users:42" no_buckets
  = Ok (add_user no_buckets (UserRole.mk 1 11 42 1000)) /\
  assign_name index1 1000 1 "managed:builtins:editor:extra" no_buckets
  = Ok (add_builtin no_buckets (BuiltinRole.mk 1 13 "Editor" 1000 1000)).
Proof.
  split.
  - destruct (assign_name_decodes index1 1000 1 "managed:users:42" role_users42
                no_buckets) as (_ & Hform & _); [vm_compute; reflexivity|].
    destruct (Hform "42"%string ""%string eq_refl) as (Huser & _);
      [left; reflexivity|].
    exact (Huser eq_refl).
  - destruct (assign_name_decodes index1 1000 1 "managed:builtins:editor:extra"
                role_editor no_buckets) as (_ & Hform & _); [vm_compute; reflexivity|].
    destruct (Hform "editor"%string ":extra"%string eq_refl) as (_ & _ & Hbuiltin);
      [right; eexists; reflexivity|].
    exact (Hbuiltin eq_refl).
Defined.

(** C3 (as stated) fails on the prefixes: the name "managed:usersX:7" has
    none of the prefixes "managed:users:", "managed:teams:" and
    "managed:builtins:", yet it is classified as a user assignment and a
    UserRole with UserID 7 is written for it. *)
Lemma assign_name_prefix_without_colon :
  strings.HasPrefix "managed:usersX:7" "managed:users:" = false /\
  strings.HasPrefix "managed:usersX:7" "managed:teams:" = false /\
  strings.HasPrefix "managed:usersX:7" "managed:builtins:" = false /\
  index1 !! 1 ≫= (.!! "managed:usersX:7"%string) = Some role_usersX /\
  assign_name index1 1000 1 "managed:usersX:7" no_buckets
  = Ok (add_user no_buckets (UserRole.mk 1 15 7 1000)) /\
  exists w',
    bulkAssignRoles index1 [(1, ["managed:usersX:7"%string])] world0 = (w', Ok tt) /\
    user_role_tbl w' = [UserRole.mk 1 15 7 1000].
Proof.
  repeat split; try (vm_compute; reflexivity).
  eexists. split; vm_compute; reflexivity.
Qed.

Lemma visits_app l1 l2 : visits (l1 ++ l2) = visits l1 ++ visits l2.
Proof. unfold visits. apply flat_map_app. Qed.

(** C8 (as amended): a name in the Role Index is skipped exactly when it
    begins with none of the prefixes the code tests ("managed:users",
    "managed:teams", "managed:builtins", without a trailing colon).  Such a
    name leaves the buckets as they were, without error, and the whole call
    behaves exactly as if the name were not in its organisation's set: same
    result, same statements, same world.  A name in the index that begins
    with one of these prefixes is never skipped: whenever the loop body
    returns normally for it, it has appended exactly one binding. *)
Theorem assign_name_skips_unmanaged
        (rolesMap : RolesMap) (orgID : Z) (name : string) (role : Role.t) :
  rolesMap !! orgID ≫= (.!! name) = Some role ->
  (managed_prefix name = false ->
   (forall ts b, assign_name rolesMap ts orgID name b = Ok b) /\
   (forall w, bulkAssignRoles rolesMap [(orgID, [name])] w = (tick w, Ok tt) /\
              statements (tick w) = statements w) /\
   (forall w pre post names1 names2,
       bulkAssignRoles rolesMap (pre ++ (orgID, names1 ++ name :: names2) :: post) w
       = bulkAssignRoles rolesMap (pre ++ (orgID, names1 ++ names2) :: post) w)) /\
  (managed_prefix name = true ->
   forall ts b b',
     assign_name rolesMap ts orgID name b = Ok b' ->
     bindings b' = Datatypes.S (bindings b)).
Proof.
  intros Hrole. split.
  - intros Hpre.
    assert (Hskip : forall ts b, assign_name rolesMap ts orgID name b = Ok b).
    { intros ts b. unfold assign_name, managed_prefix in *. rewrite Hrole.
      apply orb_false_iff in Hpre as [Hpre Hb].
      apply orb_false_iff in Hpre as [Hu Ht]. rewrite Hu, Ht, Hb. reflexivity. }
    split; [exact Hskip|]. split.
    + intros w. rewrite bulkAssignRoles_plan.
      cbn [visits flat_map map app assign_visits].
      rewrite Hskip. split; reflexivity.
    + intros w pre post names1 names2. rewrite !bulkAssignRoles_plan.
      assert (Hvis : forall b,
                 assign_visits rolesMap (clock w)
                   (visits (pre ++ (orgID, names1 ++ name :: names2) :: post)) b =
                 assign_visits rolesMap (clock w)
                   (visits (pre ++ (orgID, names1 ++ names2) :: post)) b).
      { intros b. rewrite !visits_app. cbn [visits flat_map].
        rewrite !map_app. cbn [map]. rewrite <- !app_assoc.
        rewrite !(assign_visits_app _ _ (visits pre)).
        destruct (assign_visits rolesMap (clock w) (visits pre) b) as [b1| | |];
          try reflexivity.
        rewrite !(assign_visits_app _ _ (map (pair orgID) names1)).
        destruct (assign_visits rolesMap (clock w) (map (pair orgID) names1) b1)
          as [b2| | |]; try reflexivity.
        cbn [app assign_visits]. rewrite Hskip. reflexivity. }
      rewrite Hvis. destruct pre; reflexivity.
  - intros Hpre ts b b'. unfold assign_name, managed_prefix, bindings in *.
    rewrite Hrole.
    destruct (strings.HasPrefix name "managed:users").
    { destruct (strings.Split name ":" !! 2%nat) as [seg|]; [|discriminate].
      destruct (strconv.ParseInt seg); [|discriminate].
      intros [= <-]. cbn. rewrite length_app. cbn. lia. }
    destruct (strings.HasPrefix name "managed:teams").
    { destruct (strings.Split name ":" !! 2%nat) as [seg|]; [|discriminate].
      destruct (strconv.ParseInt seg); [|discriminate].
      intros [= <-]. cbn. rewrite length_app. cbn. lia. }
    destruct (strings.HasPrefix name "managed:builtins"); [|discriminate].
    destruct (strings.Split name ":" !! 2%nat) as [seg|]; [|discriminate].
    intros [= <-]. cbn. rewrite length_app. cbn. lia.
Qed.

Lemma assign_name_skips_unmanaged_witness :
  assign_name index1 1000 1 "basic:viewer" no_buckets = Ok no_buckets /\
  bulkAssignRoles index1 [(1, ["managed:users:42"; "basic:viewer"]%string)] world0
  = bulkAssignRoles index1 [(1, ["managed:users:42"%string])] world0.
Proof.
  destruct (assign_name_skips_unmanaged index1 1 "basic:viewer" role_viewer)
    as [Hunmanaged _].
  - vm_compute. reflexivity.
  - destruct Hunmanaged as (Hskip & _ & Hsame).
    + vm_compute. reflexivity.
    + split; [apply Hskip|].
      exact (Hsame world0 [] [] ["managed:users:42"%string] []).
Defined.

(** C8 (as stated) fails: the recognized prefixes of the specification end
    in a colon, the prefixes the code tests do not.  The name
    "managed:usersX:7" matches none of [managed:users:], [managed:teams:] and
    [managed:builtins:] and is in the Role Index, yet it is not skipped: a
    user binding for the user 7 is appended and written to table user_role.
    The name "managed:users", which matches none of them either and is in
    the index, is not skipped silently: the call panics. *)
Lemma assign_name_binds_unrecognized_name :
  recognized_prefix "managed:usersX:7" = false /\
  index1 !! 1 ≫= (.!! "managed:usersX:7"%string) = Some role_usersX /\
  assign_name index1 1000 1 "managed:usersX:7" no_buckets
  = Ok (mkBuckets [UserRole.mk 1 15 7 1000] [] []) /\
  bindings (mkBuckets [UserRole.mk 1 15 7 1000] [] []) = 1%nat /\
  (bulkAssignRoles index1 [(1, ["managed:usersX:7"%string])] world0).2 = Ok tt /\
  user_role_tbl (bulkAssignRoles index1 [(1, ["managed:usersX:7"%string])] world0).1
  = [UserRole.mk 1 15 7 1000] /\
  recognized_prefix "managed:users" = false /\
  index1 !! 1 ≫= (.!! "managed:users"%string) = Some role_short /\
  (bulkAssignRoles index1 [(1, ["managed:users"%string])] world0).2 = Panic.
Proof.
  repeat split; vm_compute; reflexivity.
Qed.

(** ** Role lookup *)

Lemma with_ids_range rows : forall next,
  Forall (fun r => next <= Role.ID r < next + len rows) (with_ids next rows).
Proof.
  induction rows as [|r rows IH]; intros next; cbn [with_ids]; constructor.
  - unfold len. cbn. lia.
  - eapply Forall_impl; [apply IH|]. unfold len. cbn. intros x Hx. lia.
Qed.

(** Inserting roles keeps the ids assigned. *)
Lemma ids_assigned_add_roles rows w :
  ids_assigned w -> ids_assigned (add_roles (with_ids (next_id w) rows) w).
Proof.
  intros [Hpos Hall]. unfold ids_assigned. cbn.
  pose proof (with_ids_length rows (next_id w)) as Hlen.
  split; [unfold len; lia|]. apply Forall_app. split.
  - eapply Forall_impl; [exact Hall|]. unfold len. cbn. intros x Hx. lia.
  - eapply Forall_impl; [apply with_ids_range|]. unfold len. cbn. rewrite Hlen.
    intros x Hx. lia.
Qed.

(** C9: on a table whose ids are assigned ([ids_assigned]: auto-increment
    ids, hence not zero), findRole issues one lookup.  If it fails, its error
    is returned.  Otherwise, when table role holds a row with that
    organisation and name, such a row is returned, and its id is not zero;
    when it holds none, the zero Role is returned, whose id is zero: the two
    outcomes differ, and a caller tells them apart by the id. *)
Theorem findRole_found_or_zero (w : World) (orgID : Z) (name : string) :
  ids_assigned w ->
  exists r,
    findRole orgID name w = (log_stmt (SelectRoleByName orgID name) w, r) /\
    match fault_at w 0 with
    | Some e => r = Err e
    | None =>
        exists role,
          r = Ok role /\
          ((exists x, In x (role_tbl w) /\ Role.OrgID x = orgID /\ Role.Name x = name) ->
           In role (role_tbl w) /\ Role.OrgID role = orgID /\ Role.Name role = name /\
           Role.ID role <> 0 /\ role <> Role.zero) /\
          ((forall x, In x (role_tbl w) ->
                      ~ (Role.OrgID x = orgID /\ Role.Name x = name)) ->
           role = Role.zero /\ Role.ID role = 0)
    end.
Proof.
  intros [_ Hids]. unfold findRole, mbind, M_bind, sess.get_role_by_name, exec, fault_at.
  rewrite Nat.add_0_r.
  destruct (fault w (length (statements w))) as [e|].
  { eexists. split; reflexivity. }
  cbn [role_tbl log_stmt].
  destruct (find _ (role_tbl w)) as [role|] eqn:Hfind.
  - eexists. split; [reflexivity|]. exists role. split; [reflexivity|].
    apply find_some in Hfind as [Hin Hmatch].
    apply andb_true_iff in Hmatch as [Ho Hn].
    apply Z.eqb_eq in Ho. apply String.eqb_eq in Hn.
    rewrite Forall_forall in Hids.
    assert (Hid : Role.ID role <> 0).
    { specialize (Hids role). rewrite list_elem_of_In in Hids.
      specialize (Hids Hin). lia. }
    split.
    + intros _. repeat split; try assumption. intros ->. apply Hid. reflexivity.
    + intros Hnone. destruct (Hnone role Hin). split; assumption.
  - eexists. split; [reflexivity|]. exists Role.zero. split; [reflexivity|]. split.
    + intros (x & Hin & Ho & Hn).
      pose proof (find_none _ _ Hfind x Hin) as Hno. cbn in Hno.
      rewrite Ho, Hn, Z.eqb_refl, String.eqb_refl in Hno. discriminate.
    + intros _. split; reflexivity.
Qed.

Lemma findRole_found_or_zero_witness :
  (exists role, (findRole 1 "r1" world_r1).2 = Ok role /\
                Role.Name role = "r1"%string /\ Role.ID role <> 0) /\
  (findRole 1 "r2" world_r1).2 = Ok Role.zero.
Proof.
  assert (Hids : ids_assigned world_r1).
  { split; [reflexivity|]. repeat constructor. }
  split.
  - destruct (findRole_found_or_zero world_r1 1 "r1" Hids) as (r & Hrun & Hm).
    change (fault_at world_r1 0) with (@None error) in Hm.
    destruct Hm as (role & -> & Hfound & _). exists role.
    rewrite Hrun. split; [reflexivity|].
    destruct Hfound as (_ & _ & Hname & Hid & _).
    + exists (Role.mk 1 1 1 "a" "r1" 10 10). repeat split. left. reflexivity.
    + split; assumption.
  - destruct (findRole_found_or_zero world_r1 1 "r2" Hids) as (r & Hrun & Hm).
    change (fault_at world_r1 0) with (@None error) in Hm.
    destruct Hm as (role & -> & _ & Hnone).
    rewrite Hrun. cbn. f_equal. apply Hnone.
    intros x [<-|[]] [_ Hname]. discriminate.
Defined.

(** * Further properties *)

(** ** The Batcher *)

Lemma windows_from_length count bs fuel : forall i,
  1 <= bs -> i <= count -> (Z.to_nat (count - i) <= fuel)%nat ->
  Z.of_nat (length (windows_from fuel count bs i)) = (count - i + bs - 1) / bs.
Proof.
  induction fuel as [|fuel IH]; intros i Hbs Hi Hf; cbn [windows_from].
  - assert (i = count) as -> by lia. cbn [length].
    replace (count - count + bs - 1) with (bs - 1) by lia.
    rewrite Z.div_small; lia.
  - destruct (Z.ltb_spec i count) as [Hlt|Hge].
    + cbn [length]. rewrite Nat2Z.inj_succ, IH by lia.
      destruct (Z.le_gt_cases count (i + bs)) as [Hle|Hgt].
      * rewrite Z.min_r by lia.
        replace (count - count + bs - 1) with (bs - 1) by lia.
        rewrite Z.div_small by lia.
        change (Z.succ 0) with 1.
        apply (Z.div_unique_pos _ _ 1 (count - i - 1)); lia.
      * rewrite Z.min_l by lia.
        replace (count - i + bs - 1) with (count - (i + bs) + bs - 1 + 1 * bs) by lia.
        rewrite Z.div_add by lia. lia.
    + assert (i = count) as -> by lia. cbn [length].
      replace (count - count + bs - 1) with (bs - 1) by lia.
      rewrite Z.div_small; lia.
Qed.

Lemma run_windows_count_calls ws : forall n,
  run_windows count_calls ws n = ((n + length ws)%nat, Ok tt).
Proof.
  induction ws as [|[a b] ws IH]; intros n; cbn [run_windows length].
  - rewrite Nat.add_0_r. reflexivity.
  - unfold count_calls at 1. rewrite IH. f_equal. lia.
Qed.

(** X2: when every window succeeds, batch makes exactly
    ceil(count / batchSize) invocations of its per-window function (for
    count >= 0, batchSize >= 1 and no wrap-around). *)
Theorem batch_number_of_invocations (count batchSize : Z) (fuel : nat) :
  0 <= count -> 1 <= batchSize -> no_wrap count batchSize ->
  (Z.to_nat count <= fuel)%nat ->
  batch fuel count batchSize count_calls 0%nat
  = (Z.to_nat ((count + batchSize - 1) / batchSize), Ok tt).
Proof.
  intros Hc Hbs Hnw Hf. unfold batch.
  rewrite batch_from_run_no_wrap; try assumption; try lia.
  2:{ right. exists 0. lia. }
  rewrite run_windows_count_calls. f_equal. cbn [Nat.add].
  rewrite <- (Nat2Z.id (length _)), windows_from_length by lia.
  f_equal. f_equal. lia.
Qed.

Lemma batch_number_of_invocations_witness :
  batch 1001 1001 500 count_calls 0%nat = (3%nat, Ok tt).
Proof.
  apply (batch_number_of_invocations 1001 500 1001); try lia.
  apply no_wrap_sum. unfold max_int. lia.
Defined.

(** X3: with batchSize = 0 and count > 0 the loop of batch never ends: as
    long as the per-window function succeeds, it is invoked on the empty
    window [0, 0) again and again, whatever budget of iterations is given. *)
Theorem batch_zero_batchSize_never_returns (count : Z) (fuel : nat) (log : list (Z * Z)) :
  0 < count ->
  batch fuel count 0 probe log = (log ++ replicate fuel (0, 0), OutOfFuel).
Proof.
  intros Hc. unfold batch. revert log.
  induction fuel as [|fuel IH]; intros log; cbn [batch_from replicate].
  - destruct (Z.ltb_spec 0 count); [|lia]. rewrite app_nil_r. reflexivity.
  - destruct (Z.ltb_spec 0 count); [|lia].
    change (wrap64 (0 + 0)) with 0.
    destruct (Z.gtb_spec 0 count); [lia|].
    unfold probe at 1. cbn [Z.ltb Z.compare]. rewrite IH, <- app_assoc. reflexivity.
Qed.

Lemma batch_zero_batchSize_never_returns_witness :
  batch 3 10 0 probe [] = ([(0, 0); (0, 0); (0, 0)], OutOfFuel).
Proof. apply (batch_zero_batchSize_never_returns 10 3 []). lia. Defined.

Section BatchInvariant.
Context {S : Type} (P : S -> Prop) (eachFn : Z -> Z -> M S unit).
Hypothesis eachFn_keeps : forall a b s s' r, P s -> eachFn a b s = (s', r) -> P s'.

Lemma batch_from_keeps count bs fuel : forall i s s' r,
  P s -> batch_from fuel count bs eachFn i s = (s', r) -> P s'.
Proof.
  induction fuel as [|fuel IH]; intros i s s' r Hs; cbn [batch_from];
    destruct (i <? count); try (intros [= <- <-]; exact Hs).
  destruct (eachFn i _ s) as [s1 r1] eqn:E.
  pose proof (eachFn_keeps _ _ _ _ _ Hs E) as Hs1.
  destruct r1 as [[]| | |]; try (intros [= <- <-]; exact Hs1).
  apply IH, Hs1.
Qed.

End BatchInvariant.

(** ** What a strategy and [bulkCreateRoles] leave untouched *)

Lemma roles_appended_refl w : roles_appended w w.
Proof. exists []. cbn. rewrite app_nil_r. unfold len. cbn. split; [reflexivity|lia]. Qed.

Lemma with_ids_app rows1 : forall rows2 next,
  with_ids next (rows1 ++ rows2)
  = with_ids next rows1 ++ with_ids (next + len rows1) rows2.
Proof.
  induction rows1 as [|r rows1 IH]; intros rows2 next; cbn [with_ids app].
  - unfold len. cbn. rewrite Z.add_0_r. reflexivity.
  - rewrite IH. do 3 f_equal. unfold len. cbn [length]. lia.
Qed.

Lemma roles_appended_trans w1 w2 w3 :
  roles_appended w1 w2 -> roles_appended w2 w3 -> roles_appended w1 w3.
Proof.
  intros (r1 & T1 & N1) (r2 & T2 & N2). exists (r1 ++ r2).
  rewrite with_ids_app, T2, T1, N2, N1, <- app_assoc. split; [reflexivity|].
  unfold len. rewrite length_app. lia.
Qed.

Lemma roles_appended_ids w w' :
  roles_appended w w' -> ids_assigned w -> ids_assigned w'.
Proof.
  intros (rows & T & N) H.
  pose proof (ids_assigned_add_roles rows w H) as [Hpos Hall].
  cbn in Hpos, Hall. pose proof (with_ids_length rows (next_id w)) as Hlen.
  split; [rewrite N; unfold len in *; lia|].
  rewrite T. eapply Forall_impl; [exact Hall|]. cbn. intros x Hx.
  rewrite N. unfold len in *. lia.
Qed.

Lemma reads_only_roles_appended w w' : reads_only w w' -> roles_appended w w'.
Proof.
  intros ((T & _ & _ & _ & N) & _). exists []. cbn. rewrite app_nil_r, T, N.
  unfold len. cbn. split; [reflexivity|lia].
Qed.

(** One statement of a strategy: the inserts append to table [role], the
    lookup changes no table; a failing statement changes none. *)
Local Ltac same_role_tbl :=
  exists []; cbn; rewrite app_nil_r; unfold len; cbn; split; [reflexivity|lia].

Lemma insert_roles_frame roles w w' r :
  sess.insert_roles roles w = (w', r) ->
  env_kept w w' /\ roles_appended w w' /\
  ((forall u, r <> Ok u) -> role_tbl w' = role_tbl w).
Proof.
  unfold sess.insert_roles, exec. destruct roles as [|x roles].
  - intros [= <- <-]. split; [unfold env_kept; cbn; repeat split; lia|].
    split; [same_role_tbl|reflexivity].
  - destruct (fault w (length (statements w))); intros [= <- <-].
    + split; [unfold env_kept; cbn; repeat split; lia|].
      split; [same_role_tbl|reflexivity].
    + split; [unfold env_kept; cbn; repeat split; lia|]. split.
      * exists (x :: roles). cbn [role_tbl next_id add_roles log_stmt].
        split; [reflexivity|]. unfold len. cbn [length]. rewrite with_ids_length.
        reflexivity.
      * intros H. destruct (H tt). reflexivity.
Qed.

Lemma insert_roles_returning_frame args w w' r :
  sess.insert_roles_returning args w = (w', r) ->
  env_kept w w' /\ roles_appended w w' /\
  ((forall u, r <> Ok u) -> role_tbl w' = role_tbl w).
Proof.
  unfold sess.insert_roles_returning, exec. destruct args as [|x args].
  - intros [= <- <-]. split; [unfold env_kept; cbn; repeat split; lia|].
    split; [same_role_tbl|reflexivity].
  - destruct (fault w (length (statements w))); intros [= <- <-].
    + split; [unfold env_kept; cbn; repeat split; lia|].
      split; [same_role_tbl|reflexivity].
    + split; [unfold env_kept; cbn; repeat split; lia|]. split.
      * exists (map sess.row_of_args (x :: args)).
        cbn [role_tbl next_id add_roles log_stmt].
        split; [reflexivity|]. unfold len. cbn [length map].
        rewrite with_ids_length, length_map. reflexivity.
      * intros H. edestruct H. reflexivity.
Qed.

Lemma find_roles_by_uids_frame args w w' r :
  sess.find_roles_by_uids args w = (w', r) ->
  env_kept w w' /\ role_tbl w' = role_tbl w /\ next_id w' = next_id w.
Proof.
  unfold sess.find_roles_by_uids, exec.
  destruct (fault w (length (statements w))); intros [= <- <-];
    (split; [unfold env_kept; cbn; repeat split; lia|split; reflexivity]).
Qed.

(** A batch of either strategy, whatever its outcome and its roles: table
    [role] only grows, by rows with the next ids; nothing else but the log,
    the candidates drawn and the clock changes; and a failed batch of the
    combining strategy has stored nothing. *)
Lemma strategy_frame mysql roles start end_ w w' r :
  strategy mysql roles start end_ w = (w', r) ->
  env_kept w w' /\ roles_appended w w' /\
  (mysql = false -> (forall c, r <> Ok c) -> role_tbl w' = role_tbl w).
Proof.
  destruct (batch_uids_run roles (tick w)) as (w1 & r1 & Hrun & Hro & _).
  assert (Hk1 : env_kept w w1).
  { apply env_kept_trans with (tick w); [|apply reads_only_env_kept, Hro].
    unfold env_kept. cbn. repeat split; lia. }
  assert (Ha1 : roles_appended w w1).
  { apply roles_appended_trans with (tick w); [|apply reads_only_roles_appended, Hro].
    same_role_tbl. }
  assert (Ht1 : role_tbl w1 = role_tbl w) by (destruct Hro as ((T & _) & _); exact T).
  destruct mysql; unfold strategy.
  - unfold createRolesMySQL, mbind, M_bind, time.Now.
    rewrite createRolesMySQL_stamp_uids, Hrun.
    destruct r1 as [uids|e| |]; cbn [carry app];
      try (intros [= <- <-]; split; [exact Hk1|]; split; [exact Ha1|discriminate]).
    destruct (sess.insert_roles _ w1) as [w2 r2] eqn:E2.
    destruct (insert_roles_frame _ _ _ _ E2) as (Hk2 & Ha2 & _).
    assert (Hk : env_kept w w2) by (eapply env_kept_trans; eassumption).
    assert (Ha : roles_appended w w2) by (eapply roles_appended_trans; eassumption).
    destruct r2 as [[]|e| |];
      try (intros [= <- <-]; split; [exact Hk|]; split; [exact Ha|discriminate]).
    intros E3. destruct (find_roles_by_uids_frame _ _ _ _ E3) as (Hk3 & T3 & N3).
    split; [eapply env_kept_trans; eassumption|]. split; [|discriminate].
    destruct Ha as (rows & T & N). exists rows. rewrite T3, N3. split; assumption.
  - unfold createRoles, mbind, M_bind, time.Now.
    rewrite createRoles_args_uids, Hrun.
    destruct r1 as [uids|e| |]; cbn [carry app];
      try (intros [= <- <-]; split; [exact Hk1|]; split; [exact Ha1|];
           intros _ _; exact Ht1).
    intros E2. destruct (insert_roles_returning_frame _ _ _ _ E2) as (Hk2 & Ha2 & Hno).
    split; [eapply env_kept_trans; eassumption|].
    split; [eapply roles_appended_trans; eassumption|].
    intros _ Hr. rewrite (Hno Hr). exact Ht1.
Qed.

Lemma create_window_frame mysql allRoles w0 a b s s' r :
  (env_kept w0 s.1 /\ roles_appended w0 s.1) ->
  create_window (strategy mysql) allRoles a b s = (s', r) ->
  env_kept w0 s'.1 /\ roles_appended w0 s'.1.
Proof.
  destruct s as [w acc]. cbn [fst]. intros [Hk Ha]. unfold create_window.
  destruct (slice allRoles a b) as [roles|]; [|intros [= <- <-]; split; assumption].
  destruct (strategy mysql roles a b w) as [w1 r1] eqn:E.
  destruct (strategy_frame _ _ _ _ _ _ _ E) as (Hk1 & Ha1 & _).
  destruct r1; intros [= <- <-]; cbn [fst];
    (split; [eapply env_kept_trans|eapply roles_appended_trans]; eassumption).
Qed.

Lemma bulkCreateRoles_frame driver allRoles w :
  env_kept w (bulkCreateRoles driver allRoles w).1.1 /\
  roles_appended w (bulkCreateRoles driver allRoles w).1.1.
Proof.
  unfold bulkCreateRoles. destruct (len allRoles =? 0).
  - split; [apply env_kept_refl|apply roles_appended_refl].
  - cbv zeta.
    change (if String.eqb driver migrator_MySQL then createRolesMySQL else createRoles)
      with (strategy (String.eqb driver migrator_MySQL)).
    unfold batch.
    destruct (batch_from _ _ _ _ _ _) as [s' r] eqn:E.
    apply (batch_from_keeps
             (fun s : World * list Role.t => env_kept w s.1 /\ roles_appended w s.1)
             _ (create_window_frame _ allRoles w) _ _ _ _ (w, []) _ _
             (conj (env_kept_refl w) (roles_appended_refl w)) E).
Qed.

(** X5: whatever the input, the driver and the outcome (errors included),
    bulkCreateRoles only appends to table role: the rows that were there stay
    as they are, the new rows get the next ids of the counter (so assigned ids
    stay positive and below the counter), and the binding tables, the
    generator and the faults of the session are as before; candidates are only
    consumed and the clock only advances. *)
Theorem bulkCreateRoles_only_appends_roles
        (driver : string) (allRoles : list Role.t) (w : World) :
  let w' := (bulkCreateRoles driver allRoles w).1.1 in
  env_kept w w' /\ roles_appended w w' /\ (ids_assigned w -> ids_assigned w').
Proof.
  cbv zeta. destruct (bulkCreateRoles_frame driver allRoles w) as [Hk Ha].
  split; [exact Hk|]. split; [exact Ha|]. apply roles_appended_ids, Ha.
Qed.

(** ** A failing run of [bulkCreateRoles] *)


Lemma bulk_created_returns mysql w0 w roles rows created :
  bulk_created mysql w0 w roles rows created ->
  map Role.key created = map Role.key roles /\
  map Role.ID created = map Role.ID rows.
Proof.
  intros (_ & _ & _ & Hkey & -> & _). destruct mysql.
  - split; [exact Hkey|reflexivity].
  - rewrite returned_key, map_map. split; [exact Hkey|reflexivity].
Qed.



(** ** Creating roles and finding them again *)

Lemma findRole_finds orgID name w x :
  fault_at w 0 = None ->
  In x (role_tbl w) -> Role.OrgID x = orgID -> Role.Name x = name ->
  exists role,
    findRole orgID name w = (log_stmt (SelectRoleByName orgID name) w, Ok role) /\
    In role (role_tbl w) /\ Role.OrgID role = orgID /\ Role.Name role = name.
Proof.
  intros F Hin Ho Hn.
  unfold findRole, mbind, M_bind, sess.get_role_by_name, exec.
  unfold fault_at in F. rewrite Nat.add_0_r in F. rewrite F.
  cbn [role_tbl log_stmt].
  destruct (find _ (role_tbl w)) as [role|] eqn:Hfind.
  - exists role. split; [reflexivity|].
    apply find_some in Hfind as [Hr Hmatch].
    apply andb_true_iff in Hmatch as [Ho' Hn'].
    apply Z.eqb_eq in Ho'. apply String.eqb_eq in Hn'. repeat split; assumption.
  - pose proof (find_none _ _ Hfind x Hin) as Hno. cbn in Hno.
    rewrite Ho, Hn, Z.eqb_refl, String.eqb_refl in Hno. discriminate.
Qed.

(** X7: round trip.  After a successful bulkCreateRoles on a table with
    assigned ids, findRole with the organisation and name of any of the
    specifications finds a stored role of that organisation and name, with a
    non-zero id (if the lookup statement itself does not fail).  When table
    role held no role of that organisation and name before, the role found is
    one of those bulkCreateRoles returned: same id, organisation and name. *)
Theorem bulkCreateRoles_then_findRole
        (driver : string) (allRoles : list Role.t) (w w' : World)
        (created : list Role.t) (spec : Role.t) :
  ids_assigned w ->
  len allRoles + batchSize <= max_int ->
  bulkCreateRoles driver allRoles w = ((w', created), Ok tt) ->
  In spec allRoles ->
  fault_at w' 0 = None ->
  exists role,
    findRole (Role.OrgID spec) (Role.Name spec) w'
    = (log_stmt (SelectRoleByName (Role.OrgID spec) (Role.Name spec)) w', Ok role) /\
    In role (role_tbl w') /\ Role.key role = Role.key spec /\ Role.ID role <> 0 /\
    ((forall x, In x (role_tbl w) -> Role.key x <> Role.key spec) ->
     exists c, In c created /\ Role.ID c = Role.ID role /\ Role.key c = Role.key spec).
Proof.
  intros Hids Hmax Hrun Hspec F.
  destruct (bulkCreateRoles_run driver allRoles w Hmax)
    as (w1 & created1 & r1 & Hrun1 & _ & _ & Hok).
  rewrite Hrun in Hrun1. injection Hrun1 as <- <- <-.
  destruct (Hok eq_refl) as (rows & Hbulk).
  pose proof Hbulk as (_ & Htb & Hnid & Hkey & Hcr & _).
  assert (Hids' : ids_assigned w').
  { apply (roles_appended_ids w); [|exact Hids].
    pose proof (bulkCreateRoles_frame driver allRoles w) as Hfr.
    rewrite Hrun in Hfr. apply Hfr. }
  (* the row stored for [spec] *)
  assert (Hrow : exists x, In x rows /\ Role.key x = Role.key spec).
  { assert (Hk : Role.key spec ∈ map Role.key rows).
    { rewrite Hkey. apply list_elem_of_fmap. exists spec.
      split; [reflexivity|apply list_elem_of_In, Hspec]. }
    apply list_elem_of_fmap in Hk as (x & Hx & Hin). exists x.
    split; [apply list_elem_of_In, Hin|symmetry; exact Hx]. }
  destruct Hrow as (x & Hx & Hxk).
  assert (Hxin : In x (role_tbl w')) by (rewrite Htb; apply in_or_app; right; exact Hx).
  injection Hxk as Hxo Hxn.
  destruct (findRole_finds _ _ w' x F Hxin Hxo Hxn) as (role & Hfind & Hin & Ho & Hn).
  exists role. split; [exact Hfind|]. split; [exact Hin|].
  split; [unfold Role.key; rewrite Ho, Hn; reflexivity|]. split.
  { destruct Hids' as [_ Hall]. rewrite Forall_forall in Hall.
    specialize (Hall role). rewrite list_elem_of_In in Hall. specialize (Hall Hin). lia. }
  intros Hold. rewrite Htb in Hin. apply in_app_or in Hin as [Hin|Hin].
  { exfalso. apply (Hold role Hin). unfold Role.key. rewrite Ho, Hn. reflexivity. }
  rewrite Hcr. destruct (String.eqb driver migrator_MySQL).
  - exists role. split; [exact Hin|]. split; [reflexivity|].
    unfold Role.key. rewrite Ho, Hn. reflexivity.
  - exists (sess.returned role). split; [apply in_map, Hin|]. split; [reflexivity|].
    unfold Role.key. cbn. rewrite Ho, Hn. reflexivity.
Qed.

Lemma bulkCreateRoles_then_findRole_witness :
  exists w' created role,
    bulkCreateRoles "postgres" [spec_user1; spec_team2] world0 = ((w', created), Ok tt) /\
    findRole 1 "managed:teams:2:permissions" w'
    = (log_stmt (SelectRoleByName 1 "managed:teams:2:permissions") w', Ok role) /\
    Role.ID role <> 0 /\
    exists c, In c created /\ Role.ID c = Role.ID role /\ Role.key c = Role.key spec_team2.
Proof.
  assert (Hrun : bulkCreateRoles "postgres" [spec_user1; spec_team2] world0
                 = ((bulkCreateRoles "postgres" [spec_user1; spec_team2] world0).1.1,
                    (bulkCreateRoles "postgres" [spec_user1; spec_team2] world0).1.2,
                    Ok tt)) by (vm_compute; reflexivity).
  exists (bulkCreateRoles "postgres" [spec_user1; spec_team2] world0).1.1,
         (bulkCreateRoles "postgres" [spec_user1; spec_team2] world0).1.2.
  destruct (bulkCreateRoles_then_findRole "postgres" [spec_user1; spec_team2] world0
              (bulkCreateRoles "postgres" [spec_user1; spec_team2] world0).1.1
              (bulkCreateRoles "postgres" [spec_user1; spec_team2] world0).1.2
              spec_team2) as (role & Hfind & _ & _ & Hid & Hnew).
  - split; [reflexivity|constructor].
  - unfold len, batchSize, max_int. cbn. lia.
  - exact Hrun.
  - right. left. reflexivity.
  - reflexivity.
  - exists role. split; [exact Hrun|]. split; [exact Hfind|]. split; [exact Hid|].
    apply Hnew. intros x [].
Defined.

(** ** [bulkCreateRoles] in a healthy session *)

Lemma generateNewRoleUID_first orgID w :
  fault_at w 0 = None -> in_use w orgID (candidate w 0) = false ->
  generateNewRoleUID orgID w
  = (log_stmt (SelectRoleByUID orgID (candidate w 0)) (draw w), Ok (candidate w 0)).
Proof.
  intros F U. unfold generateNewRoleUID. rewrite generateNewRoleUID_loop_step.
  cbv zeta. rewrite F, U. reflexivity.
Qed.

Lemma batch_uids_fresh roles : forall w,
  fault_free w ->
  (forall i orgID, (uid_drawn w <= i)%nat -> in_use w orgID (uid_source w i) = false) ->
  exists w' uids,
    batch_uids roles w = (w', Ok uids) /\
    uid_drawn w' = (uid_drawn w + length roles)%nat.
Proof.
  induction roles as [|r roles IH]; intros w Hff Hfresh; cbn [batch_uids].
  - exists w, []. split; [reflexivity|]. cbn. lia.
  - unfold mbind, M_bind.
    rewrite generateNewRoleUID_first.
    2:{ apply Hff. }
    2:{ apply Hfresh. lia. }
    set (w1 := log_stmt _ (draw w)).
    destruct (IH w1) as (w' & uids & -> & Hd).
    + intros n. apply Hff.
    + intros i o Hi. apply (Hfresh i o). unfold w1 in Hi. cbn in Hi.
      apply Nat.lt_le_incl, Hi.
    + eexists _, _. split; [reflexivity|]. rewrite Hd. unfold w1. cbn.
      rewrite Nat.add_succ_r. reflexivity.
Qed.

Lemma strategy_fresh mysql roles start end_ w :
  roles <> [] -> fault_free w -> generator_fresh w ->
  exists w' created rows,
    strategy mysql roles start end_ w = (w', Ok created) /\
    env_kept w w' /\ batch_created mysql w w' roles rows created /\
    uid_drawn w' = (uid_drawn w + length roles)%nat /\
    fault_free w' /\ generator_fresh w'.
Proof.
  intros Hne Hff [Hinj Hfresh].
  destruct (strategy_run mysql roles start end_ w Hne) as (w' & r & Hs & _ & _ & Hk & Hok).
  destruct (batch_uids_fresh roles (tick w) Hff Hfresh) as (w1 & uids & Hu & Hd).
  assert (Hr : exists created, r = Ok created /\ uid_drawn w' = uid_drawn w1).
  { revert Hs. destruct mysql; unfold strategy.
    - unfold createRolesMySQL, mbind, M_bind, time.Now.
      rewrite createRolesMySQL_stamp_uids, Hu. cbn [app].
      destruct (batch_uids_run roles (tick w)) as (w1' & r1 & Hrun & Hro & _ & _ & Hlen).
      rewrite Hu in Hrun. injection Hrun as <- <-.
      destruct (Hlen uids eq_refl) as (idxs & _ & Hl & _).
      rewrite insert_roles_run by (apply zip_with_nonempty; assumption).
      destruct Hro as (_ & Hf1 & _). cbn in Hf1.
      rewrite Hf1, Hff. unfold sess.find_roles_by_uids, exec.
      cbn [fault add_roles log_stmt]. rewrite Hf1, Hff.
      intros [= <- <-]. eexists. split; reflexivity.
    - unfold createRoles, mbind, M_bind, time.Now.
      rewrite createRoles_args_uids, Hu. cbn [app].
      destruct (batch_uids_run roles (tick w)) as (w1' & r1 & Hrun & Hro & _ & _ & Hlen).
      rewrite Hu in Hrun. injection Hrun as <- <-.
      destruct (Hlen uids eq_refl) as (idxs & _ & Hl & _).
      rewrite insert_roles_returning_run by (apply zip_with_nonempty; assumption).
      destruct Hro as (_ & Hf1 & _). cbn in Hf1.
      rewrite Hf1, Hff. cbv zeta.
      intros [= <- <-]. eexists. split; reflexivity. }
  destruct Hr as (created & -> & Hd').
  destruct (Hok created eq_refl) as (rows & Hbatch).
  exists w', created, rows. split; [exact Hs|]. split; [exact Hk|].
  split; [exact Hbatch|]. split; [rewrite Hd', Hd; reflexivity|].
  pose proof Hk as (Hf & Hsrc & Hdr & _).
  split; [intros n; rewrite Hf; apply Hff|].
  split; [intros i j; rewrite Hsrc; apply Hinj|].
  intros i o Hi.
  destruct Hbatch as (uids' & idxs & Hmap & Hlen & (_ & Hrange) & _ & Hrows & Htb & _).
  unfold in_use. rewrite Htb, existsb_app.
  fold (in_use w o (uid_source w' i)). rewrite Hsrc, Hfresh by lia. cbn [orb].
  apply not_true_is_false. intros Hex.
  apply existsb_exists in Hex as (x & Hx & Hm).
  apply andb_true_iff in Hm as [_ Hm]. apply String.eqb_eq in Hm.
  assert (Hin : Role.UID x ∈ map Role.UID rows).
  { apply list_elem_of_fmap. exists x. split; [reflexivity|apply list_elem_of_In, Hx]. }
  rewrite Hrows, stored_rows_uid, Hmap in Hin by exact Hlen.
  apply list_elem_of_fmap in Hin as (j & Hj & Hjin).
  rewrite Forall_forall in Hrange. specialize (Hrange j Hjin). cbn in Hrange.
  rewrite Hm in Hj. apply Hinj in Hj. lia.
Qed.

Lemma run_windows_create_fresh mysql allRoles w0 ws : forall i w acc rows,
  0 <= i -> tiles batchSize i (len allRoles) ws ->
  bulk_created mysql w0 w (take (Z.to_nat i) allRoles) rows acc ->
  fault_free w -> generator_fresh w ->
  uid_drawn w = (uid_drawn w0 + Z.to_nat i)%nat ->
  exists w' acc' rows',
    run_windows (create_window (strategy mysql) allRoles) ws (w, acc)
    = ((w', acc'), Ok tt) /\
    bulk_created mysql w0 w' allRoles rows' acc' /\
    uid_drawn w' = (uid_drawn w0 + length allRoles)%nat.
Proof.
  induction ws as [|[a b] ws IH]; intros i w acc rows Hi Htiles Hinv Hff Hgen Hd;
    cbn in Htiles.
  - exists w, acc, rows. split; [reflexivity|].
    rewrite take_ge in Hinv by (unfold len in Htiles; lia).
    split; [exact Hinv|]. rewrite Hd. unfold len in Htiles. lia.
  - destruct Htiles as (-> & Hab & Hsz & Hb & Htiles).
    destruct (slice_window allRoles i b Hi Hab Hb) as (roles & Hsl & Hne & Htake).
    assert (Hlen : length roles = Z.to_nat (b - i)).
    { apply (f_equal length) in Htake. rewrite length_app, !length_take in Htake.
      unfold len in Hb. lia. }
    cbn [run_windows]. unfold create_window at 1. rewrite Hsl.
    destruct (strategy_fresh mysql roles i b w Hne Hff Hgen)
      as (w1 & created & rows1 & -> & Hk & Hbatch & Hd1 & Hff1 & Hgen1).
    apply (IH b w1 (acc ++ created) (rows ++ rows1)); try assumption; [lia| |lia].
    rewrite <- Htake. eapply bulk_created_step; eassumption.
Qed.

(** X8: in a session where no statement fails and whose generator neither
    repeats a candidate nor returns the UID of a stored role, bulkCreateRoles
    succeeds for every list of N specifications (N + 500 within the int range)
    and either strategy: it stores one row per specification, in order and
    with its (OrgID, Name), returns one role per specification, and each UID
    is accepted at the first attempt, so that exactly N candidates are
    drawn. *)
Theorem bulkCreateRoles_succeeds
        (driver : string) (allRoles : list Role.t) (w : World) :
  fault_free w -> generator_fresh w ->
  len allRoles + batchSize <= max_int ->
  exists w' created rows,
    bulkCreateRoles driver allRoles w = ((w', created), Ok tt) /\
    bulk_created (String.eqb driver migrator_MySQL) w w' allRoles rows created /\
    map Role.key created = map Role.key allRoles /\
    uid_drawn w' = (uid_drawn w + length allRoles)%nat.
Proof.
  intros Hff Hgen Hmax. unfold bulkCreateRoles.
  destruct (Z.eqb_spec (len allRoles) 0) as [H0|H0].
  - destruct allRoles; [|discriminate]. exists w, [], [].
    split; [reflexivity|]. split; [apply bulk_created_refl|].
    split; [reflexivity|]. cbn. lia.
  - cbv zeta.
    change (if String.eqb driver migrator_MySQL then createRolesMySQL else createRoles)
      with (strategy (String.eqb driver migrator_MySQL)).
    unfold batch.
    rewrite batch_from_run;
      [|unfold batchSize; lia|reflexivity|exact Hmax|unfold len; lia].
    destruct (run_windows_create_fresh (String.eqb driver migrator_MySQL) allRoles w
                (windows_from (length allRoles) (len allRoles) batchSize 0)
                0 w [] [])
      as (w' & created & rows & Hrun & Hbulk & Hd);
      try assumption; try lia.
    + apply windows_from_tiles; unfold batchSize, len; lia.
    + apply bulk_created_refl.
    + exists w', created, rows. split; [exact Hrun|]. split; [exact Hbulk|].
      split; [apply (bulk_created_returns _ _ _ _ _ _ Hbulk)|exact Hd].
Qed.

Lemma marks_length n : String.length (marks n) = Datatypes.S n.
Proof. induction n as [|n IH]; cbn; [reflexivity|]. rewrite IH. reflexivity. Qed.

Lemma bulkCreateRoles_succeeds_witness :
  exists w' created rows,
    bulkCreateRoles "mysql" [spec_user1; spec_team2] world_fresh
    = ((w', created), Ok tt) /\
    bulk_created true world_fresh w' [spec_user1; spec_team2] rows created /\
    map Role.key created = map Role.key [spec_user1; spec_team2] /\
    uid_drawn w' = 2%nat.
Proof.
  apply (bulkCreateRoles_succeeds "mysql" [spec_user1; spec_team2] world_fresh).
  - intros n. reflexivity.
  - split; [|intros i o _; reflexivity]. cbn [uid_source world_fresh].
    intros i j H. apply (f_equal String.length) in H.
    rewrite !marks_length in H. lia.
  - unfold len, batchSize, max_int. cbn. lia.
Defined.

(** ** What [bulkAssignRoles] leaves untouched *)

Lemma bindings_appended_refl w : bindings_appended w w.
Proof.
  unfold bindings_appended. repeat split; try lia; exists []; symmetry; apply app_nil_r.
Qed.

Lemma bindings_appended_trans w1 w2 w3 :
  clock w3 = clock w2 ->
  bindings_appended w1 w2 -> bindings_appended w2 w3 -> bindings_appended w1 w3.
Proof.
  intros Hc (R1 & N1 & D1 & S1 & F1 & C1 & (u1 & U1) & (t1 & T1) & (b1 & B1))
         (R2 & N2 & D2 & S2 & F2 & C2 & (u2 & U2) & (t2 & T2) & (b2 & B2)).
  unfold bindings_appended.
  split; [congruence|]. split; [congruence|]. split; [congruence|].
  split; [congruence|]. split; [congruence|]. split; [lia|].
  split; [exists (u1 ++ u2); rewrite U2, U1, app_assoc; reflexivity|].
  split; [exists (t1 ++ t2); rewrite T2, T1, app_assoc; reflexivity|].
  exists (b1 ++ b2). rewrite B2, B1, app_assoc. reflexivity.
Qed.

(** One window of one bucket: a bulk insert into its binding table, which a
    failing statement leaves as it was. *)
Lemma insert_window_appends {A} (ins : list A -> M World unit) (rows : list A) :
  (forall c w w' r, ins c w = (w', r) ->
                    bindings_appended w w' /\ clock w' = clock w) ->
  forall w0 a b w w' r,
    bindings_appended w0 w -> insert_window ins rows a b w = (w', r) ->
    bindings_appended w0 w'.
Proof.
  intros Hins w0 a b w w' r H0. unfold insert_window.
  destruct (slice rows a b) as [c|]; [|intros [= <- <-]; exact H0].
  intros E. destruct (Hins _ _ _ _ E) as [H1 Hc].
  eapply bindings_appended_trans; eassumption.
Qed.

Lemma insert_user_roles_appends c w w' r :
  sess.insert_user_roles c w = (w', r) -> bindings_appended w w' /\ clock w' = clock w.
Proof.
  unfold sess.insert_user_roles, exec.
  destruct (fault w (length (statements w))); intros [= <- <-];
    (split; [|reflexivity]); unfold bindings_appended; cbn;
    repeat split; try lia;
    first [exists c; reflexivity | exists []; symmetry; apply app_nil_r].
Qed.

Lemma insert_team_roles_appends c w w' r :
  sess.insert_team_roles c w = (w', r) -> bindings_appended w w' /\ clock w' = clock w.
Proof.
  unfold sess.insert_team_roles, exec.
  destruct (fault w (length (statements w))); intros [= <- <-];
    (split; [|reflexivity]); unfold bindings_appended; cbn;
    repeat split; try lia;
    first [exists c; reflexivity | exists []; symmetry; apply app_nil_r].
Qed.

Lemma insert_builtin_roles_appends c w w' r :
  sess.insert_builtin_roles c w = (w', r) -> bindings_appended w w' /\ clock w' = clock w.
Proof.
  unfold sess.insert_builtin_roles, exec.
  destruct (fault w (length (statements w))); intros [= <- <-];
    (split; [|reflexivity]); unfold bindings_appended; cbn;
    repeat split; try lia;
    first [exists c; reflexivity | exists []; symmetry; apply app_nil_r].
Qed.

(** X9: whatever the Role Index, the assignments and the outcome (errors,
    panics and wrapped-around windows included), bulkAssignRoles only appends
    to the three binding tables: it never changes table role or its id
    counter, never draws a UID candidate, and reads the clock at most once. *)
Theorem bulkAssignRoles_only_appends_bindings
        (rolesMap : RolesMap) (assignments : list (Z * list string)) (w : World) :
  bindings_appended w (bulkAssignRoles rolesMap assignments w).1.
Proof.
  rewrite bulkAssignRoles_plan. destruct assignments as [|a assignments];
    [apply bindings_appended_refl|].
  assert (Ht : bindings_appended w (tick w)).
  { unfold bindings_appended. cbn.
    repeat split; try lia; exists []; symmetry; apply app_nil_r. }
  destruct (assign_visits _ _ _ _) as [b|e| |]; try exact Ht.
  unfold mbind, M_bind, batch.
  destruct (batch_from _ _ _ _ 0 (tick w)) as [w1 r1] eqn:E1.
  pose proof (batch_from_keeps (bindings_appended w) _
                (fun a b s s' r H E =>
                   insert_window_appends _ _ insert_user_roles_appends w a b s s' r H E)
                _ _ _ _ _ _ _ Ht E1) as H1.
  destruct r1 as [[]|e| |]; try exact H1.
  destruct (batch_from _ _ _ _ 0 w1) as [w2 r2] eqn:E2.
  pose proof (batch_from_keeps (bindings_appended w) _
                (fun a b s s' r H E =>
                   insert_window_appends _ _ insert_team_roles_appends w a b s s' r H E)
                _ _ _ _ _ _ _ H1 E2) as H2.
  destruct r2 as [[]|e| |]; try exact H2.
  destruct (batch_from _ _ _ _ 0 w2) as [w3 r3] eqn:E3.
  exact (batch_from_keeps (bindings_appended w) _
           (fun a b s s' r H E =>
              insert_window_appends _ _ insert_builtin_roles_appends w a b s s' r H E)
           _ _ _ _ _ _ _ H2 E3).
Qed.

(** ** A failing run of [bulkAssignRoles] *)

Lemma chunks_fuel_take {A} (n : nat) : forall fuel (l : list A) k,
  (1 <= n)%nat -> (length l <= fuel)%nat ->
  concat (take k (chunks_fuel fuel n l)) = take (k * n) l /\
  ((k < length (chunks_fuel fuel n l))%nat -> (k * n < length l)%nat) /\
  ((length (chunks_fuel fuel n l) <= k)%nat -> (length l <= k * n)%nat).
Proof.
  induction fuel as [|fuel IH]; intros l k Hn Hlen.
  - destruct l; [|cbn in Hlen; lia]. cbn [chunks_fuel length]. rewrite !take_nil.
    split; [reflexivity|]. split; lia.
  - destruct l as [|x l].
    { cbn [chunks_fuel length]. rewrite !take_nil. split; [reflexivity|]. split; lia. }
    cbn [chunks_fuel]. destruct k as [|k].
    { cbn. split; [reflexivity|]. split; lia. }
    cbn [take concat length].
    destruct (IH (drop n (x :: l)) k Hn) as (Hcat & Hlt & Hge).
    { rewrite length_drop. cbn [length] in *. lia. }
    rewrite Hcat, take_take_drop. rewrite length_drop in Hlt, Hge.
    split; [f_equal; lia|]. cbn [length] in *. split; intros H.
    + assert (k * n < Datatypes.S (length l) - n)%nat by (apply Hlt; lia). lia.
    + assert (Datatypes.S (length l) - n <= k * n)%nat by (apply Hge; lia). lia.
Qed.

(** A run of bulk inserts into one table, whatever its outcome: the chunks
    before the first failing insert are in the table, and nothing else. *)
Lemma run_all_prefix {A B} (ins : list A -> M World unit)
      (get : World -> list A) (other : World -> B) :
  (forall c w w' r, ins c w = (w', r) ->
     other w' = other w /\
     match r with Ok _ => get w' = get w ++ c | _ => get w' = get w end) ->
  forall cs w w' r,
    run_all (map ins cs) w = (w', r) ->
    exists k,
      get w' = get w ++ concat (take k cs) /\ other w' = other w /\
      match r with
      | Ok _ => k = length cs
      | _ => (k < length cs)%nat
      end.
Proof.
  intros Hins. induction cs as [|c cs IH]; intros w w' r; cbn [map run_all].
  - intros [= <- <-]. exists 0%nat. cbn. rewrite app_nil_r. repeat split.
  - unfold mbind, M_bind. destruct (ins c w) as [w1 r1] eqn:E.
    destruct (Hins _ _ _ _ E) as [Ho Hg].
    destruct r1 as [[]|e| |];
      try (intros [= <- <-]; exists 0%nat; cbn; rewrite app_nil_r;
           repeat split; [exact Hg|exact Ho|lia]).
    intros Hrest. destruct (IH _ _ _ Hrest) as (k & Hk & Ho' & Hr).
    exists (Datatypes.S k). cbn [take concat length].
    split; [rewrite Hk, Hg, <- app_assoc; reflexivity|].
    split; [congruence|]. destruct r as [[]|e| |]; lia.
Qed.

Lemma exec_tables {A} (st : Stmt) (eff : World -> World) (proj : World -> A) :
  (forall w, proj (log_stmt st w) = proj w) ->
  forall w w' r, exec st (fun w => (eff w, tt)) w = (w', r) ->
  match r with Ok _ => proj w' = proj (eff (log_stmt st w)) | _ => proj w' = proj w end.
Proof.
  intros Hlog w w' r. unfold exec.
  destruct (fault w (length (statements w))); intros [= <- <-];
    [apply Hlog|reflexivity].
Qed.

Lemma bucket_prefix {A B} (ins : list A -> M World unit)
      (get : World -> list A) (other : World -> B) :
  (forall c w w' r, ins c w = (w', r) ->
     other w' = other w /\
     match r with Ok _ => get w' = get w ++ c | _ => get w' = get w end) ->
  forall rows w w' r,
    run_all (map ins (chunks (Z.to_nat batchSize) rows)) w = (w', r) ->
    exists k,
      get w' = get w ++ take (k * Z.to_nat batchSize) rows /\ other w' = other w /\
      match r with
      | Ok _ => (length rows <= k * Z.to_nat batchSize)%nat
      | _ => (k * Z.to_nat batchSize < length rows)%nat
      end.
Proof.
  intros Hins rows w w' r Hrun.
  destruct (run_all_prefix ins get other Hins _ _ _ _ Hrun) as (k & Hg & Ho & Hr).
  assert (Hbs : (1 <= Z.to_nat batchSize)%nat) by (unfold batchSize; lia).
  destruct (chunks_fuel_take (Z.to_nat batchSize) (length rows) rows k Hbs (le_n _))
    as (Hcat & Hlt & Hge).
  fold (chunks (Z.to_nat batchSize) rows) in Hcat, Hlt, Hge.
  exists k. rewrite <- Hcat. split; [exact Hg|]. split; [exact Ho|].
  destruct r as [[]|e| |]; [apply Hge; lia|apply Hlt, Hr..].
Qed.

(** X10: whatever its outcome, bulkAssignRoles (on populated buckets, each
    shorter than 2^63 - 500) has written whole chunks of 500 in bucket order:
    each binding table holds its old rows followed by the first k * 500
    bindings of its bucket.  On success every bucket is written in full.
    Otherwise the insert that failed wrote nothing, the chunks before it stay
    written (nothing is undone), and a bucket after the failing one is not
    started. *)
Theorem bulkAssignRoles_writes_whole_chunks
        (rolesMap : RolesMap) (assignments : list (Z * list string))
        (w w' : World) (b : Buckets) (r : result unit) :
  assign_orgs rolesMap (clock w) assignments no_buckets = Ok b ->
  buckets_fit b ->
  bulkAssignRoles rolesMap assignments w = (w', r) ->
  let n := Z.to_nat batchSize in
  let users := userRoleAssignments b in
  let teams := teamRoleAssignments b in
  let builtins := builtInRoleAssignments b in
  exists ku kt kb : nat,
    user_role_tbl w' = user_role_tbl w ++ take (ku * n) users /\
    team_role_tbl w' = team_role_tbl w ++ take (kt * n) teams /\
    builtin_role_tbl w' = builtin_role_tbl w ++ take (kb * n) builtins /\
    match r with
    | Ok _ =>
        (length users <= ku * n /\ length teams <= kt * n /\
         length builtins <= kb * n)%nat
    | _ =>
        (ku * n < length users /\ kt = 0 /\ kb = 0)%nat \/
        (length users <= ku * n /\ kt * n < length teams /\ kb = 0)%nat \/
        (length users <= ku * n /\ length teams <= kt * n /\
         kb * n < length builtins)%nat
    end.
Proof.
  intros Hb Hfit Hrun. cbv zeta. rewrite assign_orgs_visits in Hb.
  destruct assignments as [|a assignments].
  { cbn in Hb, Hrun. injection Hb as <-. injection Hrun as <- <-.
    exists 0%nat, 0%nat, 0%nat. cbn. rewrite !app_nil_r. repeat split; lia. }
  rewrite (bulkAssignRoles_run_plan _ _ _ b) in Hrun by (assumption || discriminate).
  revert Hrun. unfold plan. rewrite run_all_app. unfold mbind at 1, M_bind at 1.
  destruct (run_all _ (tick w)) as [w1 r1] eqn:E1.
  apply (bucket_prefix _ user_role_tbl
           (fun w => (team_role_tbl w, builtin_role_tbl w))) in E1.
  2:{ intros c v v' q. unfold sess.insert_user_roles, exec.
      destruct (fault v _); intros [= <- <-]; split; reflexivity. }
  destruct E1 as (ku & U1 & [= T1 B1] & R1). cbn [user_role_tbl tick] in U1.
  cbn [team_role_tbl builtin_role_tbl tick] in T1, B1.
  destruct r1 as [[]|e| |];
    try (intros [= <- <-]; exists ku, 0%nat, 0%nat; cbn [take Nat.mul];
         rewrite !app_nil_r; repeat split; try assumption; left; repeat split; lia).
  rewrite run_all_app. unfold mbind at 1, M_bind at 1.
  destruct (run_all _ w1) as [w2 r2] eqn:E2.
  apply (bucket_prefix _ team_role_tbl
           (fun w => (user_role_tbl w, builtin_role_tbl w))) in E2.
  2:{ intros c v v' q. unfold sess.insert_team_roles, exec.
      destruct (fault v _); intros [= <- <-]; split; reflexivity. }
  destruct E2 as (kt & T2 & [= U2 B2] & R2).
  destruct r2 as [[]|e| |];
    try (intros [= <- <-]; exists ku, kt, 0%nat; cbn [take Nat.mul];
         rewrite !app_nil_r; repeat split; try congruence;
         right; left; repeat split; lia).
  intros E3.
  apply (bucket_prefix _ builtin_role_tbl
           (fun w => (user_role_tbl w, team_role_tbl w))) in E3.
  2:{ intros c v v' q. unfold sess.insert_builtin_roles, exec.
      destruct (fault v _); intros [= <- <-]; split; reflexivity. }
  destruct E3 as (kb & B3 & [= U3 T3] & R3).
  exists ku, kt, kb.
  split; [congruence|]. split; [congruence|]. split; [congruence|].
  destruct r as [[]|e| |]; [repeat split; lia|right; right; repeat split; lia..].
Qed.

Lemma bulkAssignRoles_writes_whole_chunks_witness :
  exists w' ku kt kb,
    bulkAssignRoles index1
      [(1, ["managed:users:42"; "basic:viewer"; "managed:teams:7";
            "managed:builtins:editor:extra"]%string)] world_second_fails
    = (w', Err (StorageError 1)) /\
    user_role_tbl w' = [] ++ take (ku * 500) [UserRole.mk 1 11 42 1000] /\
    team_role_tbl w' = [] ++ take (kt * 500) [TeamRole.mk 1 12 7 1000] /\
    builtin_role_tbl w' = [] ++ take (kb * 500) [BuiltinRole.mk 1 13 "Editor" 1000 1000] /\
    ((ku * 500 < 1 /\ kt = 0 /\ kb = 0)%nat \/
     (1 <= ku * 500 /\ kt * 500 < 1 /\ kb = 0)%nat \/
     (1 <= ku * 500 /\ 1 <= kt * 500 /\ kb * 500 < 1)%nat).
Proof.
  exists (bulkAssignRoles index1
      [(1, ["managed:users:42"; "basic:viewer"; "managed:teams:7";
            "managed:builtins:editor:extra"]%string)] world_second_fails).1.
  destruct (bulkAssignRoles_writes_whole_chunks index1
              [(1, ["managed:users:42"; "basic:viewer"; "managed:teams:7";
                    "managed:builtins:editor:extra"]%string)]
              world_second_fails
              (bulkAssignRoles index1
                 [(1, ["managed:users:42"; "basic:viewer"; "managed:teams:7";
                       "managed:builtins:editor:extra"]%string)] world_second_fails).1
              buckets1 (Err (StorageError 1)))
    as (ku & kt & kb & H).
  - vm_compute. reflexivity.
  - unfold buckets_fit, len, batchSize, max_int. cbn. lia.
  - vm_compute. reflexivity.
  - exists ku, kt, kb. split; [vm_compute; reflexivity|]. exact H.
Defined.

(** ** The buckets and the order of the visits *)

Lemma buckets_app_empty_r b : buckets_app b no_buckets = b.
Proof. destruct b. unfold buckets_app. cbn. rewrite !app_nil_r. reflexivity. Qed.

Lemma buckets_app_assoc a b c :
  buckets_app (buckets_app a b) c = buckets_app a (buckets_app b c).
Proof. unfold buckets_app. cbn. rewrite <- !app_assoc. reflexivity. Qed.

(** The loop body only appends: on any buckets it adds what it adds to
    empty ones, and its outcome does not depend on the buckets. *)
Lemma assign_name_delta rolesMap ts orgID name b :
  assign_name rolesMap ts orgID name b =
  match assign_name rolesMap ts orgID name no_buckets with
  | Ok d => Ok (buckets_app b d)
  | r => r
  end.
Proof.
  unfold assign_name.
  destruct (rolesMap !! orgID ≫= (.!! name)) as [role|]; [|reflexivity].
  destruct (strings.HasPrefix name "managed:users").
  { destruct (strings.Split name ":" !! 2%nat) as [seg|]; [|reflexivity].
    destruct (strconv.ParseInt seg); [|reflexivity].
    unfold buckets_app. cbn. rewrite !app_nil_r. reflexivity. }
  destruct (strings.HasPrefix name "managed:teams").
  { destruct (strings.Split name ":" !! 2%nat) as [seg|]; [|reflexivity].
    destruct (strconv.ParseInt seg); [|reflexivity].
    unfold buckets_app. cbn. rewrite !app_nil_r. reflexivity. }
  destruct (strings.HasPrefix name "managed:builtins").
  { destruct (strings.Split name ":" !! 2%nat) as [seg|]; [|reflexivity].
    unfold buckets_app. cbn. rewrite !app_nil_r. reflexivity. }
  rewrite buckets_app_empty_r. reflexivity.
Qed.

Lemma assign_visits_delta rolesMap ts vs : forall b,
  assign_visits rolesMap ts vs b =
  match assign_visits rolesMap ts vs no_buckets with
  | Ok d => Ok (buckets_app b d)
  | r => r
  end.
Proof.
  induction vs as [|[o n] vs IH]; intros b; cbn [assign_visits].
  - rewrite buckets_app_empty_r. reflexivity.
  - rewrite (assign_name_delta _ _ _ _ b).
    destruct (assign_name rolesMap ts o n no_buckets) as [d|e| |]; try reflexivity.
    rewrite (IH (buckets_app b d)), (IH d).
    destruct (assign_visits rolesMap ts vs no_buckets) as [d'|e| |]; try reflexivity.
    rewrite buckets_app_assoc. reflexivity.
Qed.

Lemma assign_visits_cons rolesMap ts o n vs b :
  assign_visits rolesMap ts ((o, n) :: vs) no_buckets = Ok b <->
  exists d dl,
    assign_name rolesMap ts o n no_buckets = Ok d /\
    assign_visits rolesMap ts vs no_buckets = Ok dl /\ b = buckets_app d dl.
Proof.
  cbn [assign_visits].
  destruct (assign_name rolesMap ts o n no_buckets) as [d|e| |].
  2-4: split; [discriminate|intros (d & dl & H & _); discriminate].
  rewrite assign_visits_delta.
  destruct (assign_visits rolesMap ts vs no_buckets) as [dl|e| |].
  2-4: split; [discriminate|intros (d' & dl & _ & H & _); discriminate].
  split.
  - intros [= <-]. exists d, dl. repeat split.
  - intros (d' & dl' & [= <-] & [= <-] & ->). reflexivity.
Qed.

Lemma buckets_perm_refl b : buckets_perm b b.
Proof. repeat split; reflexivity. Qed.

Lemma buckets_perm_trans a b c : buckets_perm a b -> buckets_perm b c -> buckets_perm a c.
Proof.
  intros (U1 & T1 & B1) (U2 & T2 & B2).
  repeat split; eapply Permutation_trans; eassumption.
Qed.

Lemma buckets_perm_app a b a' b' :
  buckets_perm a a' -> buckets_perm b b' ->
  buckets_perm (buckets_app a b) (buckets_app a' b').
Proof.
  intros (U1 & T1 & B1) (U2 & T2 & B2).
  repeat split; cbn; apply Permutation_app; assumption.
Qed.

Lemma buckets_perm_swap a b c :
  buckets_perm (buckets_app a (buckets_app b c)) (buckets_app b (buckets_app a c)).
Proof.
  repeat split; cbn; rewrite !app_assoc; apply Permutation_app_tail, Permutation_app_comm.
Qed.

Lemma assign_visits_perm rolesMap ts vs vs' :
  Permutation vs vs' -> forall b,
  assign_visits rolesMap ts vs no_buckets = Ok b ->
  exists b', assign_visits rolesMap ts vs' no_buckets = Ok b' /\ buckets_perm b b'.
Proof.
  induction 1 as [|[o n] l l' _ IH|[o n] [o' n'] l|l1 l2 l3 _ IH1 _ IH2]; intros b Hb.
  - exists b. split; [exact Hb|apply buckets_perm_refl].
  - apply assign_visits_cons in Hb as (d & dl & Hd & Hl & ->).
    destruct (IH _ Hl) as (dl' & Hl' & Hp).
    exists (buckets_app d dl'). split.
    + apply assign_visits_cons. exists d, dl'. repeat split; assumption.
    + apply buckets_perm_app; [apply buckets_perm_refl|exact Hp].
  - apply assign_visits_cons in Hb as (d & dl & Hd & Hl & ->).
    apply assign_visits_cons in Hl as (d' & dl' & Hd' & Hl' & ->).
    exists (buckets_app d' (buckets_app d dl')). split.
    + apply assign_visits_cons. exists d', (buckets_app d dl').
      split; [exact Hd'|]. split; [|reflexivity].
      apply assign_visits_cons. exists d, dl'. repeat split; assumption.
    + apply buckets_perm_swap.
  - destruct (IH1 _ Hb) as (b2 & H2 & P2). destruct (IH2 _ H2) as (b3 & H3 & P3).
    exists b3. split; [exact H3|]. eapply buckets_perm_trans; eassumption.
Qed.

(** X11: the order in which Go happens to iterate over the assignments map
    and its name sets does not change what bulkAssignRoles binds.  If the
    loops populate the buckets when the (organisation, name) pairs are
    visited in one order, they do so for every other order of the same
    pairs, and each bucket then holds the same bindings, in a possibly
    different order.  (Hence the loops fail in one order only if they fail
    in every order.) *)
Theorem bulkAssignRoles_buckets_any_order
        (rolesMap : RolesMap) (ts : Z)
        (assignments assignments' : list (Z * list string)) (b : Buckets) :
  Permutation (visits assignments) (visits assignments') ->
  assign_orgs rolesMap ts assignments no_buckets = Ok b ->
  exists b',
    assign_orgs rolesMap ts assignments' no_buckets = Ok b' /\ buckets_perm b b'.
Proof.
  rewrite !assign_orgs_visits. intros HP. exact (assign_visits_perm _ _ _ _ HP b).
Qed.

Lemma bulkAssignRoles_buckets_any_order_witness :
  exists b',
    assign_orgs index1 1000
      [(1, ["managed:teams:7"; "managed:users:42"]%string)] no_buckets = Ok b' /\
    buckets_perm (mkBuckets [UserRole.mk 1 11 42 1000] [TeamRole.mk 1 12 7 1000] []) b'.
Proof.
  apply (bulkAssignRoles_buckets_any_order index1 1000
           [(1, ["managed:users:42"; "managed:teams:7"]%string)]).
  - apply perm_swap.
  - vm_compute. reflexivity.
Defined.

(** ** What the buckets hold *)

Lemma assign_name_one rolesMap ts o n d :
  assign_name rolesMap ts o n no_buckets = Ok d ->
  (length (userRoleAssignments d) + length (teamRoleAssignments d)
   + length (builtInRoleAssignments d)
   = if managed_prefix n then 1 else 0)%nat /\
  Forall (user_binding_of rolesMap ts [(o, n)]) (userRoleAssignments d) /\
  Forall (team_binding_of rolesMap ts [(o, n)]) (teamRoleAssignments d) /\
  Forall (builtin_binding_of rolesMap ts [(o, n)]) (builtInRoleAssignments d).
Proof.
  unfold assign_name, managed_prefix.
  destruct (rolesMap !! o ≫= (.!! n)) as [role|] eqn:Hrole; [|discriminate].
  destruct (strings.HasPrefix n "managed:users") eqn:Hu.
  { destruct (strings.Split n ":" !! 2%nat) as [seg|]; [|discriminate].
    destruct (strconv.ParseInt seg) as [id|]; [|discriminate].
    intros [= <-]. cbn. split; [reflexivity|]. split; [|split; constructor].
    repeat constructor. exists (o, n), role. split; [left; reflexivity|].
    repeat split; assumption. }
  destruct (strings.HasPrefix n "managed:teams") eqn:Ht.
  { destruct (strings.Split n ":" !! 2%nat) as [seg|]; [|discriminate].
    destruct (strconv.ParseInt seg) as [id|]; [|discriminate].
    intros [= <-]. cbn. split; [reflexivity|]. split; [constructor|].
    split; [|constructor].
    repeat constructor. exists (o, n), role. split; [left; reflexivity|].
    repeat split; assumption. }
  destruct (strings.HasPrefix n "managed:builtins") eqn:Hb.
  { destruct (strings.Split n ":" !! 2%nat) as [seg|]; [|discriminate].
    intros [= <-]. cbn. split; [reflexivity|]. split; [constructor|].
    split; [constructor|].
    constructor; [|constructor]. split; [reflexivity|]. split; [reflexivity|].
    exists (o, n), role. split; [left; reflexivity|]. repeat split; assumption. }
  intros [= <-]. cbn. split; [reflexivity|]. repeat split; constructor.
Qed.

Lemma bindings_of_incl rolesMap ts vs vs' :
  (forall v, In v vs -> In v vs') ->
  (forall l, Forall (user_binding_of rolesMap ts vs) l ->
             Forall (user_binding_of rolesMap ts vs') l) /\
  (forall l, Forall (team_binding_of rolesMap ts vs) l ->
             Forall (team_binding_of rolesMap ts vs') l) /\
  (forall l, Forall (builtin_binding_of rolesMap ts vs) l ->
             Forall (builtin_binding_of rolesMap ts vs') l).
Proof.
  intros Hincl. repeat split; intros l Hl; (eapply Forall_impl; [exact Hl|]); cbn.
  - intros u (Hc & v & role & Hin & Hrest). split; [exact Hc|].
    exists v, role. split; [apply Hincl, Hin|exact Hrest].
  - intros u (Hc & v & role & Hin & Hrest). split; [exact Hc|].
    exists v, role. split; [apply Hincl, Hin|exact Hrest].
  - intros u (Hc & Hu & v & role & Hin & Hrest). split; [exact Hc|]. split; [exact Hu|].
    exists v, role. split; [apply Hincl, Hin|exact Hrest].
Qed.

Lemma assign_visits_bindings rolesMap ts vs : forall b,
  assign_visits rolesMap ts vs no_buckets = Ok b ->
  (length (userRoleAssignments b) + length (teamRoleAssignments b)
   + length (builtInRoleAssignments b)
   = length (List.filter (fun v : Z * string => managed_prefix v.2) vs))%nat /\
  Forall (user_binding_of rolesMap ts vs) (userRoleAssignments b) /\
  Forall (team_binding_of rolesMap ts vs) (teamRoleAssignments b) /\
  Forall (builtin_binding_of rolesMap ts vs) (builtInRoleAssignments b).
Proof.
  induction vs as [|[o n] vs IH]; intros b Hb.
  - cbn in Hb. injection Hb as <-. cbn. repeat split; constructor.
  - apply assign_visits_cons in Hb as (d & dl & Hd & Hl & ->).
    destruct (assign_name_one _ _ _ _ _ Hd) as (Hn1 & Hu1 & Ht1 & Hb1).
    destruct (IH _ Hl) as (Hn2 & Hu2 & Ht2 & Hb2).
    destruct (bindings_of_incl rolesMap ts [(o, n)] ((o, n) :: vs)) as (Iu1 & It1 & Ib1).
    { intros v [<-|[]]. left. reflexivity. }
    destruct (bindings_of_incl rolesMap ts vs ((o, n) :: vs)) as (Iu2 & It2 & Ib2).
    { intros v Hv. right. exact Hv. }
    cbn [buckets_app userRoleAssignments teamRoleAssignments builtInRoleAssignments].
    split.
    + rewrite !length_app. cbn [List.filter snd].
      destruct (managed_prefix n); cbn [length]; lia.
    + split; [|split]; apply Forall_app; split; auto.
Qed.

(** X12: when the loops of bulkAssignRoles populate the buckets, they hold
    exactly one binding per visited name that begins with one of the three
    managed prefixes, and none for any other name.  Every binding carries the
    one timestamp read before the loops (built-in bindings as Created and as
    Updated) and the id and OrgID of the role the Role Index holds for a
    visited name with the prefix of its bucket: the organisation of a binding
    is that of the indexed role, not the key of the assignments map. *)
Theorem bulkAssignRoles_one_binding_per_managed_name
        (rolesMap : RolesMap) (ts : Z)
        (assignments : list (Z * list string)) (b : Buckets) :
  assign_orgs rolesMap ts assignments no_buckets = Ok b ->
  (length (userRoleAssignments b) + length (teamRoleAssignments b)
   + length (builtInRoleAssignments b)
   = length (List.filter (fun v : Z * string => managed_prefix v.2)
                         (visits assignments)))%nat /\
  Forall (user_binding_of rolesMap ts (visits assignments)) (userRoleAssignments b) /\
  Forall (team_binding_of rolesMap ts (visits assignments)) (teamRoleAssignments b) /\
  Forall (builtin_binding_of rolesMap ts (visits assignments))
         (builtInRoleAssignments b).
Proof.
  rewrite assign_orgs_visits. apply assign_visits_bindings.
Qed.

Lemma bulkAssignRoles_one_binding_per_managed_name_witness :
  (length (userRoleAssignments buckets1) + length (teamRoleAssignments buckets1)
   + length (builtInRoleAssignments buckets1) = 3)%nat /\
  Forall (user_binding_of index1 1000
            [(1, "managed:users:42"); (1, "basic:viewer"); (1, "managed:teams:7");
             (1, "managed:builtins:editor:extra")]%string)
         (userRoleAssignments buckets1).
Proof.
  destruct (bulkAssignRoles_one_binding_per_managed_name index1 1000
              [(1, ["managed:users:42"; "basic:viewer"; "managed:teams:7";
                    "managed:builtins:editor:extra"]%string)] buckets1)
    as (Hn & Hu & _).
  - vm_compute. reflexivity.
  - split; [exact Hn|exact Hu].
Defined.

(** ** The statements of one batch *)

Lemma uid_checks_are_checks w orgID k :
  forallb is_uid_check (uid_checks w orgID k) = true /\
  length (uid_checks w orgID k) = k.
Proof.
  unfold uid_checks. split.
  - apply forallb_forall. intros st Hst. apply in_map_iff in Hst as (i & <- & _).
    reflexivity.
  - rewrite length_map, length_seq. reflexivity.
Qed.

Lemma batch_uids_checks roles : forall w w' r,
  batch_uids roles w = (w', r) ->
  exists checks,
    statements w' = statements w ++ checks /\
    forallb is_uid_check checks = true /\
    (length checks <= 3 * length roles)%nat /\
    (forall uids, r = Ok uids ->
       (length roles <= length checks)%nat /\ length uids = length roles).
Proof.
  induction roles as [|x roles IH]; intros w w' r; cbn [batch_uids].
  - intros [= <- <-]. exists []. rewrite app_nil_r.
    split; [reflexivity|]. split; [reflexivity|]. split; [cbn; lia|].
    intros uids [= <-]. split; reflexivity.
  - unfold mbind, M_bind, generateNewRoleUID.
    destruct (generateNewRoleUID_loop_run 3 (Role.OrgID x) w)
      as (w1 & r1 & k & -> & Hk & Hst & _ & _ & _ & _ & _ & Hout).
    destruct (uid_checks_are_checks w (Role.OrgID x) k) as [Hall Hlen].
    destruct r1 as [uid|e| |].
    + assert (Hk1 : (1 <= k)%nat).
      { destruct Hout as [(_ & H & _)|(H & _)]; [discriminate|exact H]. }
      destruct (batch_uids roles w1) as [w2 r2] eqn:E2.
      destruct (IH _ _ _ E2) as (checks & Hst2 & Hall2 & Hle & Hok).
      destruct r2 as [uids|e| |]; intros [= <- <-];
        exists (uid_checks w (Role.OrgID x) k ++ checks);
        (split; [rewrite Hst2, Hst, app_assoc; reflexivity|]);
        (split; [rewrite forallb_app, Hall, Hall2; reflexivity|]);
        rewrite length_app, Hlen; cbn [length];
        (split; [lia|]); intros uids' [= <-].
      destruct (Hok uids eq_refl) as [H1 H2]. cbn [length]. split; lia.
    + intros [= <- <-]. exists (uid_checks w (Role.OrgID x) k).
      split; [exact Hst|]. split; [exact Hall|]. rewrite Hlen. cbn [length].
      split; [lia|discriminate].
    + intros [= <- <-]. exists (uid_checks w (Role.OrgID x) k).
      split; [exact Hst|]. split; [exact Hall|]. rewrite Hlen. cbn [length].
      split; [lia|discriminate].
    + intros [= <- <-]. exists (uid_checks w (Role.OrgID x) k).
      split; [exact Hst|]. split; [exact Hall|]. rewrite Hlen. cbn [length].
      split; [lia|discriminate].
Qed.

(** X22: the statements of one successful batch of N roles.  Either strategy
    first issues the existence checks of the UIDs, at least one and at most
    three per role, and nothing else.  createRoles then issues a single
    statement, the combined INSERT ... RETURNING with one value group
    (org_id, uid, name, created, updated) per role in order; createRolesMySQL
    issues two, the insert of the stamped roles and the lookup by the
    (org_id, uid) pairs of exactly these roles. *)
Theorem strategy_statements
        (mysql : bool) (roles : list Role.t) (start end_ : Z) (w w' : World)
        (created : list Role.t) :
  roles <> [] ->
  strategy mysql roles start end_ w = (w', Ok created) ->
  exists checks uids,
    statements w' = statements w ++ checks ++ batch_writes mysql (clock w) roles uids /\
    forallb is_uid_check checks = true /\
    (length roles <= length checks <= 3 * length roles)%nat /\
    length uids = length roles.
Proof.
  intros Hne.
  destruct (batch_uids roles (tick w)) as [w1 r1] eqn:Hu.
  destruct (batch_uids_checks _ _ _ _ Hu) as (checks & Hst & Hall & Hle & Hok).
  cbn [statements tick] in Hst.
  destruct mysql; unfold strategy, batch_writes.
  - unfold createRolesMySQL, mbind, M_bind, time.Now.
    rewrite createRolesMySQL_stamp_uids, Hu.
    destruct r1 as [uids|e| |]; cbn [carry app]; try discriminate.
    destruct (Hok uids eq_refl) as [Hge Hlen].
    rewrite insert_roles_run by (apply zip_with_nonempty; assumption).
    destruct (fault w1 (length (statements w1))); [discriminate|].
    unfold sess.find_roles_by_uids, exec.
    destruct (fault _ _); intros [= <- _].
    exists checks, uids. cbn [statements log_stmt add_roles]. rewrite Hst, <- !app_assoc.
    repeat split; try assumption; lia.
  - unfold createRoles, mbind, M_bind, time.Now.
    rewrite createRoles_args_uids, Hu.
    destruct r1 as [uids|e| |]; cbn [carry app]; try discriminate.
    destruct (Hok uids eq_refl) as [Hge Hlen].
    rewrite insert_roles_returning_run by (apply zip_with_nonempty; assumption).
    destruct (fault w1 (length (statements w1))); [discriminate|].
    cbv zeta. intros [= <- _].
    exists checks, uids. cbn [statements log_stmt add_roles]. rewrite Hst, <- !app_assoc.
    repeat split; try assumption; lia.
Qed.

Lemma strategy_statements_witness :
  exists checks uids,
    statements (strategy true [spec_user1; spec_team2] 0 2 world0).1
    = statements world0 ++ checks
      ++ batch_writes true (clock world0) [spec_user1; spec_team2] uids /\
    forallb is_uid_check checks = true /\
    (2 <= length checks <= 3 * 2)%nat /\
    length uids = 2%nat.
Proof.
  apply (strategy_statements true [spec_user1; spec_team2] 0 2 world0
           (strategy true [spec_user1; spec_team2] 0 2 world0).1
           [Role.mk 1 1 0 "a" "managed:users:1:permissions" 1000 1000;
            Role.mk 2 1 0 "b" "managed:teams:2:permissions" 1000 1000]).
  - discriminate.
  - vm_compute. reflexivity.
Defined.

(** * Notification settings *)

(** ** The order of strings and [slices.Sort] *)

Lemma string_leb_trans s1 : forall s2 s3,
  String.leb s1 s2 = true -> String.leb s2 s3 = true -> String.leb s1 s3 = true.
Proof.
  unfold String.leb.
  induction s1 as [|c1 s1 IH]; intros [|c2 s2] [|c3 s3]; cbn [String.compare];
    try reflexivity; try discriminate.
  unfold Ascii.compare.
  destruct (N.compare_spec (N_of_ascii c1) (N_of_ascii c2)) as [E12|L12|G12];
    destruct (N.compare_spec (N_of_ascii c2) (N_of_ascii c3)) as [E23|L23|G23];
    destruct (N.compare_spec (N_of_ascii c1) (N_of_ascii c3)) as [E13|L13|G13];
    try (intros; first [discriminate | reflexivity | lia]).
  apply IH.
Qed.

#[local] Instance string_le_trans : Transitive slices.string_le.
Proof. intros a b c. apply string_leb_trans. Qed.

#[local] Instance string_le_total : Total slices.string_le.
Proof. intros a b. apply String.leb_total. Qed.

#[local] Instance string_le_antisym : AntiSymm eq slices.string_le.
Proof. intros a b. apply String.leb_antisym. Qed.

Lemma Sort_sorted x : StronglySorted slices.string_le (slices.Sort x).
Proof. apply StronglySorted_merge_sort; apply _. Qed.

Lemma Sort_perm x : slices.Sort x ≡ₚ x.
Proof. apply merge_sort_Permutation. Qed.

Lemma Sort_unique x y : x ≡ₚ y -> slices.Sort x = slices.Sort y.
Proof.
  intros H. apply (StronglySorted_unique slices.string_le); try apply Sort_sorted.
  rewrite !Sort_perm. exact H.
Qed.

Lemma Sort_sorted_id x : StronglySorted slices.string_le x -> slices.Sort x = x.
Proof.
  intros H. apply (StronglySorted_unique slices.string_le);
    [apply Sort_sorted|exact H|apply Sort_perm].
Qed.

Lemma filter_Permutation_bool {A} (f : A -> bool) l l' :
  l ≡ₚ l' -> List.filter f l ≡ₚ List.filter f l'.
Proof.
  induction 1 as [|x l l' _ IH|x y l|l1 l2 l3 _ IH1 _ IH2]; cbn [List.filter].
  - reflexivity.
  - destruct (f x); [apply perm_skip|]; exact IH.
  - destruct (f x), (f y); try reflexivity. apply perm_swap.
  - etransitivity; eassumption.
Qed.

Lemma existsb_Permutation {A} (f : A -> bool) l l' :
  l ≡ₚ l' -> existsb f l = existsb f l'.
Proof.
  induction 1 as [|x l l' _ IH|x y l|l1 l2 l3 _ IH1 _ IH2]; cbn [existsb].
  - reflexivity.
  - rewrite IH. reflexivity.
  - destruct (f x), (f y); reflexivity.
  - congruence.
Qed.

(** ** [NormalizedGroupBy] *)

Section SettingsFacts.
Variables FolderTitleLabel AlertNameLabel : string.
Variables AutogeneratedRouteLabel AutogeneratedRouteReceiverNameLabel
          AutogeneratedRouteSettingsHashLabel : string.
Variable Fingerprint_String : Z -> string.

Local Abbreviation NormalizedGroupBy :=
  (NotificationSettings.NormalizedGroupBy FolderTitleLabel AlertNameLabel).
Local Abbreviation Fingerprint :=
  (NotificationSettings.Fingerprint FolderTitleLabel AlertNameLabel).
Local Abbreviation ToLabels :=
  (NotificationSettings.ToLabels FolderTitleLabel AlertNameLabel
     AutogeneratedRouteLabel AutogeneratedRouteReceiverNameLabel
     AutogeneratedRouteSettingsHashLabel Fingerprint_String).
Local Abbreviation custom := (custom_labels FolderTitleLabel AlertNameLabel).
Local Abbreviation is_all := (fun l : string => String.eqb l GroupByAll).

Lemma defaultGroupBySet_lookup lbl :
  fold_left (fun set l => <[l := tt]> set)
            (NotificationSettings.DefaultNotificationSettingsGroupBy
               FolderTitleLabel AlertNameLabel) (∅ : gmap string unit) !! lbl
  = if negb (String.eqb lbl FolderTitleLabel) && negb (String.eqb lbl AlertNameLabel)
    then None else Some tt.
Proof.
  cbn [fold_left NotificationSettings.DefaultNotificationSettingsGroupBy].
  destruct (String.eqb_spec lbl AlertNameLabel) as [->|Ha].
  - rewrite lookup_insert_eq, andb_false_r. reflexivity.
  - rewrite lookup_insert_ne by congruence.
    destruct (String.eqb_spec lbl FolderTitleLabel) as [->|Hf].
    + rewrite lookup_insert_eq. reflexivity.
    + rewrite lookup_insert_ne by congruence. apply lookup_empty.
Qed.

Lemma customLabels_loop_spec g : forall acc,
  NotificationSettings.customLabels_loop
    (fold_left (fun set l => <[l := tt]> set)
               (NotificationSettings.DefaultNotificationSettingsGroupBy
                  FolderTitleLabel AlertNameLabel) (∅ : gmap string unit)) g acc
  = if existsb is_all g then None else Some (acc ++ custom g).
Proof.
  induction g as [|lbl g IH]; intros acc;
    cbn [NotificationSettings.customLabels_loop existsb custom_labels List.filter].
  - rewrite app_nil_r. reflexivity.
  - destruct (String.eqb lbl GroupByAll); [reflexivity|]. cbn [orb].
    rewrite defaultGroupBySet_lookup.
    destruct (negb (String.eqb lbl FolderTitleLabel)
              && negb (String.eqb lbl AlertNameLabel)); rewrite IH;
      destruct (existsb _ g); try reflexivity.
    rewrite <- app_assoc. reflexivity.
Qed.

Lemma NormalizedGroupBy_eq s :
  NormalizedGroupBy s =
  match NotificationSettings.GroupBy s with
  | [] => []
  | _ =>
      if existsb is_all (NotificationSettings.GroupBy s) then [GroupByAll]
      else FolderTitleLabel :: AlertNameLabel
             :: slices.Sort (custom (NotificationSettings.GroupBy s))
  end.
Proof.
  unfold NotificationSettings.NormalizedGroupBy.
  destruct (NotificationSettings.GroupBy s) as [|l g] eqn:E; [reflexivity|].
  cbn [length Nat.eqb]. cbv zeta. rewrite customLabels_loop_spec.
  destruct (existsb _ _); reflexivity.
Qed.

Lemma existsb_is_all g : existsb is_all g = true <-> In GroupByAll g.
Proof.
  rewrite existsb_exists. split.
  - intros (x & Hx & E). apply String.eqb_eq in E. subst. exact Hx.
  - intros H. exists GroupByAll. split; [exact H|apply String.eqb_refl].
Qed.

(** X13: NormalizedGroupBy returns nil for an empty GroupBy (the group of
    the parent route is inherited), only "..." when GroupBy contains "...",
    and otherwise the two default labels followed by the labels of GroupBy
    that are no default labels, in ascending byte-wise order: every such
    label as often as GroupBy has it, and nothing else. *)
Theorem NormalizedGroupBy_shape (s : NotificationSettings.t) :
  (NotificationSettings.GroupBy s = [] -> NormalizedGroupBy s = []) /\
  (In GroupByAll (NotificationSettings.GroupBy s) ->
   NormalizedGroupBy s = [GroupByAll]) /\
  (NotificationSettings.GroupBy s <> [] ->
   ~ In GroupByAll (NotificationSettings.GroupBy s) ->
   exists customLabels,
     NormalizedGroupBy s = FolderTitleLabel :: AlertNameLabel :: customLabels /\
     StronglySorted slices.string_le customLabels /\
     customLabels ≡ₚ custom (NotificationSettings.GroupBy s)).
Proof.
  rewrite NormalizedGroupBy_eq. split; [intros ->; reflexivity|]. split.
  - intros Hin. destruct (NotificationSettings.GroupBy s) as [|l g]; [destruct Hin|].
    apply existsb_is_all in Hin. rewrite Hin. reflexivity.
  - intros Hne Hno. destruct (NotificationSettings.GroupBy s) as [|l g]; [congruence|].
    destruct (existsb is_all (l :: g)) eqn:E.
    { apply existsb_is_all in E. contradiction. }
    eexists. split; [reflexivity|]. split; [apply Sort_sorted|apply Sort_perm].
Qed.

Lemma NormalizedGroupBy_Permutation s g :
  NotificationSettings.GroupBy s ≡ₚ g ->
  NormalizedGroupBy (NotificationSettings.set_GroupBy g s) = NormalizedGroupBy s.
Proof.
  intros HP. rewrite !NormalizedGroupBy_eq. cbn [NotificationSettings.set_GroupBy
    NotificationSettings.GroupBy].
  destruct (NotificationSettings.GroupBy s) as [|l gs] eqn:E.
  { apply Permutation_nil in HP. subst. reflexivity. }
  destruct g as [|l' g'].
  { symmetry in HP. apply Permutation_nil in HP. discriminate. }
  rewrite <- (existsb_Permutation _ _ _ HP).
  destruct (existsb _ _); [reflexivity|].
  do 2 f_equal. apply Sort_unique, filter_Permutation_bool. symmetry. exact HP.
Qed.

(** X14: the order of the labels in GroupBy is immaterial.  Settings that
    differ only in the order of their GroupBy labels have the same
    NormalizedGroupBy, the same Fingerprint and the same labels (ToLabels),
    so that they match the same autogenerated route. *)
Theorem Fingerprint_ignores_GroupBy_order
        (s : NotificationSettings.t) (g : list string) :
  NotificationSettings.GroupBy s ≡ₚ g ->
  NormalizedGroupBy (NotificationSettings.set_GroupBy g s) = NormalizedGroupBy s /\
  Fingerprint (NotificationSettings.set_GroupBy g s) = Fingerprint s /\
  ToLabels (NotificationSettings.set_GroupBy g s) = ToLabels s.
Proof.
  intros HP. pose proof (NormalizedGroupBy_Permutation s g HP) as HN.
  assert (HF : Fingerprint (NotificationSettings.set_GroupBy g s) = Fingerprint s).
  { unfold NotificationSettings.Fingerprint. rewrite HN. reflexivity. }
  split; [exact HN|]. split; [exact HF|].
  unfold NotificationSettings.ToLabels, NotificationSettings.IsAllDefault.
  rewrite HF. cbn [NotificationSettings.set_GroupBy NotificationSettings.GroupBy
    NotificationSettings.GroupWait NotificationSettings.GroupInterval
    NotificationSettings.RepeatInterval NotificationSettings.MuteTimeIntervals
    NotificationSettings.Receiver].
  rewrite (Permutation_length HP). reflexivity.
Qed.

Lemma custom_labels_id g :
  Forall (fun l => l <> FolderTitleLabel /\ l <> AlertNameLabel) g -> custom g = g.
Proof.
  induction 1 as [|l g [Hf Ha] _ IH]; cbn [custom_labels List.filter]; [reflexivity|].
  fold (custom g). rewrite IH.
  destruct (String.eqb_spec l FolderTitleLabel); [contradiction|].
  destruct (String.eqb_spec l AlertNameLabel); [contradiction|]. reflexivity.
Qed.

Lemma custom_labels_free g :
  Forall (fun l => l <> FolderTitleLabel /\ l <> AlertNameLabel) (custom g).
Proof.
  apply Forall_forall. intros l Hl. apply list_elem_of_In, filter_In in Hl as [_ Hl].
  apply andb_true_iff in Hl as [Hf Ha].
  destruct (String.eqb_spec l FolderTitleLabel); [discriminate|].
  destruct (String.eqb_spec l AlertNameLabel); [discriminate|]. split; assumption.
Qed.

(** X15: NormalizedGroupBy is idempotent (the default labels being different
    from "..."): normalizing settings whose GroupBy is already normalized
    changes nothing, and settings have the Fingerprint of their normalized
    form. *)
Theorem NormalizedGroupBy_idempotent (s : NotificationSettings.t) :
  FolderTitleLabel <> GroupByAll -> AlertNameLabel <> GroupByAll ->
  NormalizedGroupBy (NotificationSettings.set_GroupBy (NormalizedGroupBy s) s)
  = NormalizedGroupBy s /\
  Fingerprint (NotificationSettings.set_GroupBy (NormalizedGroupBy s) s)
  = Fingerprint s.
Proof.
  intros Hf Ha.
  assert (HN : NormalizedGroupBy
                 (NotificationSettings.set_GroupBy (NormalizedGroupBy s) s)
               = NormalizedGroupBy s).
  { rewrite (NormalizedGroupBy_eq (NotificationSettings.set_GroupBy _ s)).
    cbn [NotificationSettings.set_GroupBy NotificationSettings.GroupBy].
    rewrite NormalizedGroupBy_eq.
    destruct (NotificationSettings.GroupBy s) as [|l g]; [reflexivity|].
    destruct (existsb is_all (l :: g)) eqn:E.
    { cbn. reflexivity. }
    set (c := slices.Sort (custom (l :: g))).
    assert (Hfree : Forall (fun x => x <> FolderTitleLabel /\ x <> AlertNameLabel) c).
    { unfold c. rewrite Sort_perm. apply custom_labels_free. }
    assert (Hno : existsb is_all c = false).
    { apply not_true_is_false. intros H. apply existsb_is_all in H.
      assert (Hin : In GroupByAll (l :: g)).
      { apply list_elem_of_In in H. unfold c in H. rewrite Sort_perm in H.
        apply list_elem_of_In, filter_In in H. apply H. }
      apply existsb_is_all in Hin. congruence. }
    cbn [existsb].
    destruct (String.eqb_spec FolderTitleLabel GroupByAll); [contradiction|].
    destruct (String.eqb_spec AlertNameLabel GroupByAll); [contradiction|].
    rewrite Hno. cbn [orb]. do 2 f_equal.
    cbn [custom_labels List.filter]. rewrite !String.eqb_refl.
    cbn [negb andb]. rewrite andb_false_r. fold (custom c).
    rewrite custom_labels_id by exact Hfree.
    apply Sort_sorted_id. apply Sort_sorted. }
  split; [exact HN|]. unfold NotificationSettings.Fingerprint. rewrite HN. reflexivity.
Qed.

End SettingsFacts.

Lemma Fingerprint_ignores_GroupBy_order_witness :
  NotificationSettings.NormalizedGroupBy "grafana_folder" "alertname" settings2
  = NotificationSettings.NormalizedGroupBy "grafana_folder" "alertname" settings1 /\
  NotificationSettings.Fingerprint "grafana_folder" "alertname" settings2
  = NotificationSettings.Fingerprint "grafana_folder" "alertname" settings1 /\
  NotificationSettings.ToLabels "grafana_folder" "alertname" "a" "b" "c"
                                (fun _ => "h"%string) settings2
  = NotificationSettings.ToLabels "grafana_folder" "alertname" "a" "b" "c"
                                  (fun _ => "h"%string) settings1.
Proof.
  apply (Fingerprint_ignores_GroupBy_order "grafana_folder" "alertname" "a" "b" "c"
           (fun _ => "h"%string) settings1 ["env"; "team"; "team"; "alertname"]%string).
  cbn [NotificationSettings.GroupBy settings1].
  apply perm_trans with ["team"; "env"; "alertname"; "team"]%string.
  - apply perm_skip, perm_swap.
  - apply perm_trans with ["env"; "team"; "alertname"; "team"]%string.
    + apply perm_swap.
    + do 2 apply perm_skip. apply perm_swap.
Defined.

Lemma NormalizedGroupBy_idempotent_witness :
  NotificationSettings.NormalizedGroupBy "grafana_folder" "alertname"
    (NotificationSettings.set_GroupBy
       (NotificationSettings.NormalizedGroupBy "grafana_folder" "alertname" settings1)
       settings1)
  = NotificationSettings.NormalizedGroupBy "grafana_folder" "alertname" settings1 /\
  NotificationSettings.Fingerprint "grafana_folder" "alertname"
    (NotificationSettings.set_GroupBy
       (NotificationSettings.NormalizedGroupBy "grafana_folder" "alertname" settings1)
       settings1)
  = NotificationSettings.Fingerprint "grafana_folder" "alertname" settings1.
Proof.
  apply (NormalizedGroupBy_idempotent "grafana_folder" "alertname" settings1);
    discriminate.
Defined.

(** ** [Equals], [IsAllDefault] and [Validate] *)

Lemma slices_Equal_eq s1 : forall s2, slices.Equal s1 s2 = true <-> s1 = s2.
Proof.
  unfold slices.Equal.
  induction s1 as [|x s1 IH]; intros [|y s2];
    cbn [length Nat.eqb negb zip zip_with forallb].
  - split; reflexivity.
  - split; discriminate.
  - split; discriminate.
  - specialize (IH s2). destruct (length s1 =? length s2)%nat; cbn [negb] in *.
    + cbn [fst snd]. rewrite andb_true_iff, IH. split.
      * intros [E ->]. apply String.eqb_eq in E. subst. reflexivity.
      * intros [= -> ->]. split; [apply String.eqb_refl|reflexivity].
    + split; [discriminate|]. intros [= _ H]. apply IH in H. discriminate.
Qed.

Lemma durationEqual_eq d1 d2 :
  NotificationSettings.durationEqual d1 d2 = true <-> d1 = d2.
Proof.
  destruct d1 as [x|], d2 as [y|]; cbn; try (split; [discriminate|congruence]).
  - rewrite Z.eqb_eq. split; congruence.
  - split; reflexivity.
Qed.

(** X16: Equals holds exactly for equal settings: two nil pointers are
    equal, nil equals no settings, and two settings are equal when they have
    the same receiver, the same three intervals (nil only equal to nil), the
    same mute time intervals and the same GroupBy labels in the same order.
    So Equals is an equivalence, and it is finer than the Fingerprint, which
    ignores the order of GroupBy. *)
Theorem Equals_iff_same (s other : option NotificationSettings.t) :
  NotificationSettings.Equals s other = true <-> s = other.
Proof.
  destruct s as [s|], other as [o|]; cbn [NotificationSettings.Equals];
    try (split; [discriminate|congruence]); [|split; reflexivity].
  destruct s as [r g gw gi ri m], o as [r' g' gw' gi' ri' m'].
  cbn [NotificationSettings.Receiver NotificationSettings.GroupBy
       NotificationSettings.GroupWait NotificationSettings.GroupInterval
       NotificationSettings.RepeatInterval NotificationSettings.MuteTimeIntervals].
  pose proof (String.eqb_eq r r') as Hr.
  pose proof (durationEqual_eq gw gw') as Hgw.
  pose proof (durationEqual_eq gi gi') as Hgi.
  pose proof (durationEqual_eq ri ri') as Hri.
  pose proof (slices_Equal_eq m m') as Hm.
  pose proof (slices_Equal_eq g g') as Hg.
  destruct (String.eqb r r'); cbn [negb].
  2:{ split; [discriminate|]. intros [= E _]. apply Hr in E. discriminate. }
  destruct (NotificationSettings.durationEqual gw gw'); cbn [negb].
  2:{ split; [discriminate|]. intros [= _ _ E]. apply Hgw in E. discriminate. }
  destruct (NotificationSettings.durationEqual gi gi'); cbn [negb].
  2:{ split; [discriminate|]. intros [= _ _ _ E]. apply Hgi in E. discriminate. }
  destruct (NotificationSettings.durationEqual ri ri'); cbn [negb].
  2:{ split; [discriminate|]. intros [= _ _ _ _ E]. apply Hri in E. discriminate. }
  destruct (slices.Equal m m'); cbn [negb].
  2:{ split; [discriminate|]. intros [= _ _ _ _ _ E]. apply Hm in E. discriminate. }
  rewrite Hg. split.
  - intros ->.
    rewrite (proj1 Hr eq_refl), (proj1 Hgw eq_refl), (proj1 Hgi eq_refl),
      (proj1 Hri eq_refl), (proj1 Hm eq_refl).
    reflexivity.
  - intros [= _ E]. exact E.
Qed.

(** X17: IsAllDefault holds exactly for the settings that
    NewDefaultNotificationSettings makes for their receiver, and it is what
    Equals answers when the settings are compared with those; the default
    settings of a receiver are valid exactly when the receiver is not
    empty. *)
Theorem IsAllDefault_iff_default (s : NotificationSettings.t) :
  (NotificationSettings.IsAllDefault s = true <->
   s = NotificationSettings.NewDefaultNotificationSettings
         (NotificationSettings.Receiver s)) /\
  NotificationSettings.IsAllDefault s
  = NotificationSettings.Equals
      (Some s)
      (Some (NotificationSettings.NewDefaultNotificationSettings
               (NotificationSettings.Receiver s))) /\
  (NotificationSettings.Validate
     (NotificationSettings.NewDefaultNotificationSettings
        (NotificationSettings.Receiver s)) = None <->
   NotificationSettings.Receiver s <> EmptyString).
Proof.
  destruct s as [r g gw gi ri m].
  unfold NotificationSettings.IsAllDefault,
    NotificationSettings.NewDefaultNotificationSettings, NotificationSettings.Validate.
  cbn [NotificationSettings.Receiver NotificationSettings.GroupBy
       NotificationSettings.GroupWait NotificationSettings.GroupInterval
       NotificationSettings.RepeatInterval NotificationSettings.MuteTimeIntervals
       NotificationSettings.Equals].
  split; [|split].
  - destruct g, gw, gi, ri, m; cbn; split; congruence.
  - rewrite String.eqb_refl.
    destruct g, gw, gi, ri, m; reflexivity.
  - destruct (String.eqb_spec r EmptyString); split; congruence.
Qed.

(** X18: Validate accepts settings exactly when the receiver is not empty,
    GroupWait is nil or not negative, and GroupInterval and RepeatInterval
    are each nil or greater than zero: a GroupWait of zero is accepted, a
    GroupInterval or RepeatInterval of zero is rejected.  GroupBy and
    MuteTimeIntervals are not looked at. *)
Theorem Validate_accepts_iff (s : NotificationSettings.t) :
  (NotificationSettings.Validate s = None <->
   NotificationSettings.Receiver s <> EmptyString /\
   (forall d, NotificationSettings.GroupWait s = Some d -> 0 <= d) /\
   (forall d, NotificationSettings.GroupInterval s = Some d -> 0 < d) /\
   (forall d, NotificationSettings.RepeatInterval s = Some d -> 0 < d)) /\
  (forall g m,
     NotificationSettings.Validate
       (NotificationSettings.mk
          (NotificationSettings.Receiver s) g (NotificationSettings.GroupWait s)
          (NotificationSettings.GroupInterval s)
          (NotificationSettings.RepeatInterval s) m)
     = NotificationSettings.Validate s).
Proof.
  split; [|intros g m; reflexivity].
  destruct s as [r g gw gi ri m]. unfold NotificationSettings.Validate.
  cbn [NotificationSettings.Receiver NotificationSettings.GroupWait
       NotificationSettings.GroupInterval NotificationSettings.RepeatInterval].
  split.
  - intros Hv.
    destruct (String.eqb_spec r EmptyString) as [->|Hr]; [discriminate|].
    split; [exact Hr|].
    destruct gw as [a|]; [destruct (Z.ltb_spec a 0) as [Ha|Ha]; [discriminate|]|];
      (destruct gi as [b|]; [destruct (Z.leb_spec b 0) as [Hb|Hb]; [discriminate|]|]);
      (destruct ri as [c|]; [destruct (Z.leb_spec c 0) as [Hc|Hc]; [discriminate|]|]);
      (split; [|split]); intros d E;
      first [discriminate E | injection E as <-; lia].
  - intros (Hr & Hgw & Hgi & Hri).
    destruct (String.eqb_spec r EmptyString) as [->|_]; [contradiction|].
    destruct gw as [a|];
      [specialize (Hgw a eq_refl); destruct (Z.ltb_spec a 0) as [Ha|Ha]; [lia|]|];
      (destruct gi as [b|];
       [specialize (Hgi b eq_refl); destruct (Z.leb_spec b 0) as [Hb|Hb]; [lia|]|]);
      (destruct ri as [c|];
       [specialize (Hri c eq_refl); destruct (Z.leb_spec c 0) as [Hc|Hc]; [lia|]|]);
      reflexivity.
Qed.

(** ** [Fingerprint] and [ToLabels] *)

Lemma Write_app h a b : fnv.Write h (a ++ b) = fnv.Write (fnv.Write h a) b.
Proof. apply fold_left_app. Qed.

Lemma writeString_bytes h x :
  NotificationSettings.writeString h x = fnv.Write h (string_bytes x).
Proof. unfold NotificationSettings.writeString, string_bytes. rewrite Write_app. reflexivity. Qed.

Lemma writeDuration_bytes h d :
  NotificationSettings.writeDuration h d = fnv.Write h (duration_bytes d).
Proof.
  destruct d; cbn [NotificationSettings.writeDuration duration_bytes];
    [rewrite Write_app|]; reflexivity.
Qed.

Lemma writeStrings_bytes l : forall h,
  fold_left NotificationSettings.writeString l h
  = fnv.Write h (flat_map string_bytes l).
Proof.
  induction l as [|x l IH]; intros h; cbn [fold_left flat_map]; [reflexivity|].
  rewrite IH, writeString_bytes, Write_app. reflexivity.
Qed.

Lemma Write_range data : forall h,
  0 <= h < 2 ^ 64 -> Forall (fun c => 0 <= c < 256) data ->
  0 <= fnv.Write h data < 2 ^ 64.
Proof.
  induction data as [|c data IH]; intros h Hh Hd; cbn [fnv.Write fold_left];
    [exact Hh|].
  inversion Hd as [|? ? Hc Hd']; subst. apply IH; [|exact Hd'].
  set (x := (h * fnv.prime64) mod 2 ^ 64).
  assert (Hx : 0 <= x < 2 ^ 64) by (apply Z.mod_pos_bound; lia).
  assert (Hnn : 0 <= Z.lxor x c) by (apply Z.lxor_nonneg; lia).
  split; [exact Hnn|].
  destruct (Z.eq_dec (Z.lxor x c) 0) as [->|Hne]; [lia|].
  apply Z.log2_lt_pow2; [lia|].
  pose proof (Z.log2_lxor x c (proj1 Hx) (proj1 Hc)) as Hl.
  assert (Z.log2 x < 64).
  { destruct (Z.eq_dec x 0) as [->|]; [cbn; lia|]. apply Z.log2_lt_pow2; lia. }
  assert (Z.log2 c < 64).
  { destruct (Z.eq_dec c 0) as [->|]; [cbn; lia|].
    apply Z.log2_lt_pow2; [lia|]. lia. }
  lia.
Qed.

Lemma land_255_range x : 0 <= Z.land x 255 < 256.
Proof.
  change 255 with (Z.ones 8). rewrite Z.land_ones by lia.
  apply Z.mod_pos_bound. lia.
Qed.

Lemma bytes_of_range x : Forall (fun c => 0 <= c < 256) (bytes_of x).
Proof.
  unfold bytes_of. apply Forall_forall. intros c Hc.
  apply list_elem_of_In, in_map_iff in Hc as (a & <- & _).
  pose proof (N_ascii_bounded a). lia.
Qed.

Lemma string_bytes_range x : Forall (fun c => 0 <= c < 256) (string_bytes x).
Proof.
  unfold string_bytes. apply Forall_app. split; [apply bytes_of_range|].
  repeat constructor; lia.
Qed.

Lemma duration_bytes_range d : Forall (fun c => 0 <= c < 256) (duration_bytes d).
Proof.
  destruct d as [d|]; cbn [duration_bytes PutUint64 map app];
    repeat constructor; try apply land_255_range; lia.
Qed.

Lemma flat_map_range l :
  Forall (fun c => 0 <= c < 256) (flat_map string_bytes l).
Proof.
  induction l as [|x l IH]; cbn [flat_map]; [constructor|].
  apply Forall_app. split; [apply string_bytes_range|exact IH].
Qed.

Section FingerprintFacts.
Variables FolderTitleLabel AlertNameLabel : string.
Variables AutogeneratedRouteLabel AutogeneratedRouteReceiverNameLabel
          AutogeneratedRouteSettingsHashLabel : string.
Variable Fingerprint_String : Z -> string.

Local Abbreviation NormalizedGroupBy :=
  (NotificationSettings.NormalizedGroupBy FolderTitleLabel AlertNameLabel).
Local Abbreviation Fingerprint :=
  (NotificationSettings.Fingerprint FolderTitleLabel AlertNameLabel).
Local Abbreviation ToLabels :=
  (NotificationSettings.ToLabels FolderTitleLabel AlertNameLabel
     AutogeneratedRouteLabel AutogeneratedRouteReceiverNameLabel
     AutogeneratedRouteSettingsHashLabel Fingerprint_String).

Lemma Fingerprint_bytes s :
  Fingerprint s = fnv.Write fnv.offset64 (fingerprint_bytes (NormalizedGroupBy s) s).
Proof.
  unfold NotificationSettings.Fingerprint, fingerprint_bytes, fnv.Sum64, fnv.New64.
  cbv zeta.
  rewrite !writeStrings_bytes, !writeDuration_bytes, writeString_bytes, !Write_app.
  reflexivity.
Qed.

(** X19: the Fingerprint is the 64-bit FNV-1 hash of one byte sequence: the
    receiver, the labels of NormalizedGroupBy (not of GroupBy), the three
    intervals and the mute time intervals, in this order, every string
    followed by the byte 0xFF and every interval written as 0xFF when it is
    nil and as its eight little-endian bytes followed by 0xFF otherwise.  It
    is a number below 2^64. *)
Theorem Fingerprint_hashes_separated_fields (s : NotificationSettings.t) :
  Fingerprint s
  = fnv.Write fnv.offset64
      (string_bytes (NotificationSettings.Receiver s) ++
       flat_map string_bytes (NormalizedGroupBy s) ++
       duration_bytes (NotificationSettings.GroupWait s) ++
       duration_bytes (NotificationSettings.GroupInterval s) ++
       duration_bytes (NotificationSettings.RepeatInterval s) ++
       flat_map string_bytes (NotificationSettings.MuteTimeIntervals s)) /\
  0 <= Fingerprint s < 2 ^ 64.
Proof.
  split; [apply Fingerprint_bytes|]. rewrite Fingerprint_bytes.
  apply Write_range; [unfold fnv.offset64; lia|]. unfold fingerprint_bytes.
  apply Forall_app; split; [apply string_bytes_range|].
  apply Forall_app; split; [apply flat_map_range|].
  do 3 (apply Forall_app; split; [apply duration_bytes_range|]).
  apply flat_map_range.
Qed.

Lemma upper_bytes_bytes d :
  bytes_of (upper_bytes d)
  = map (fun k => Z.land (Z.shiftr (d mod 2 ^ 64) (8 * k)) 255) [1; 2; 3; 4; 5; 6; 7].
Proof.
  unfold bytes_of, upper_bytes.
  rewrite list_ascii_of_string_of_list_ascii, map_map.
  apply map_ext. intros k.
  pose proof (land_255_range (Z.shiftr (d mod 2 ^ 64) (8 * k))) as H.
  rewrite N_ascii_embedding by lia. lia.
Qed.

(** X20: the Fingerprint does not tell all settings apart, valid ones
    included.  Settings whose RepeatInterval has 0xFF as its lowest byte
    (255ns, say) have the byte sequence, hence the Fingerprint, of the
    settings without RepeatInterval whose first mute time interval is named
    by the seven upper bytes of that interval; Equals tells the two apart,
    and with a positive interval Validate judges both alike. *)
Theorem Fingerprint_collides_on_separator_byte
        (s : NotificationSettings.t) (d : Z) :
  NotificationSettings.RepeatInterval s = Some d ->
  d mod 256 = 255 ->
  Fingerprint (interval_as_name d s) = Fingerprint s /\
  NotificationSettings.Equals (Some (interval_as_name d s)) (Some s) = false /\
  (0 < d ->
   NotificationSettings.Validate (interval_as_name d s)
   = NotificationSettings.Validate s).
Proof.
  intros Hri Hlow. split; [|split].
  - rewrite !Fingerprint_bytes. f_equal. unfold fingerprint_bytes.
    change (NormalizedGroupBy (interval_as_name d s)) with (NormalizedGroupBy s).
    cbn [interval_as_name NotificationSettings.Receiver NotificationSettings.GroupWait
         NotificationSettings.GroupInterval NotificationSettings.RepeatInterval
         NotificationSettings.MuteTimeIntervals flat_map duration_bytes].
    rewrite Hri. do 4 f_equal. cbn [duration_bytes].
    unfold string_bytes at 1. rewrite upper_bytes_bytes.
    cbn [PutUint64 map app]. f_equal.
    symmetry. change (8 * 0) with 0. rewrite Z.shiftr_0_r.
    pose proof (Z.land_ones (d mod 2 ^ 64) 8) as HL.
    change (Z.ones 8) with 255 in HL. change (2 ^ 8) with 256 in HL.
    rewrite HL by lia. transitivity (d mod 256); [|exact Hlow].
    apply Z.mod_mod_divide. exists 72057594037927936. reflexivity.
  - cbn [NotificationSettings.Equals interval_as_name NotificationSettings.Receiver
         NotificationSettings.GroupWait NotificationSettings.GroupInterval
         NotificationSettings.RepeatInterval].
    rewrite Hri. cbn [NotificationSettings.durationEqual negb].
    destruct (negb (String.eqb _ _)); [reflexivity|].
    destruct (negb (NotificationSettings.durationEqual _ _)); [reflexivity|].
    destruct (negb (NotificationSettings.durationEqual _ _)); reflexivity.
  - intros Hd. unfold NotificationSettings.Validate.
    cbn [interval_as_name NotificationSettings.Receiver NotificationSettings.GroupWait
         NotificationSettings.GroupInterval NotificationSettings.RepeatInterval].
    rewrite Hri. destruct (Z.leb_spec d 0); [lia|].
    destruct (String.eqb _ _); [reflexivity|].
    destruct (match NotificationSettings.GroupWait s with
              | Some d0 => d0 <? 0 | None => false end); [reflexivity|].
    destruct (match NotificationSettings.GroupInterval s with
              | Some d0 => d0 <=? 0 | None => false end); reflexivity.
Qed.

(** X21: when the three label names are pairwise different, ToLabels returns
    the label AutogeneratedRouteLabel with the value "true", the label
    AutogeneratedRouteReceiverNameLabel with the receiver, the label
    AutogeneratedRouteSettingsHashLabel with the rendered Fingerprint exactly
    when the settings are not all default, and no other label. *)
Theorem ToLabels_content (s : NotificationSettings.t) :
  AutogeneratedRouteLabel <> AutogeneratedRouteReceiverNameLabel ->
  AutogeneratedRouteLabel <> AutogeneratedRouteSettingsHashLabel ->
  AutogeneratedRouteReceiverNameLabel <> AutogeneratedRouteSettingsHashLabel ->
  ToLabels s !! AutogeneratedRouteLabel = Some "true"%string /\
  ToLabels s !! AutogeneratedRouteReceiverNameLabel
  = Some (NotificationSettings.Receiver s) /\
  ToLabels s !! AutogeneratedRouteSettingsHashLabel
  = (if NotificationSettings.IsAllDefault s then None
     else Some (Fingerprint_String (Fingerprint s))) /\
  (forall k, k <> AutogeneratedRouteLabel ->
             k <> AutogeneratedRouteReceiverNameLabel ->
             k <> AutogeneratedRouteSettingsHashLabel -> ToLabels s !! k = None).
Proof.
  intros Hab Hac Hbc. unfold NotificationSettings.ToLabels. cbv zeta.
  destruct (NotificationSettings.IsAllDefault s); cbn [negb].
  - split; [rewrite lookup_insert_ne, lookup_insert_eq by congruence; reflexivity|].
    split; [apply lookup_insert_eq|].
    split; [rewrite !lookup_insert_ne by congruence; apply lookup_empty|].
    intros k Ha Hb Hc. rewrite !lookup_insert_ne by congruence. apply lookup_empty.
  - split; [rewrite !lookup_insert_ne, lookup_insert_eq by congruence; reflexivity|].
    split; [rewrite lookup_insert_ne, lookup_insert_eq by congruence; reflexivity|].
    split; [apply lookup_insert_eq|].
    intros k Ha Hb Hc. rewrite !lookup_insert_ne by congruence. apply lookup_empty.
Qed.

End FingerprintFacts.

Lemma Fingerprint_collides_on_separator_byte_witness :
  NotificationSettings.Fingerprint "grafana_folder" "alertname"
    (interval_as_name 255 settings3)
  = NotificationSettings.Fingerprint "grafana_folder" "alertname" settings3 /\
  NotificationSettings.Equals (Some (interval_as_name 255 settings3)) (Some settings3)
  = false /\
  (0 < 255 ->
   NotificationSettings.Validate (interval_as_name 255 settings3)
   = NotificationSettings.Validate settings3).
Proof.
  apply (Fingerprint_collides_on_separator_byte "grafana_folder" "alertname"
           settings3 255); reflexivity.
Defined.

Lemma ToLabels_content_witness :
  NotificationSettings.ToLabels "f" "a" "auto" "receiver" "hash" (fun _ => "fp"%string)
                                settings1 !! "hash"%string
  = Some "fp"%string.
Proof.
  destruct (ToLabels_content "f" "a" "auto" "receiver" "hash" (fun _ => "fp"%string)
              settings1) as (_ & _ & H & _); try discriminate.
  exact H.
Defined.
